(** * Browserbase MCP server: usage meter, screenshot store and session tools

    A shallow embedding of
    - the usage meter, [src/mcp/usage.ts], in its two revisions: the plain
      counting one, and the one that also logs Stagehand metrics;
    - the [browserbase_usage_stats] tool ([handleUsage], file
      [unnamed/part_004]);
    - the resources module with the screenshot store, its retry wrapper and
      the resource handlers ([registerScreenshot],
      [clearScreenshotsForSession], [retryClearScreenshotsForSession],
      [listResources], [readResource], file [unnamed/part_003]);
    - the replay fetcher and the [browserbase_session_close] and
      [browserbase_session_create] tools, [src/tools/session.ts];
    - the command-line and configuration code, [unnamed/part_002].

    Conventions of the embedding.
    - A [Map<string, T>] is a [gmap string T] and a [Set<string>] a
      [gset string].  A plain object used as a dictionary
      ([Record<string, T>]) is the [gmap] of its own properties, read
      together with what it inherits from [Object.prototype].
    - The counters of the usage meter, which the code increments by one
      from zero, are natural numbers (a double holds them exactly up to
      [2^53] calls).  A number that comes from outside is a JavaScript
      number: the options of the retry wrapper are [NaN], an infinity or a
      rational, the numbers of a replay payload are doubles.
    - A truthiness test on a string is a test for the non-empty string. *)

From stdpp Require Import base gmap sets list strings.
From Stdlib Require Import ZArith Lia PrimFloat QArith Qround Qminmax Lqa.

Local Close Scope Q_scope.
Local Open Scope string_scope.

(** JavaScript truthiness of a string value. *)
Definition truthy (s : string) : bool :=
  match s with
  | EmptyString => false
  | String _ _ => true
  end.

(** Truthiness of a possibly [undefined] string. *)
Definition truthy_opt (s : option string) : bool :=
  match s with
  | Some s => truthy s
  | None => false
  end.

(** [a || b] on strings. *)
Definition or_else (a b : string) : string := if truthy a then a else b.


(* ===================================================================== *)
(** * The usage meter ([src/mcp/usage.ts]) *)
(* ===================================================================== *)

Module Usage.

Record StagehandUsageKey := mkKey {
  sessionId : string;
  toolName : string;
  operation : string;
}.

(** ** Plain objects

    [globalUsage], [perSessionUsage], every [operations] object and every
    [toolCallCounts] object is a plain object ([{}]): a property read
    [obj[name]] that finds no own property goes on to [Object.prototype].
    The own properties of such an object are kept in a [gmap]; what the
    prototype adds is given by [inherited]. *)

(** The function-valued members of [Object.prototype]. *)
Definition prototypeFunctions : list string :=
  [ "constructor"; "__defineGetter__"; "__defineSetter__"; "hasOwnProperty";
    "__lookupGetter__"; "__lookupSetter__"; "isPrototypeOf";
    "propertyIsEnumerable"; "toString"; "valueOf"; "toLocaleString" ].

(** What a read of a name that is not an own property can find. *)
Inductive Inherited :=
| InheritedFunction (name : string)
    (* [Object.prototype[name]], a built-in function; for [constructor] the
       function [Object] *)
| InheritedPrototype
    (* the accessor [__proto__]: [Object.prototype] itself *)
| InheritedCallCount.
    (* [Object.prototype.callCount], the number [NaN], once a call has
       written it (see [recordStagehandCall]) *)

(** [polluted] says whether [Object.prototype] has gained the property
    [callCount]. *)
Definition inherited (polluted : bool) (name : string) : option Inherited :=
  if existsb (String.eqb name) prototypeFunctions then
    Some (InheritedFunction name)
  else if String.eqb name "__proto__" then Some InheritedPrototype
  else if polluted && String.eqb name "callCount" then Some InheritedCallCount
  else None.

(** [String(f)] for the built-in function found under [name]. *)
Definition functionText (name : string) : string :=
  "function "
  ++ (if String.eqb name "constructor" then "Object" else name)
  ++ "() { [native code] }".

(** The values a property of a [toolCallCounts] object can hold: a count,
    [NaN], or a string (the result of [+ 1] on a function). *)
Inductive Count :=
| CountNumber (n : nat)
| CountNaN
| CountText (text : string).

(** [value + 1]. *)
Definition plusOne (value : Count) : Count :=
  match value with
  | CountNumber n => CountNumber (n + 1)
  | CountNaN => CountNaN
  | CountText text => CountText (text ++ "1")
  end.

Record StagehandOperationStats := mkStats {
  callCount : nat;
  toolCallCounts : gmap string Count;
}.

Record StagehandSessionUsage := mkSessionUsage {
  operations : gmap string StagehandOperationStats;
}.

(** The two module-level objects [globalUsage] and [perSessionUsage], as
    their own properties, and whether [Object.prototype] has the property
    [callCount].  Every object stored below the two is created by
    [recordStagehandCall] and is referenced from exactly one place, so the
    store is a tree and is kept by value. *)
Record UsageState := mkUsage {
  globalUsage : gmap string StagehandOperationStats;
  perSessionUsage : gmap string StagehandSessionUsage;
  prototypeCallCount : bool;
}.

(** The state of a freshly loaded module. *)
Definition emptyUsage : UsageState :=
  {| globalUsage := ∅; perSessionUsage := ∅; prototypeCallCount := false |}.

Definition newStats : StagehandOperationStats :=
  {| callCount := 0; toolCallCounts := ∅ |}.

(** What [getOrCreateOperationStats] returns: a stats object of the
    container, or, when [container[operation]] is an inherited truthy
    member, that member. *)
Inductive StatsObject :=
| OwnStats (stats : StagehandOperationStats)
| InheritedObject (member : Inherited).

(** [getOrCreateOperationStats]: the container after the call, and the
    object returned.  [!container[operation]] holds when the read finds
    nothing or finds [NaN]; a function or [Object.prototype] is truthy and
    is returned as it is. *)
Definition getOrCreateOperationStats (polluted : bool)
    (container : gmap string StagehandOperationStats) (operation : string)
  : gmap string StagehandOperationStats * StatsObject :=
  match container !! operation with
  | Some stats => (container, OwnStats stats)
  | None =>
      match inherited polluted operation with
      | Some (InheritedFunction name) =>
          (container, InheritedObject (InheritedFunction name))
      | Some InheritedPrototype => (container, InheritedObject InheritedPrototype)
      | Some InheritedCallCount | None =>
          (<[operation := newStats]> container, OwnStats newStats)
      end
  end.

(** The value that
    [counts[toolName] = (counts[toolName] ?? 0) + 1]
    stores under [toolName]; [None] when it stores nothing.  A function plus
    one is the text of the function followed by [1]; for [__proto__] the
    value read is [Object.prototype], and the string assigned is ignored by
    the [__proto__] setter. *)
Definition nextCount (polluted : bool) (toolName : string)
    (counts : gmap string Count) : option Count :=
  match counts !! toolName with
  | Some value => Some (plusOne value)
  | None =>
      match inherited polluted toolName with
      | Some (InheritedFunction name) =>
          Some (CountText (functionText name ++ "1"))
      | Some InheritedPrototype => None
      | Some InheritedCallCount => Some CountNaN
      | None => Some (CountNumber 1)
      end
  end.

(** The two statements
    [stats.callCount += 1;
     stats.toolCallCounts[toolName] = (stats.toolCallCounts[toolName] ?? 0) + 1]
    on a stats object of the store. *)
Definition bump (polluted : bool) (toolName : string)
    (stats : StagehandOperationStats) : StagehandOperationStats :=
  {| callCount := callCount stats + 1;
     toolCallCounts :=
       match nextCount polluted toolName (toolCallCounts stats) with
       | Some value => <[toolName := value]> (toolCallCounts stats)
       | None => toolCallCounts stats
       end |}.

(** The statements of a container: look the stats object up (creating it
    when absent) and mutate it in place.  When the object looked up is an
    inherited member, [member.callCount += 1] writes [NaN] on that member
    and the read of [member.toolCallCounts[toolName]] raises a [TypeError],
    [member.toolCallCounts] being [undefined]; the container is as before. *)
Inductive Bumped :=
| BumpedOwn (container : gmap string StagehandOperationStats)
| RaisedOn (member : Inherited).

Definition bumpIn (polluted : bool)
    (container : gmap string StagehandOperationStats)
    (operation toolName : string) : Bumped :=
  match getOrCreateOperationStats polluted container operation with
  | (container1, OwnStats stats) =>
      BumpedOwn (<[operation := bump polluted toolName stats]> container1)
  | (_, InheritedObject member) => RaisedOn member
  end.

(** Whether [member.callCount += 1] adds [callCount] to [Object.prototype].
    (On a built-in function it adds the property to that function, which no
    read of the meter reaches.) *)
Definition writesPrototype (member : Inherited) : bool :=
  match member with
  | InheritedPrototype => true
  | _ => false
  end.

(** How a call ends. *)
Inductive Ending :=
| Completed
| ThrewTypeError.

(** [recordStagehandCall]: the state the call leaves behind, and how it
    ended. *)
Definition recordStagehandCall (key : StagehandUsageKey) (u : UsageState)
  : UsageState * Ending :=
  let polluted := prototypeCallCount u in
  (* Update global aggregate *)
  match bumpIn polluted (globalUsage u) (operation key) (toolName key) with
  | RaisedOn member =>
      ({| globalUsage := globalUsage u;
          perSessionUsage := perSessionUsage u;
          prototypeCallCount := polluted || writesPrototype member |},
       ThrewTypeError)
  | BumpedOwn global1 =>
      (* Update per-session usage *)
      let session :=
        match perSessionUsage u !! sessionId key with
        | Some su => Some (perSessionUsage u, su)
        | None =>
            match inherited polluted (sessionId key) with
            | Some (InheritedFunction _) | Some InheritedPrototype =>
                (* truthy, so nothing is created; its [operations] is
                   [undefined] *)
                None
            | Some InheritedCallCount | None =>
                Some (<[sessionId key := {| operations := ∅ |}]>
                        (perSessionUsage u),
                      {| operations := ∅ |})
            end
        end in
      match session with
      | None =>
          (* [getOrCreateOperationStats(undefined, operation)] raises *)
          ({| globalUsage := global1;
              perSessionUsage := perSessionUsage u;
              prototypeCallCount := polluted |},
           ThrewTypeError)
      | Some (perSession1, su) =>
          match bumpIn polluted (operations su) (operation key)
                  (toolName key) with
          | BumpedOwn operations1 =>
              ({| globalUsage := global1;
                  perSessionUsage :=
                    <[sessionId key := {| operations := operations1 |}]>
                      perSession1;
                  prototypeCallCount := polluted |},
               Completed)
          | RaisedOn member =>
              ({| globalUsage := global1;
                  perSessionUsage := perSession1;
                  prototypeCallCount := polluted || writesPrototype member |},
               ThrewTypeError)
          end
      end
  end.

(** A sequence of calls, first call first; the caller goes on after a call
    that raised. *)
Definition recordAll (calls : list StagehandUsageKey) (u : UsageState)
  : UsageState :=
  foldl (fun acc key => fst (recordStagehandCall key acc)) u calls.

(** [Object.keys(obj)] followed by [delete obj[key]] for every key. *)
Definition deleteAllKeys {A} (obj : gmap string A) : gmap string A :=
  foldl (fun acc key => delete key acc) obj (map_to_list obj).*1.

Definition resetUsage (u : UsageState) : UsageState :=
  {| globalUsage := deleteAllKeys (globalUsage u);
     perSessionUsage := deleteAllKeys (perSessionUsage u);
     prototypeCallCount := prototypeCallCount u |}.

(** ** Keys that name no inherited member *)

(** None of the three names of [key] is found on [Object.prototype]. *)
Definition ordinary (polluted : bool) (key : StagehandUsageKey) : Prop :=
  inherited polluted (sessionId key) = None
  /\ inherited polluted (toolName key) = None
  /\ inherited polluted (operation key) = None.

(** The two counting statements when [toolName] is an own property or is
    not found at all. *)
Definition bumpOwn (toolName : string) (stats : StagehandOperationStats)
  : StagehandOperationStats :=
  {| callCount := callCount stats + 1;
     toolCallCounts :=
       <[toolName :=
           plusOne (default (CountNumber 0) (toolCallCounts stats !! toolName))]>
         (toolCallCounts stats) |}.

(** The statements of a container when [operation] is an own property or is
    not found at all. *)
Definition bumpInOwn (container : gmap string StagehandOperationStats)
    (operation toolName : string) : gmap string StagehandOperationStats :=
  <[operation := bumpOwn toolName (default newStats (container !! operation))]>
    container.

(** The session object of [sid], or the object a call would create for
    it. *)
Definition sessionObject (u : UsageState) (sid : string)
  : StagehandSessionUsage :=
  default {| operations := ∅ |} (perSessionUsage u !! sid).

(** The state after a call none of whose names is inherited. *)
Definition recordOwn (key : StagehandUsageKey) (u : UsageState)
  : UsageState :=
  {| globalUsage := bumpInOwn (globalUsage u) (operation key) (toolName key);
     perSessionUsage :=
       <[sessionId key :=
           {| operations :=
                bumpInOwn (operations (sessionObject u (sessionId key)))
                  (operation key) (toolName key) |}]>
         (perSessionUsage u);
     prototypeCallCount := prototypeCallCount u |}.

(** A sequence of such calls. *)
Definition recordAllOwn (calls : list StagehandUsageKey) (u : UsageState)
  : UsageState :=
  foldl (fun acc key => recordOwn key acc) u calls.

(** ** Reading counters *)

(** A count read as a number; what is not a number reads as [0]. *)
Definition countOf (value : option Count) : nat :=
  match value with
  | Some (CountNumber n) => n
  | _ => 0
  end.

Definition isNumber (value : Count) : Prop :=
  exists n : nat, value = CountNumber n.

Definition globalCallCount (u : UsageState) (op : string) : nat :=
  match globalUsage u !! op with
  | Some stats => callCount stats
  | None => 0
  end.

Definition globalToolCount (u : UsageState) (op tool : string) : nat :=
  match globalUsage u !! op with
  | Some stats => countOf (toolCallCounts stats !! tool)
  | None => 0
  end.

Definition sessionStats (u : UsageState) (sid op : string)
  : option StagehandOperationStats :=
  match perSessionUsage u !! sid with
  | Some su => operations su !! op
  | None => None
  end.

Definition sessionCallCount (u : UsageState) (sid op : string) : nat :=
  match sessionStats u sid op with
  | Some stats => callCount stats
  | None => 0
  end.

Definition sessionToolCount (u : UsageState) (sid op tool : string) : nat :=
  match sessionStats u sid op with
  | Some stats => countOf (toolCallCounts stats !! tool)
  | None => 0
  end.

(** The call count a session object holds for [op]. *)
Definition opCount (op : string) (su : StagehandSessionUsage) : nat :=
  match operations su !! op with
  | Some stats => callCount stats
  | None => 0
  end.

(** The sum, over the sessions present in [perSession], of the call count of
    [op]; a session without a bucket for [op] adds no term. *)
Definition addSessionCount (op : string) (_ : string)
    (su : StagehandSessionUsage) (acc : nat) : nat :=
  match operations su !! op with
  | Some stats => callCount stats + acc
  | None => acc
  end.

Definition sessionCallSum (op : string)
    (perSession : gmap string StagehandSessionUsage) : nat :=
  map_fold (addSessionCount op) 0 perSession.

(** The global count of every operation is the sum of the session counts. *)
Definition consistent (u : UsageState) : Prop :=
  forall op : string,
    globalCallCount u op = sessionCallSum op (perSessionUsage u).

(** Some call of [calls] was made for session [sid] and operation [op]. *)
Definition recorded (calls : list StagehandUsageKey) (sid op : string)
  : Prop :=
  exists key : StagehandUsageKey,
    In key calls /\ sessionId key = sid /\ operation key = op.

(** The example of the specification: three [nav] calls of session [s1] and
    one [extract] call of session [s2]. *)
Definition navCall : StagehandUsageKey :=
  {| sessionId := "s1"; toolName := "navigate"; operation := "nav" |}.
Definition extractCall : StagehandUsageKey :=
  {| sessionId := "s2"; toolName := "extract"; operation := "extract" |}.
Definition sampleCalls : list StagehandUsageKey :=
  [navCall; navCall; navCall; extractCall].
Definition sampleUsage : UsageState := recordAll sampleCalls emptyUsage.

(** ** Snapshots

    [getUsageSnapshot] returns [{ global: globalUsage, perSession:
    perSessionUsage }]: the two fields are references to the live
    module-level objects, not copies.  A reference is read through the state
    that is current when it is read. *)

Inductive GlobalRef := TheGlobalUsage.
Inductive PerSessionRef := ThePerSessionUsage.

Record StagehandUsageSnapshot := mkSnapshot {
  global : GlobalRef;
  perSession : PerSessionRef;
}.

Definition getUsageSnapshot : StagehandUsageSnapshot :=
  {| global := TheGlobalUsage; perSession := ThePerSessionUsage |}.

Definition readGlobal (u : UsageState) (r : GlobalRef)
  : gmap string StagehandOperationStats :=
  match r with TheGlobalUsage => globalUsage u end.

Definition readPerSession (u : UsageState) (r : PerSessionRef)
  : gmap string StagehandSessionUsage :=
  match r with ThePerSessionUsage => perSessionUsage u end.

(** ** Quantities used to describe reachable states *)

(** Every per-tool count of a bucket is a number. *)
Definition numeric (stats : StagehandOperationStats) : Prop :=
  forall (tool : string) (value : Count),
    toolCallCounts stats !! tool = Some value -> isNumber value.

Definition allNumeric (u : UsageState) : Prop :=
  (forall (op : string) (stats : StagehandOperationStats),
      globalUsage u !! op = Some stats -> numeric stats)
  /\ (forall (sid op : string) (stats : StagehandOperationStats),
        sessionStats u sid op = Some stats -> numeric stats).

(** The sum of the per-tool counts of a bucket. *)
Definition toolCountSum (stats : StagehandOperationStats) : nat :=
  map_fold (fun (_ : string) (value : Count) (acc : nat) =>
              countOf (Some value) + acc) 0
    (toolCallCounts stats).

(** A bucket whose per-tool counts are numbers that add up to its call
    count. *)
Definition balanced (stats : StagehandOperationStats) : Prop :=
  numeric stats /\ toolCountSum stats = callCount stats.

Definition allBalanced (u : UsageState) : Prop :=
  (forall (op : string) (stats : StagehandOperationStats),
      globalUsage u !! op = Some stats -> balanced stats)
  /\ (forall (sid op : string) (stats : StagehandOperationStats),
        sessionStats u sid op = Some stats -> balanced stats).

(** How many calls of [calls] satisfy [p]. *)
Definition countCalls (p : StagehandUsageKey -> bool)
    (calls : list StagehandUsageKey) : nat :=
  length (List.filter p calls).

(** Calls whose keys name members of [Object.prototype]. *)
Definition protoSessionCall : StagehandUsageKey :=
  {| sessionId := "__proto__"; toolName := "navigate"; operation := "nav" |}.
Definition constructorSessionCall : StagehandUsageKey :=
  {| sessionId := "constructor"; toolName := "navigate"; operation := "nav" |}.
Definition constructorOperationCall : StagehandUsageKey :=
  {| sessionId := "s1"; toolName := "navigate"; operation := "constructor" |}.
Definition protoOperationCall : StagehandUsageKey :=
  {| sessionId := "s1"; toolName := "navigate"; operation := "__proto__" |}.
Definition protoToolCall : StagehandUsageKey :=
  {| sessionId := "s1"; toolName := "__proto__"; operation := "nav" |}.
Definition constructorToolCall : StagehandUsageKey :=
  {| sessionId := "s1"; toolName := "constructor"; operation := "nav" |}.
Definition callCountToolCall : StagehandUsageKey :=
  {| sessionId := "s1"; toolName := "callCount"; operation := "nav" |}.

End Usage.

(* ===================================================================== *)
(** * The usage meter, revision with metrics logging ([src/mcp/usage.ts]) *)
(* ===================================================================== *)

Module UsageLogged.
Import Usage.

(** [stagehand.metrics] is of type [any]; it is kept as the list of its
    numeric fields. *)
Definition Metrics := list (string * Z).

(** The optional [stagehand] argument; [metrics] is the value of its
    [metrics] property once awaited, [None] when it is falsy. *)
Record Stagehand := mkStagehand {
  metrics : option Metrics;
}.

(** The object passed to [console.log(JSON.stringify(...))]. *)
Record MetricsLine := mkLine {
  source : string;
  event : string;
  key : StagehandUsageKey;
  lineMetrics : Metrics;
}.

Definition logStagehandMetrics (stagehand : option Stagehand)
    (key : StagehandUsageKey) (console : list MetricsLine)
  : list MetricsLine :=
  match stagehand with
  | None => console
  | Some sh =>
      match metrics sh with
      | None => console
      | Some m =>
          console ++
            [{| source := "stagehand-mcp"; event := "stagehand_metrics";
                key := key; lineMetrics := m |}]
      end
  end.

Record Args := mkArgs {
  argKey : StagehandUsageKey;
  stagehand : option Stagehand;
}.

(** The state is the usage store together with the console output.  The
    counting statements of this revision are, word for word, those of the
    first one ([Usage.recordStagehandCall]); [logStagehandMetrics] is
    awaited after them, so a [TypeError] raised by them skips it and rejects
    the promise. *)
Definition recordStagehandCall (args : Args)
    (st : UsageState * list MetricsLine)
  : UsageState * list MetricsLine * Ending :=
  let '(u, console) := st in
  let sessionId := sessionId (argKey args) in
  let toolName := toolName (argKey args) in
  let operation := operation (argKey args) in
  let key :=
    {| Usage.sessionId := sessionId; Usage.toolName := toolName;
       Usage.operation := operation |} in
  match Usage.recordStagehandCall key u with
  | (u1, ThrewTypeError) => (u1, console, ThrewTypeError)
  | (u1, Completed) =>
      (u1, logStagehandMetrics (stagehand args) key console, Completed)
  end.

(** The numeric field [name] of a metrics object, [0] when it has none. *)
Fixpoint metricField (name : string) (m : Metrics) : Z :=
  match m with
  | [] => 0%Z
  | (field, value) :: rest =>
      if String.eqb field name then value else metricField name rest
  end.

(** The global bucket of [op], or the bucket a call would create. *)
Definition globalBucket (u : UsageState) (op : string)
  : StagehandOperationStats :=
  default newStats (globalUsage u !! op).

(** The reading of the specification: buckets accumulate the metrics they
    are given.  Some quantity [tokens] read off a bucket grows, with every
    call that supplies metrics, by the [inputTokens] of those metrics. *)
Definition accumulatesMetrics : Prop :=
  exists tokens : StagehandOperationStats -> Z,
    forall (key : StagehandUsageKey) (m : Metrics) (u : UsageState)
           (console : list MetricsLine),
      tokens (globalBucket
                (fst (fst (recordStagehandCall
                             {| argKey := key;
                                stagehand := Some {| metrics := Some m |} |}
                             (u, console))))
                (operation key))
      = (tokens (globalBucket u (operation key))
         + metricField "inputTokens" m)%Z.

(** A sequence of calls of the logging revision, first call first. *)
Definition recordAllLogged (calls : list Args)
    (st : UsageState * list MetricsLine) : UsageState * list MetricsLine :=
  foldl (fun acc args => fst (recordStagehandCall args acc)) st calls.

(** The line a call writes, if it writes one. *)
Definition lineOf (args : Args) : option MetricsLine :=
  match stagehand args with
  | Some sh =>
      match metrics sh with
      | Some m =>
          Some {| source := "stagehand-mcp"; event := "stagehand_metrics";
                  key := argKey args; lineMetrics := m |}
      | None => None
      end
  | None => None
  end.

End UsageLogged.

(* ===================================================================== *)
(** * The [browserbase_usage_stats] tool ([unnamed/part_004]) *)
(* ===================================================================== *)

Module UsageTool.
Import Usage.

Inductive Scope := ScopeGlobal | ScopePerSession | ScopeAll.

Record UsageInput := mkInput {
  sessionId : option string;
  scope : option Scope;
  reset : option bool;
}.

(** The value of [snapshot.perSession[sid] ?? { operations: {} }]: a
    session object (one of the store, or the fresh literal), or the
    inherited member the read found, which is not nullish. *)
Inductive SessionValue :=
| SessionObject (su : StagehandSessionUsage)
| InheritedValue (member : Inherited).

(** The value of a [perSession] property of [result]: either the live
    [perSessionUsage] object, or an object literal with one computed key
    whose value was fetched from the store.  [resetUsage] deletes keys of
    the two module-level objects only, so a session object that was fetched
    is not changed by it. *)
Inductive PerSessionField :=
| PerSessionLive (r : PerSessionRef)
| PerSessionOnly (sid : string) (value : SessionValue).

(** [result]: which properties it has, and what they refer to. *)
Record Result := mkResult {
  resGlobal : option GlobalRef;
  resPerSession : option PerSessionField;
}.

(** What [JSON.stringify] writes for an entry of the [perSession]
    object. *)
Inductive SessionText :=
| TextSession (su : StagehandSessionUsage)
    (* a session object, [{ "operations": ... }] *)
| TextPrototype (callCount : bool)
    (* [Object.prototype], written with its enumerable own properties:
       [{}], or [{ "callCount": null }] once it has [callCount] *)
| TextNull.
    (* [NaN], written as [null] *)

(** What [JSON.stringify(result, null, 2)] writes, as data.  In a bucket,
    [CountNaN] is written as [null] and [CountText] as a string. *)
Record Rendered := mkRendered {
  outGlobal : option (gmap string StagehandOperationStats);
  outPerSession : option (gmap string SessionText);
}.

(** The entries written for [{ [sid]: value }]; a property whose value is a
    function is left out. *)
Definition entryText (u : UsageState) (sid : string) (value : SessionValue)
  : gmap string SessionText :=
  match value with
  | SessionObject su => {[ sid := TextSession su ]}
  | InheritedValue (InheritedFunction _) => ∅
  | InheritedValue InheritedPrototype =>
      {[ sid := TextPrototype (prototypeCallCount u) ]}
  | InheritedValue InheritedCallCount => {[ sid := TextNull ]}
  end.

Definition stringify (u : UsageState) (result : Result) : Rendered :=
  {| outGlobal := readGlobal u <$> resGlobal result;
     outPerSession :=
       match resPerSession result with
       | None => None
       | Some (PerSessionLive r) => Some (TextSession <$> readPerSession u r)
       | Some (PerSessionOnly sid value) => Some (entryText u sid value)
       end |}.

(** [snapshot.perSession[sid] ?? { operations: {} }], read when [result] is
    built. *)
Definition sessionOrEmpty (u : UsageState) (snapshot : StagehandUsageSnapshot)
    (sid : string) : SessionValue :=
  match readPerSession u (perSession snapshot) !! sid with
  | Some su => SessionObject su
  | None =>
      match inherited (prototypeCallCount u) sid with
      | Some member => InheritedValue member
      | None => SessionObject {| operations := ∅ |}
      end
  end.

(** The chain of [if]s that builds [result] from [snapshot]. *)
Definition buildResult (params : UsageInput) (u : UsageState) : Result :=
  let snapshot := getUsageSnapshot in
  let scope := default ScopeAll (scope params) in
  let sid := default "" (sessionId params) in
  match scope with
  | ScopeGlobal =>
      {| resGlobal := Some (global snapshot); resPerSession := None |}
  | ScopePerSession =>
      if truthy_opt (sessionId params) then
        {| resGlobal := None;
           resPerSession :=
             Some (PerSessionOnly sid (sessionOrEmpty u snapshot sid)) |}
      else
        {| resGlobal := None;
           resPerSession := Some (PerSessionLive (perSession snapshot)) |}
  | ScopeAll =>
      if truthy_opt (sessionId params) then
        {| resGlobal := Some (global snapshot);
           resPerSession :=
             Some (PerSessionOnly sid (sessionOrEmpty u snapshot sid)) |}
      else
        (* [result] is still [snapshot] itself *)
        {| resGlobal := Some (global snapshot);
           resPerSession := Some (PerSessionLive (perSession snapshot)) |}
  end.

(** The [action] of [handleUsage]: the state after it, and the text it
    returns.  [result] is built first, [resetUsage] runs next, and
    [JSON.stringify] reads [result] last, in the [return] statement. *)
Definition handleUsage (params : UsageInput) (u : UsageState)
  : UsageState * Rendered :=
  let result := buildResult params u in
  let u1 :=
    match reset params with
    | Some true => resetUsage u
    | _ => u
    end in
  (u1, stringify u1 result).

(** The filtered snapshot of state [u] written out while [u] is current:
    what the counters of [u] look like through the filter of [params]. *)
Definition viewOf (params : UsageInput) (u : UsageState) : Rendered :=
  stringify u (buildResult params u).

End UsageTool.

(* ===================================================================== *)
(** * The screenshot store ([unnamed/part_003]) *)
(* ===================================================================== *)

Module Resources.

(** The two module-level maps. *)
Record Store := mkStore {
  screenshots : gmap string string;
  sessionIdToScreenshotNames : gmap string (gset string);
}.

Definition emptyStore : Store :=
  {| screenshots := ∅; sessionIdToScreenshotNames := ∅ |}.

Definition registerScreenshot (sessionId name base64 : string) (st : Store)
  : Store :=
  let index1 :=
    match sessionIdToScreenshotNames st !! sessionId with
    | Some _ => sessionIdToScreenshotNames st
    | None => <[sessionId := ∅]> (sessionIdToScreenshotNames st)
    end in
  let set := default ∅ (index1 !! sessionId) in
  {| screenshots := <[name := base64]> (screenshots st);
     sessionIdToScreenshotNames := <[sessionId := set ∪ {[ name ]}]> index1 |}.

(** [for (const name of set) screenshots.delete(name)]. *)
Definition deleteNames (names : list string) (shots : gmap string string)
  : gmap string string :=
  foldl (fun acc name => delete name acc) shots names.

Definition clearScreenshotsForSession (sessionId : string) (st : Store)
  : Store :=
  match sessionIdToScreenshotNames st !! sessionId with
  | Some set =>
      {| screenshots := deleteNames (elements set) (screenshots st);
         sessionIdToScreenshotNames :=
           delete sessionId (sessionIdToScreenshotNames st) |}
  | None => st
  end.

Definition clearAllScreenshots (st : Store) : Store := emptyStore.

(** ** The retry wrapper *)

(** A value caught by [catch (err)]: an [Error] object or something else. *)
Inductive Thrown :=
| ThrownError (message : string)
| ThrownOther (text : string).

(** [err instanceof Error ? err : new Error(String(err))]. *)
Definition toError (err : Thrown) : Thrown :=
  match err with
  | ThrownError message => ThrownError message
  | ThrownOther text => ThrownError text
  end.

(** A JavaScript number: [NaN], one of the two infinities, or a finite
    value.  Every finite double is a rational number, so a finite value is
    kept as a rational; on the rationals that are doubles the operations
    below are those of the source.  (The two zeros are not told apart: they
    behave alike in a comparison, in a doubling and in [Math.min].) *)
Inductive Number :=
| NaN
| PlusInfinity
| MinusInfinity
| Finite (q : Q).

(** The largest finite double, [2^1024 - 2^971]. *)
Definition maxDouble : Q := inject_Z (2 ^ 1024 - 2 ^ 971).

(** [x * 2]: exact on a double, unless the result is out of range. *)
Definition times2 (x : Number) : Number :=
  match x with
  | NaN => NaN
  | PlusInfinity => PlusInfinity
  | MinusInfinity => MinusInfinity
  | Finite q =>
      if Qle_bool (q * 2) maxDouble then
        if Qle_bool (- maxDouble) (q * 2) then Finite (q * 2)
        else MinusInfinity
      else PlusInfinity
  end.

(** [Math.min(x, 1000)]. *)
Definition min1000 (x : Number) : Number :=
  match x with
  | NaN => NaN
  | PlusInfinity => Finite 1000
  | MinusInfinity => MinusInfinity
  | Finite q => if Qle_bool q 1000 then Finite q else Finite 1000
  end.

(** The counter [attempt] holds an integer.  In a double, adding one is
    exact below [2^53] and leaves [2^53] as it is. *)
Definition maxExact : Z := 2 ^ 53.

Definition plus1 (attempt : Z) : Z :=
  if (attempt <? maxExact)%Z then (attempt + 1)%Z else attempt.

(** [attempt >= retries]. *)
Definition atLeast (attempt : Z) (retries : Number) : bool :=
  match retries with
  | NaN => false
  | PlusInfinity => false
  | MinusInfinity => true
  | Finite q => Qle_bool q (inject_Z attempt)
  end.

Record Options := mkOptions {
  retries : option Number;
  initialDelayMs : option Number;
}.

Inductive Event :=
| EvAttempt (failure : option Thrown)
| EvSleep (ms : Number).

Inductive Completion :=
| Returns
| Throws (err : Thrown).

Record Run (S : Type) := mkRun {
  completion : Completion;
  final : S;
  trace : list Event;
}.
Arguments mkRun {S}.
Arguments completion {S}.
Arguments final {S}.
Arguments trace {S}.

Section Retry.
Context {S : Type}.

(** The body of the [try]: run for the [k]-th time (counting from 0) on
    store [s], it either completes or raises; both leave a store behind. *)
Variable tryClear : nat -> S -> S * option Thrown.

(** The [while (true)] loop.  [fuel] bounds the number of iterations that
    are followed: [None] says that the loop is still running after [fuel]
    of them.  [round] counts the iterations made so far; [attempt] and
    [delay] are the two variables of the source. *)
Fixpoint retryLoop (fuel : nat) (retries : Number) (round : nat)
    (attempt : Z) (delay : Number) (s : S) (events : list Event)
  : option (Run S) :=
  match fuel with
  | O => None
  | Datatypes.S fuel' =>
      match tryClear round s with
      | (s', None) =>
          Some (mkRun Returns s' (events ++ [EvAttempt None])%list)
      | (s', Some err) =>
          let events1 := (events ++ [EvAttempt (Some err)])%list in
          if atLeast attempt retries then
            (* Give up *)
            Some (mkRun (Throws (toError err)) s' events1)
          else
            retryLoop fuel' retries (Datatypes.S round) (plus1 attempt)
              (min1000 (times2 delay)) s' (events1 ++ [EvSleep delay])%list
      end
  end.

Definition retryWith (fuel : nat) (options : Options) (s : S)
  : option (Run S) :=
  let retries := default (Finite 3) (retries options) in
  let initialDelayMs := default (Finite 50) (initialDelayMs options) in
  retryLoop fuel retries 0 0 initialDelayMs s [].

(** *** The attempts one after the other

    What the wrapper is meant to do is said in terms of the attempts run in
    sequence, each on the store the one before left behind. *)

(** The store on which attempt [k] runs. *)
Fixpoint storeBefore (s : S) (k : nat) : S :=
  match k with
  | O => s
  | Datatypes.S k' => fst (tryClear k' (storeBefore s k'))
  end.

(** How attempt [k] ends: [None] when it completes. *)
Definition outcomeOf (s : S) (k : nat) : option Thrown :=
  snd (tryClear k (storeBefore s k)).

(** The value of [attempt] during attempt [k]. *)
Definition attemptAt (k : nat) : Z := Z.min (Z.of_nat k) maxExact.

(** Attempt [k] is one after which the wrapper stops: it completes, or it
    fails when [attempt >= retries]. *)
Definition stopsAt (retries : Number) (s : S) (k : nat) : bool :=
  match outcomeOf s k with
  | None => true
  | Some _ => atLeast (attemptAt k) retries
  end.

(** Attempt [n] is the first after which the wrapper stops. *)
Definition firstStop (retries : Number) (s : S) (n : nat) : Prop :=
  (forall k : nat, (k < n)%nat -> stopsAt retries s k = false)
  /\ stopsAt retries s n = true.
End Retry.

(** [retryClearScreenshotsForSession]: the [try] body is the call of
    [clearScreenshotsForSession], which has no failing path. *)
Definition retryClearScreenshotsForSession (fuel : nat) (sessionId : string)
    (options : Options) (st : Store) : option (Run Store) :=
  retryWith (fun _ s => (clearScreenshotsForSession sessionId s, None))
    fuel options st.

(** The delay slept after the [k]-th failure. *)
Fixpoint delayAfter (initialDelayMs : Number) (k : nat) : Number :=
  match k with
  | O => initialDelayMs
  | Datatypes.S k' => min1000 (times2 (delayAfter initialDelayMs k'))
  end.

Definition isAttempt (e : Event) : bool :=
  match e with
  | EvAttempt _ => true
  | EvSleep _ => false
  end.

(** How many times [clearScreenshotsForSession] was attempted. *)
Definition attemptsOf (events : list Event) : nat :=
  length (List.filter isAttempt events).

(** The arguments of the [setTimeout] calls, in order. *)
Definition sleepsOf (events : list Event) : list Number :=
  omap (fun e => match e with EvSleep ms => Some ms | _ => None end) events.

(** The events of the attempts [k], ..., [k + count - 1] when each of them
    is followed by a sleep: the sleep after attempt [k] is
    [delayAfter initialDelayMs k] milliseconds. *)
Fixpoint failedRounds {S : Type} (tryClear : nat -> S -> S * option Thrown)
    (initialDelayMs : Number) (s : S) (k count : nat) : list Event :=
  match count with
  | O => []
  | Datatypes.S count' =>
      EvAttempt (outcomeOf tryClear s k)
        :: EvSleep (delayAfter initialDelayMs k)
        :: failedRounds tryClear initialDelayMs s (Datatypes.S k) count'
  end.

(** The run in which attempt [n] is the last one. *)
Definition runEndingAt {S : Type} (tryClear : nat -> S -> S * option Thrown)
    (initialDelayMs : Number) (s : S) (n : nat) : Run S :=
  {| completion :=
       match outcomeOf tryClear s n with
       | None => Returns
       | Some err => Throws (toError err)
       end;
     final := storeBefore tryClear s (Datatypes.S n);
     trace :=
       (failedRounds tryClear initialDelayMs s 0 n
          ++ [EvAttempt (outcomeOf tryClear s n)])%list |}.

(** A number that is not above 1000 ([NaN] is not). *)
Definition atMost1000 (x : Number) : Prop :=
  match x with
  | NaN => False
  | PlusInfinity => False
  | MinusInfinity => True
  | Finite q => (q <= 1000)%Q
  end.

(** Two numbers with the same value. *)
Definition sameNumber (x y : Number) : Prop :=
  match x, y with
  | NaN, NaN => True
  | PlusInfinity, PlusInfinity => True
  | MinusInfinity, MinusInfinity => True
  | Finite p, Finite q => (p == q)%Q
  | _, _ => False
  end.

(** A [try] body that fails as [fails] says, leaving the store alone, and
    otherwise runs [clearScreenshotsForSession]. *)
Definition flakyClear (fails : nat -> option Thrown) (sessionId : string)
    (attempt : nat) (st : Store) : Store * option Thrown :=
  match fails attempt with
  | Some err => (st, Some err)
  | None => (clearScreenshotsForSession sessionId st, None)
  end.

(** A [try] body that fails every time. *)
Definition alwaysFails (attempt : nat) (s : unit) : unit * option Thrown :=
  (s, Some (ThrownError "boom")).

(** A [try] body that leaves the store alone and fails as the schedule
    [fails] says: attempt [k] raises [err] when [fails k = Some err]. *)
Definition scheduled {S : Type} (fails : nat -> option Thrown) (attempt : nat)
    (s : S) : S * option Thrown :=
  (s, fails attempt).

(** A schedule whose first two attempts fail. *)
Definition failsTwice (attempt : nat) : option Thrown :=
  if (attempt <? 2)%nat then Some (ThrownOther "busy") else None.

(** The number of failed attempts after which the wrapper gives up, for a
    finite [retries]: the least integer [k >= 0] with [k >= retries]. *)
Definition giveUpAfter (retries : Q) : Z := Z.max (Qceiling retries) 0.


(** No other session has [name] on file. *)
Definition nameFreeFor (st : Store) (sessionId name : string) : Prop :=
  forall (s' : string) (set : gset string),
    sessionIdToScreenshotNames st !! s' = Some set ->
    name ∈ set -> s' = sessionId.

(** Two screenshots of session [s1] and one of session [s2]. *)
Definition sampleStore : Store :=
  registerScreenshot "s1" "b.png" "QkJC"
    (registerScreenshot "s2" "c.png" "Q0ND"
       (registerScreenshot "s1" "a.png" "QUFB" emptyStore)).

(** Every name is filed under at most one session id. *)
Definition singleOwner (st : Store) : Prop :=
  forall (s1 s2 : string) (set1 set2 : gset string) (name : string),
    sessionIdToScreenshotNames st !! s1 = Some set1 ->
    sessionIdToScreenshotNames st !! s2 = Some set2 ->
    name ∈ set1 -> name ∈ set2 -> s1 = s2.

(** [name] is filed under [sessionId]. *)
Definition registeredUnder (st : Store) (sessionId name : string) : Prop :=
  exists set : gset string,
    sessionIdToScreenshotNames st !! sessionId = Some set /\ name ∈ set.

(** ** Listing and reading resources *)

Record ListedResource := mkListed {
  uri : string;
  mimeType : string;
  name : string;
}.

(** [listResources]: one entry per key of [screenshots].  The order of the
    entries (insertion order in the source) is not modelled; only which
    entries there are. *)
Definition listResources (st : Store) : list ListedResource :=
  (fun name =>
     {| uri := "screenshot://" ++ name; mimeType := "image/png";
        name := "Screenshot: " ++ name |})
    <$> (map_to_list (screenshots st)).*1.

Definition listResourceTemplates : list ListedResource := [].

(** [s.split(separator)] for a non-empty separator: the pieces between the
    occurrences of the separator, found from left to right.  [skip] counts
    the characters of a separator that was just found and is still to be
    passed over; [piece] is the piece read so far. *)
Fixpoint splitFrom (separator : string) (skip : nat) (piece s : string)
  : list string :=
  match s with
  | EmptyString => [piece]
  | String c rest =>
      match skip with
      | Datatypes.S n => splitFrom separator n piece rest
      | O =>
          if String.prefix separator s then
            piece
              :: splitFrom separator (String.length separator - 1) "" rest
          else splitFrom separator 0 (piece ++ String c "") rest
      end
  end.

Definition split (separator s : string) : list string :=
  splitFrom separator 0 "" s.

(** Whether [separator] occurs in [s]. *)
Fixpoint occursIn (separator s : string) : bool :=
  match s with
  | EmptyString => String.prefix separator ""
  | String c rest => String.prefix separator s || occursIn separator rest
  end.

Record ResourceContents := mkContents {
  contentUri : string;
  contentMimeType : string;
  blob : string;
}.

(** [readResource] returns [{ contents: [...] }] or throws an [Error]. *)
Inductive ReadOutcome :=
| Contents (contents : list ResourceContents)
| NotFound (message : string).

Definition readResource (uri : string) (st : Store) : ReadOutcome :=
  let notFound := NotFound ("Resource not found: " ++ uri) in
  if String.prefix "screenshot://" uri then
    (* const name = uri.split("://")[1] *)
    match split "://" uri !! 1 with
    | Some name =>
        match screenshots st !! name with
        | Some screenshot =>
            if truthy screenshot then
              Contents [ {| contentUri := uri;
                            contentMimeType := "image/png";
                            blob := screenshot |} ]
            else notFound
        | None => notFound
        end
    | None => notFound
    end
  else notFound.

(** ** Sequences of calls on the store *)

Inductive StoreCall :=
| CallRegister (sessionId name base64 : string)
| CallClear (sessionId : string)
| CallClearAll.

Definition runCall (call : StoreCall) (st : Store) : Store :=
  match call with
  | CallRegister sessionId name base64 =>
      registerScreenshot sessionId name base64 st
  | CallClear sessionId => clearScreenshotsForSession sessionId st
  | CallClearAll => clearAllScreenshots st
  end.

Definition runCalls (calls : list StoreCall) (st : Store) : Store :=
  foldl (fun acc call => runCall call acc) st calls.

(** Every stored screenshot is on file under some session. *)
Definition allOwned (st : Store) : Prop :=
  forall name : string,
    is_Some (screenshots st !! name) ->
    exists sessionId : string, registeredUnder st sessionId name.

(** Every name on file is a stored screenshot. *)
Definition allStored (st : Store) : Prop :=
  forall sessionId name : string,
    registeredUnder st sessionId name -> is_Some (screenshots st !! name).

(** No session has an empty set on file. *)
Definition noEmptySets (st : Store) : Prop :=
  forall (sessionId : string) (set : gset string),
    sessionIdToScreenshotNames st !! sessionId = Some set -> set ≠ ∅.

(** Stores built by calls in which a screenshot is only registered under a
    name that no other session has on file. *)
Inductive builtWithOwnNames : Store -> Prop :=
| built_empty : builtWithOwnNames emptyStore
| built_register sessionId name base64 st :
    builtWithOwnNames st -> nameFreeFor st sessionId name ->
    builtWithOwnNames (registerScreenshot sessionId name base64 st)
| built_clear sessionId st :
    builtWithOwnNames st ->
    builtWithOwnNames (clearScreenshotsForSession sessionId st)
| built_clearAll st :
    builtWithOwnNames st -> builtWithOwnNames (clearAllScreenshots st).

(** Whether a name is on file under a session id can be decided. *)
#[export] Instance registeredUnder_dec (st : Store) (sid name' : string) :
  Decision (registeredUnder st sid name').
Proof.
  unfold registeredUnder.
  destruct (sessionIdToScreenshotNames st !! sid) as [set|].
  - destruct (decide (name' ∈ set)) as [Hin|Hout].
    + left. by exists set.
    + right. by intros (set' & [= <-] & Hin).
  - right. by intros (set' & Hset & _).
Defined.

End Resources.

(* ===================================================================== *)
(** * The session tools ([src/tools/session.ts]) *)
(* ===================================================================== *)

Module SessionTool.

(** How an awaited call ends: with a value, or by raising; a raised value is
    kept as [error instanceof Error ? error.message : String(error)]. *)
Inductive Outcome (A : Type) :=
| Returned (value : A)
| Raised (message : string).
Arguments Returned {A}.
Arguments Raised {A}.

(** ** The replay payload

    The interfaces of the source describe the payload the endpoint is
    expected to send.  What arrives is whatever [response.json()] yields:
    any JSON value.  An object is kept as the list of its members in the
    order of the text; numbers are doubles. *)

#[warnings="-register-all"] Inductive Json :=
| JNull
| JBool (b : bool)
| JNumber (x : float)
| JString (s : string)
| JArray (items : list Json)
| JObject (members : list (string * Json)).

(** The own property [name] of a parsed object; of two members with the
    same name the later one counts. *)
Fixpoint getMember (name : string) (members : list (string * Json))
  : option Json :=
  match members with
  | [] => None
  | (key, value) :: rest =>
      match getMember name rest with
      | Some later => Some later
      | None => if String.eqb key name then Some value else None
      end
  end.

(** Why the [try] block of the fetcher was left. *)
Inductive Failure :=
| NotJson (message : string)
    (* [response.json()] rejected *)
| PropertyOfNullish (name : string)
    (* a [TypeError]: property [name] read of [null] or [undefined] *)
| NotIterable
    (* a [TypeError]: [for ... of] over a value that is not iterable *)
| NotPrimitive.
    (* a [TypeError]: an object that cannot be converted to a primitive
       value *)

(** The result of a step inside the [try] block. *)
Inductive Try (A : Type) :=
| Ok (value : A)
| Failed (cause : Failure).
Arguments Ok {A}.
Arguments Failed {A}.

Definition andThen {A B : Type} (step : Try A) (next : A -> Try B) : Try B :=
  match step with
  | Ok value => next value
  | Failed cause => Failed cause
  end.

(** [value.name], where [None] stands for [undefined].  The names read by
    the fetcher ([data], [pages], [actions], [tokenUsage], [inputTokens],
    [outputTokens], [timeMs]) are not properties of any prototype, so the
    read of one of them on a primitive value or on an array gives
    [undefined], and on an object its own property. *)
Definition getProperty (value : option Json) (name : string)
  : Try (option Json) :=
  match value with
  | None => Failed (PropertyOfNullish name)
  | Some JNull => Failed (PropertyOfNullish name)
  | Some (JObject members) => Ok (getMember name members)
  | Some _ => Ok None
  end.

(** The one-character strings of a string. *)
Fixpoint characters (s : string) : list Json :=
  match s with
  | EmptyString => []
  | String c rest => JString (String c EmptyString) :: characters rest
  end.

(** The values [for (const x of value)] goes through: the items of an
    array, or the characters of a string (what matters below is that each
    of them is a string and that there is none for the empty string);
    nothing else that JSON can hold is iterable. *)
Definition iterate (value : option Json) : Try (list Json) :=
  match value with
  | Some (JArray items) => Ok items
  | Some (JString s) => Ok (characters s)
  | _ => Failed NotIterable
  end.

(** Truthiness of a JSON value. *)
Definition truthyJson (value : Json) : bool :=
  match value with
  | JNull => false
  | JBool b => b
  | JNumber x => negb (PrimFloat.eqb x 0) && PrimFloat.eqb x x
  | JString s => truthy s
  | JArray _ => true
  | JObject _ => true
  end.

(** Whether the conversion of a value to a string (or to a primitive
    value) goes through.  An object with an own member [toString] has no
    callable [toString] and cannot be converted; an array is converted by
    joining the conversions of its items. *)
Fixpoint convertible (value : Json) : bool :=
  match value with
  | JArray items => forallb convertible items
  | JObject members =>
      match getMember "toString" members with
      | Some _ => false
      | None => true
      end
  | _ => true
  end.

(** A piece of a string built by [+]: the conversion to a string of a
    number, of [undefined], or of a JSON value.  The characters of the
    conversion are not spelled out. *)
Inductive Piece :=
| PieceNumber (x : float)
| PieceUndefined
| PieceJson (value : Json).

(** The value of a total: a number, or, once something that is not a
    number, a boolean, [null] or [undefined] was added, a string, kept as
    the pieces it was concatenated from. *)
Inductive Total :=
| TotalNumber (x : float)
| TotalText (pieces : list Piece).

(** [total + x], where [None] stands for [undefined]. *)
Definition plus (total : Total) (x : option Json) : Try Total :=
  match total, x with
  | TotalNumber a, None => Ok (TotalNumber (PrimFloat.add a PrimFloat.nan))
  | TotalNumber a, Some JNull => Ok (TotalNumber (PrimFloat.add a 0))
  | TotalNumber a, Some (JBool b) =>
      Ok (TotalNumber (PrimFloat.add a (if b then 1 else 0)))
  | TotalNumber a, Some (JNumber y) => Ok (TotalNumber (PrimFloat.add a y))
  | TotalNumber a, Some value =>
      if convertible value
      then Ok (TotalText [PieceNumber a; PieceJson value])
      else Failed NotPrimitive
  | TotalText pieces, None => Ok (TotalText (pieces ++ [PieceUndefined]))
  | TotalText pieces, Some value =>
      if convertible value
      then Ok (TotalText (pieces ++ [PieceJson value]))
      else Failed NotPrimitive
  end.

Record StagehandReplayTokenUsageTotals := mkTotals {
  totalInputTokens : Total;
  totalOutputTokens : Total;
  totalTimeMs : float;
}.

(** What [await replayResponse.json()] gives. *)
Inductive ReplayBody :=
| BodyNotJson (message : string)
| BodyJson (replayJson : Json).

(** What [await fetch(...)] gives. *)
Inductive FetchResult :=
| FetchRejected (message : string)
| FetchResolved (body : ReplayBody).

Record Config := mkConfig {
  browserbaseApiKey : option string;
  browserbaseProjectId : option string;
  modelApiKey : option string;
}.

Record ProcessEnv := mkEnv {
  GEMINI_API_KEY : option string;
  GOOGLE_API_KEY : option string;
}.

(** [a || b] on possibly undefined strings. *)
Definition or_opt (a b : option string) : option string :=
  if truthy_opt a then a else b.

(** Lines written to [process.stderr] and [process.stdout].  The line about
    a failed parse is kept with the cause in place of the text of the
    error. *)
Inductive LogLine :=
| SkippingReplay
| ParseFailed (cause : Failure)
| TotalTokenUsage (input output : Total)
| NoSessionFound (shownId : string)
| CleanupError (shownId message : string)
| ContextReset (shownId : string).

(** The body of [for (const action of page.actions)]. *)
Definition addAction (totals : StagehandReplayTokenUsageTotals)
    (action : Json) : Try StagehandReplayTokenUsageTotals :=
  andThen (getProperty (Some action) "tokenUsage") (fun tokenUsage =>
  match tokenUsage with
  | None => Ok totals
  | Some usage =>
      if truthyJson usage then
        andThen (getProperty (Some usage) "inputTokens") (fun inputTokens =>
        andThen (plus (totalInputTokens totals) inputTokens) (fun input =>
        andThen (getProperty (Some usage) "outputTokens") (fun outputTokens =>
        andThen (plus (totalOutputTokens totals) outputTokens) (fun output =>
        andThen (getProperty (Some usage) "timeMs") (fun timeMs =>
        Ok {| totalInputTokens := input;
              totalOutputTokens := output;
              totalTimeMs :=
                match timeMs with
                | Some (JNumber ms) => PrimFloat.add (totalTimeMs totals) ms
                | _ => totalTimeMs totals
                end |})))))
      else Ok totals
  end).

(** [for (const action of ...)] over the values the iteration yields. *)
Fixpoint addActions (actions : list Json)
    (totals : StagehandReplayTokenUsageTotals)
  : Try StagehandReplayTokenUsageTotals :=
  match actions with
  | [] => Ok totals
  | action :: rest =>
      andThen (addAction totals action) (fun totals1 =>
      addActions rest totals1)
  end.

(** [for (const page of ...)] with the inner loop. *)
Fixpoint addPages (pages : list Json)
    (totals : StagehandReplayTokenUsageTotals)
  : Try StagehandReplayTokenUsageTotals :=
  match pages with
  | [] => Ok totals
  | page :: rest =>
      andThen (getProperty (Some page) "actions") (fun actions =>
      andThen (iterate actions) (fun items =>
      andThen (addActions items totals) (fun totals1 =>
      addPages rest totals1)))
  end.

Definition zeroTotals : StagehandReplayTokenUsageTotals :=
  {| totalInputTokens := TotalNumber 0; totalOutputTokens := TotalNumber 0;
     totalTimeMs := 0 |}.

(** The body of the [try] block once the response is there. *)
Definition aggregate (body : ReplayBody)
  : Try StagehandReplayTokenUsageTotals :=
  match body with
  | BodyNotJson message => Failed (NotJson message)
  | BodyJson replayJson =>
      andThen (getProperty (Some replayJson) "data") (fun data =>
      andThen (getProperty data "pages") (fun pages =>
      andThen (iterate pages) (fun items =>
      addPages items zeroTotals)))
  end.

(** [network] answers the GET request for a Browserbase session id. *)
Definition fetchStagehandTokenUsageSummary (config : Config)
    (env : ProcessEnv) (network : string -> FetchResult)
    (browserbaseSessionId : string)
  : list LogLine * Outcome (option StagehandReplayTokenUsageTotals) :=
  let apiKey := browserbaseApiKey config in
  let projectId := browserbaseProjectId config in
  let modelApiKey :=
    or_opt (or_opt (modelApiKey config) (GEMINI_API_KEY env))
      (GOOGLE_API_KEY env) in
  if negb (truthy_opt apiKey) || negb (truthy_opt projectId)
     || negb (truthy_opt modelApiKey) then
    ([SkippingReplay], Returned None)
  else
    (* the [fetch] call stands before the [try] block *)
    match network browserbaseSessionId with
    | FetchRejected message => ([], Raised message)
    | FetchResolved body =>
        match aggregate body with
        | Ok totals => ([], Returned (Some totals))
        | Failed cause => ([ParseFailed cause], Returned None)
        end
    end.

(** ** Closing a session *)

Record BrowserSession := mkSession {
  sessionId : string;
  stagehand : bool;  (* whether [session.stagehand] is truthy *)
}.

(** The session manager is used through three calls. *)
Record SessionManager := mkManager {
  getSession : string -> Outcome (option BrowserSession);
  cleanupSession : string -> Outcome unit;
  getDefaultSessionId : string;
}.

Record Context := mkContext {
  currentSessionId : string;
  config : Config;
  getSessionManager : SessionManager;
}.

Record TextContent := mkText {
  type : string;
  text : string;
}.

Record ToolActionResult := mkActionResult {
  content : list TextContent;
}.

(** The local variables the [try]/[catch] statement leaves behind. *)
Record Locals := mkLocals {
  cleanupSuccessful : bool;
  cleanupErrorMessage : string;
  browserbaseSessionId : option string;
  written : list LogLine;
}.

(** Step 1 of the action: the [try] block with its [catch]. *)
Definition tryCleanup (context : Context) (env : ProcessEnv)
    (network : string -> FetchResult) : Locals :=
  let previousSessionId := currentSessionId context in
  let sessionManager := getSessionManager context in
  let shown := or_else previousSessionId "default/unknown" in
  match getSession sessionManager previousSessionId with
  | Raised message =>
      mkLocals false message None [CleanupError shown message]
  | Returned None =>
      mkLocals false "" None [NoSessionFound shown]
  | Returned (Some session) =>
      if stagehand session then
        let bbId := sessionId session in
        match cleanupSession sessionManager previousSessionId with
        | Raised message =>
            mkLocals false message (Some bbId) [CleanupError shown message]
        | Returned _ =>
            if truthy bbId then
              match fetchStagehandTokenUsageSummary (config context) env
                      network bbId with
              | (lines, Raised message) =>
                  mkLocals true message (Some bbId)
                    (lines ++ [CleanupError shown message])
              | (lines, Returned (Some totals)) =>
                  mkLocals true "" (Some bbId)
                    (lines ++ [TotalTokenUsage (totalInputTokens totals)
                                 (totalOutputTokens totals)])
              | (lines, Returned None) =>
                  mkLocals true "" (Some bbId) lines
              end
            else mkLocals true "" (Some bbId) []
        end
      else mkLocals false "" None [NoSessionFound shown]
  end.

Definition failureMessage (previousSessionId message : string) : string :=
  "Failed to cleanup session (session ID was "
  ++ or_else previousSessionId "default/unknown" ++ "). Error: " ++ message
  ++ ". Session context has been reset to default.".

Definition successMessage (previousSessionId defaultSessionId : string)
    (bbId : option string) : string :=
  let base :=
    "Browserbase session (" ++ or_else previousSessionId "default"
    ++ ") closed successfully. Context reset to default." in
  if truthy_opt bbId && negb (String.eqb previousSessionId defaultSessionId)
  then base ++ " View replay at https://www.browserbase.com/sessions/"
            ++ default "" bbId
  else base.

Definition infoMessage (previousSessionId defaultSessionId : string)
  : string :=
  if truthy previousSessionId
     && negb (String.eqb previousSessionId defaultSessionId)
  then "No active session found for session ID '" ++ previousSessionId
       ++ "'. The context has been reset to default."
  else "No active session found to close. Session context has been reset to default.".

Definition textResult (message : string) : ToolActionResult :=
  {| content := [ {| type := "text"; text := message |} ] |}.

(** The [action] of [handleCloseSession]: what it wrote, and how it ended. *)
Definition handleCloseSession (context : Context) (env : ProcessEnv)
    (network : string -> FetchResult)
  : list LogLine * Outcome ToolActionResult :=
  (* Store the current session ID before cleanup *)
  let previousSessionId := currentSessionId context in
  (* Step 1 *)
  let locals := tryCleanup context env network in
  (* Step 2 *)
  let lines :=
    (written locals
       ++ [ContextReset (or_else previousSessionId "default/unknown")])%list in
  (* Step 3: Determine the result message *)
  let defaultSessionId := getDefaultSessionId (getSessionManager context) in
  if truthy (cleanupErrorMessage locals) && negb (cleanupSuccessful locals)
  then
    (lines,
     Raised (failureMessage previousSessionId (cleanupErrorMessage locals)))
  else if cleanupSuccessful locals then
    (lines,
     Returned (textResult (successMessage previousSessionId defaultSessionId
                             (browserbaseSessionId locals))))
  else
    (* No session was found *)
    (lines,
     Returned (textResult (infoMessage previousSessionId defaultSessionId))).

(** ** The sums the totals are meant to be

    A payload as the interfaces of the source describe it, read off a JSON
    value: [typedReplay] gives the token-usage records of the actions, in
    the order of the payload, when the value has that shape. *)

Record UsageRecord := mkRecord {
  inputTokens : float;
  outputTokens : float;
  timeMs : option float;  (* [Some] when [timeMs] is a number *)
}.

(** A [tokenUsage] object: [inputTokens] and [outputTokens] are numbers. *)
Definition typedUsage (usage : Json) : option UsageRecord :=
  match usage with
  | JObject members =>
      match getMember "inputTokens" members,
            getMember "outputTokens" members with
      | Some (JNumber input), Some (JNumber output) =>
          Some {| inputTokens := input; outputTokens := output;
                  timeMs :=
                    match getMember "timeMs" members with
                    | Some (JNumber ms) => Some ms
                    | _ => None
                    end |}
      | _, _ => None
      end
  | _ => None
  end.

(** An action: an object whose [tokenUsage], when it has one, is a
    [tokenUsage] object ([null] counts as none). *)
Definition typedAction (action : Json) : option (option UsageRecord) :=
  match action with
  | JObject members =>
      match getMember "tokenUsage" members with
      | None => Some None
      | Some JNull => Some None
      | Some usage => Some <$> typedUsage usage
      end
  | _ => None
  end.

(** All of [items] read by [read], or [None] when one of them does not
    fit. *)
Fixpoint readAll {A : Type} (read : Json -> option A) (items : list Json)
  : option (list A) :=
  match items with
  | [] => Some []
  | item :: rest =>
      match read item, readAll read rest with
      | Some a, Some others => Some (a :: others)
      | _, _ => None
      end
  end.

(** A page: an object with an array [actions] of actions. *)
Definition typedPage (page : Json) : option (list UsageRecord) :=
  match page with
  | JObject members =>
      match getMember "actions" members with
      | Some (JArray actions) =>
          match readAll typedAction actions with
          | Some found => Some (omap (fun usage => usage) found)
          | None => None
          end
      | _ => None
      end
  | _ => None
  end.

(** A replay response: an object with an object [data] with an array
    [pages] of pages. *)
Definition typedReplay (replayJson : Json) : option (list UsageRecord) :=
  match replayJson with
  | JObject members =>
      match getMember "data" members with
      | Some (JObject dataMembers) =>
          match getMember "pages" dataMembers with
          | Some (JArray pages) =>
              match readAll typedPage pages with
              | Some found => Some (concat found)
              | None => None
              end
          | _ => None
          end
      | _ => None
      end
  | _ => None
  end.

(** The sum of a list of doubles, added up from [0] in the order of the
    list. *)
Definition sumOf (xs : list float) : float := foldl PrimFloat.add 0%float xs.

(** Totals that are numbers. *)
Definition numericTotals (input output time : float)
  : StagehandReplayTokenUsageTotals :=
  {| totalInputTokens := TotalNumber input;
     totalOutputTokens := TotalNumber output;
     totalTimeMs := time |}.

(** The totals with the records of [records] added, in order. *)
Definition addRecords (input output time : float) (records : list UsageRecord)
  : StagehandReplayTokenUsageTotals :=
  numericTotals (foldl PrimFloat.add input (inputTokens <$> records))
    (foldl PrimFloat.add output (outputTokens <$> records))
    (foldl PrimFloat.add time (omap timeMs records)).

Definition keysPresent (config : Config) (env : ProcessEnv) : bool :=
  truthy_opt (browserbaseApiKey config)
  && truthy_opt (browserbaseProjectId config)
  && truthy_opt
       (or_opt (or_opt (modelApiKey config) (GEMINI_API_KEY env))
          (GOOGLE_API_KEY env)).

(** ** Sample worlds *)

Definition sampleConfig : Config :=
  {| browserbaseApiKey := Some "bb_key";
     browserbaseProjectId := Some "project";
     modelApiKey := Some "model_key" |}.

Definition noEnv : ProcessEnv :=
  {| GEMINI_API_KEY := None; GOOGLE_API_KEY := None |}.

Definition liveSession : BrowserSession :=
  {| sessionId := "bb-123"; stagehand := true |}.

(** A manager that finds the session and closes it. *)
Definition closingManager : SessionManager :=
  {| getSession := fun _ => Returned (Some liveSession);
     cleanupSession := fun _ => Returned tt;
     getDefaultSessionId := "default" |}.

(** A manager that finds the session and fails to close it. *)
Definition failingManager : SessionManager :=
  {| getSession := fun _ => Returned (Some liveSession);
     cleanupSession := fun _ => Raised "close failed";
     getDefaultSessionId := "default" |}.

Definition closingContext : Context :=
  {| currentSessionId := "s1"; config := sampleConfig;
     getSessionManager := closingManager |}.

Definition failingContext : Context :=
  {| currentSessionId := "s1"; config := sampleConfig;
     getSessionManager := failingManager |}.

(** A network on which every request is rejected. *)
Definition offline (browserbaseSessionId : string) : FetchResult :=
  FetchRejected "fetch failed".

(** [{ "data": { "pages": pages } }]. *)
Definition replayOf (pages : list Json) : Json :=
  JObject [("success", JBool true);
           ("data", JObject [("pages", JArray pages)])].

(** [{ "method": "act", "tokenUsage": usage }]. *)
Definition actionWith (usage : list (string * Json)) : Json :=
  JObject [("method", JString "act"); ("tokenUsage", JObject usage)].

(** A replay of two pages: two actions with token usage (one of them
    timed), one action without. *)
Definition sampleReplay : Json :=
  replayOf
    [ JObject
        [("url", JString "https://example.com");
         ("actions",
          JArray
            [ actionWith [("inputTokens", JNumber 100);
                          ("outputTokens", JNumber 20);
                          ("timeMs", JNumber 700)];
              JObject [("method", JString "goto")] ])];
      JObject
        [("url", JString "https://example.com/next");
         ("actions",
          JArray
            [ actionWith [("inputTokens", JNumber 30);
                          ("outputTokens", JNumber 5)] ])] ].

Definition online (browserbaseSessionId : string) : FetchResult :=
  FetchResolved (BodyJson sampleReplay).

(** A network that answers with [replayJson]. *)
Definition answering (replayJson : Json) (browserbaseSessionId : string)
  : FetchResult :=
  FetchResolved (BodyJson replayJson).

End SessionTool.

(* ===================================================================== *)
(** * Creating a session ([handleCreateSession], [src/tools/session.ts]) *)
(* ===================================================================== *)

Module SessionCreate.
Import SessionTool.

Record CreateSessionInput := mkCreateInput {
  sessionId : option string;
}.

(** What the tool reads of a Stagehand instance. *)
Record Stagehand := mkStagehand {
  browserbaseSessionId : option string;
}.

(** The session object a manager hands out; [page] says whether
    [session.page] is truthy, [stagehand] is [None] when the property is
    missing. *)
Record BrowserSession := mkSession {
  page : bool;
  actualSessionId : string;
  stagehand : option Stagehand;
}.

(** The calls the tool makes on the session manager.
    [createNewBrowserSession] takes the internal id and the Browserbase
    session id to resume. *)
Record SessionManager := mkManager {
  getDefaultSessionId : string;
  ensureDefaultSessionInternal : Outcome (option BrowserSession);
  createNewBrowserSession : string -> string -> Outcome (option BrowserSession);
}.

Inductive ContentItem :=
| TextItem (text : string)
| UIResource (uri iframeUrl : string).

(** The body of the [try] block.  [client] is [new Browserbase({ apiKey })]:
    it raises, or gives the [bb.sessions.debug] call, which in turn gives
    the [debuggerFullscreenUrl] or raises. *)
Definition createSession (sessionManager : SessionManager)
    (client : Outcome (string -> Outcome string))
    (params : CreateSessionInput) : Outcome (list ContentItem) :=
  let defaultSessionId := getDefaultSessionId sessionManager in
  let targetSessionId :=
    if truthy_opt (sessionId params) then default "" (sessionId params)
    else defaultSessionId in
  let found :=
    if String.eqb targetSessionId defaultSessionId then
      ensureDefaultSessionInternal sessionManager
    else
      createNewBrowserSession sessionManager targetSessionId
        (default "" (sessionId params)) in
  let invalid :=
    Raised ("SessionManager failed to return a valid session object with actualSessionId for ID: "
            ++ targetSessionId) in
  match found with
  | Raised message => Raised message
  | Returned None => invalid
  | Returned (Some session) =>
      match stagehand session with
      | None => invalid
      | Some sh =>
          if negb (page session) || negb (truthy (actualSessionId session))
          then invalid
          else
            match client with
            | Raised message => Raised message
            | Returned debug =>
                if truthy_opt (browserbaseSessionId sh) then
                  let bbId := default "" (browserbaseSessionId sh) in
                  match debug bbId with
                  | Raised message => Raised message
                  | Returned debugUrl =>
                      Returned
                        [ TextItem
                            ("Browserbase Live Session View URL: https://www.browserbase.com/sessions/"
                             ++ bbId);
                          TextItem
                            ("Browserbase Live Debugger URL: " ++ debugUrl);
                          UIResource "ui://analytics-dashboard/main" debugUrl ]
                  end
                else
                  Raised "Browserbase session ID not found in Stagehand instance"
            end
      end
  end.

(** The [action] of [handleCreateSession]: the [catch] logs the error and
    throws a new one. *)
Definition handleCreateSession (sessionManager : SessionManager)
    (client : Outcome (string -> Outcome string))
    (params : CreateSessionInput) : Outcome (list ContentItem) :=
  match createSession sessionManager client params with
  | Returned content => Returned content
  | Raised errorMessage =>
      Raised ("Failed to create Browserbase session: " ++ errorMessage)
  end.

(** A manager whose default session is live and that cannot resume. *)
Definition defaultOnlyManager : SessionManager :=
  {| getDefaultSessionId := "browserbase_session_main";
     ensureDefaultSessionInternal :=
       Returned (Some {| page := true; actualSessionId := "bb-1";
                         stagehand :=
                           Some {| browserbaseSessionId := Some "bb-1" |} |});
     createNewBrowserSession := fun _ _ => Raised "cannot resume" |}.

(** A client whose debug call answers with a url made from the id. *)
Definition debugClient : Outcome (string -> Outcome string) :=
  Returned (fun bbId => Returned ("https://debug.example/" ++ bbId)).

(** The manager [sessionManager] with another [createNewBrowserSession]. *)
Definition withResume (sessionManager : SessionManager)
    (resume : string -> string -> Outcome (option BrowserSession))
  : SessionManager :=
  {| getDefaultSessionId := getDefaultSessionId sessionManager;
     ensureDefaultSessionInternal :=
       ensureDefaultSessionInternal sessionManager;
     createNewBrowserSession := resume |}.

(** The manager [sessionManager] with another default session. *)
Definition withDefault (sessionManager : SessionManager)
    (ensure : Outcome (option BrowserSession)) : SessionManager :=
  {| getDefaultSessionId := getDefaultSessionId sessionManager;
     ensureDefaultSessionInternal := ensure;
     createNewBrowserSession := createNewBrowserSession sessionManager |}.

End SessionCreate.

(* ===================================================================== *)
(** * Command-line configuration ([parseArgs], file [unnamed/part_002]) *)
(* ===================================================================== *)

Module ConfigArgs.

(** [args.indexOf(x)]: the first position of [x], or [-1]. *)
Fixpoint indexOfFrom (x : string) (args : list string) (i : Z) : Z :=
  match args with
  | [] => (-1)%Z
  | arg :: rest =>
      if String.eqb arg x then i else indexOfFrom x rest (i + 1)%Z
  end.

Definition indexOf (x : string) (args : list string) : Z :=
  indexOfFrom x args 0.

(** [args[i]]: [None] for [undefined]. *)
Definition at_ (args : list string) (i : Z) : option string :=
  if (i <? 0)%Z then None else args !! Z.to_nat i.

(** Lower-casing of the letters [A-Z].  For the only use made of it, the
    comparison with ["true"] and ["1"], this agrees with [toLowerCase]: no
    other character has one of the letters of ["true"] as its lower
    case. *)
Definition lowerChar (c : Ascii.ascii) : Ascii.ascii :=
  let n := Ascii.nat_of_ascii c in
  if (65 <=? n)%nat && (n <=? 90)%nat then Ascii.ascii_of_nat (n + 32)
  else c.

Fixpoint toLowerCase (s : string) : string :=
  match s with
  | EmptyString => EmptyString
  | String c rest => String (lowerChar c) (toLowerCase rest)
  end.

(** [parseArgs] on [process.argv.slice(2)]: the [proxies] field of the
    configuration it returns. *)
Definition parseArgs (args : list string) : bool :=
  let proxiesIndex := indexOf "--proxies" args in
  if (proxiesIndex =? -1)%Z then false
  else
    match at_ args (proxiesIndex + 1) with
    | None => true
    | Some nextArg =>
        if negb (truthy nextArg) || String.prefix "--" nextArg then true
        else
          let value := toLowerCase nextArg in
          String.eqb value "true" || String.eqb value "1"
    end.

(** The line [parseArgs] writes to [console.error]. *)
Definition parseArgsLog (args : list string) : string :=
  "Config initialized with proxies: "
  ++ (if parseArgs args then "true" else "false").

(** What the argument after the flag turns the flag into. *)
Definition flagValue (rest : list string) : bool :=
  match rest with
  | [] => true
  | nextArg :: _ =>
      if negb (truthy nextArg) || String.prefix "--" nextArg then true
      else String.eqb (toLowerCase nextArg) "true"
           || String.eqb (toLowerCase nextArg) "1"
  end.

End ConfigArgs.

(* ===================================================================== *)
(** * Resolving the configuration ([resolveConfig], file [unnamed/part_002]) *)
(* ===================================================================== *)

Module ConfigMerge.

(** The values a [Config] object holds at its top level.  The [server]
    object is kept with its two properties, [None] standing for
    [undefined]. *)
Inductive Value :=
| VUndefined
| VBool (b : bool)
| VString (s : string)
| VServer (port : option Z) (host : option string).

#[export] Instance Value_eq_dec : EqDecision Value.
Proof. solve_decision. Defined.

Record ServerOptions := mkServer {
  port : option Z;
  host : option string;
}.

Record CLIOptions := mkCLI {
  server : option ServerOptions;
  proxies : option bool;
}.

(** A [Config] object: its own properties, possibly with the value
    [undefined]. *)
Definition defaultConfig : gmap string Value :=
  {[ "proxies" := VBool false ]}.

Definition configFromCLIOptions (cliOptions : CLIOptions)
  : gmap string Value :=
  {[ "server" := VServer (server cliOptions ≫= port)
                   (server cliOptions ≫= host);
     "proxies" := match proxies cliOptions with
                  | Some b => VBool b
                  | None => VUndefined
                  end ]}.

(** [Object.fromEntries(Object.entries(obj).filter(([_, v]) => v !==
    undefined))]. *)
Definition pickDefined (obj : gmap string Value) : gmap string Value :=
  filter (fun entry => entry.2 ≠ VUndefined) obj.

(** [{ ...pickDefined(base), ...pickDefined(overrides) }]: properties spread
    later replace those spread earlier. *)
Definition mergeConfig (base overrides : gmap string Value)
  : gmap string Value :=
  pickDefined overrides ∪ pickDefined base.

Definition resolveConfig (cliOptions : CLIOptions) : gmap string Value :=
  let config := configFromCLIOptions cliOptions in
  mergeConfig defaultConfig config.

End ConfigMerge.


(* ===================================================================== *)
(** * Properties of the usage meter *)
(* ===================================================================== *)

(** Side conditions of rewriting steps: equalities and disequalities of
    keys. *)
Ltac side := first [ done | congruence | intuition congruence ].

Section UsageMeter.
Import Usage.

Implicit Types (u : UsageState) (key : StagehandUsageKey).
Implicit Types (container : gmap string StagehandOperationStats).
Implicit Types (stats : StagehandOperationStats).
Implicit Types (calls : list StagehandUsageKey).

(** ** Calls whose names are not inherited *)

Lemma nextCount_own polluted tool (counts : gmap string Count) :
  inherited polluted tool = None ->
  nextCount polluted tool counts
  = Some (plusOne (default (CountNumber 0) (counts !! tool))).
Proof.
  intros Htool. unfold nextCount. rewrite Htool.
  by destruct (counts !! tool).
Qed.

Lemma bump_own polluted tool stats :
  inherited polluted tool = None ->
  bump polluted tool stats = bumpOwn tool stats.
Proof. intros Htool. unfold bump, bumpOwn. by rewrite nextCount_own. Qed.

Lemma bumpIn_own polluted container op tool :
  inherited polluted op = None ->
  inherited polluted tool = None ->
  bumpIn polluted container op tool = BumpedOwn (bumpInOwn container op tool).
Proof.
  intros Hop Htool. unfold bumpIn, bumpInOwn, getOrCreateOperationStats.
  rewrite Hop. destruct (container !! op) as [stats|]; simpl;
    rewrite bump_own by done; [done|].
  by rewrite insert_insert_eq.
Qed.

(** A call none of whose names is inherited completes, and leaves the state
    [recordOwn] describes. *)
Lemma recordStagehandCall_ordinary key u :
  ordinary (prototypeCallCount u) key ->
  recordStagehandCall key u = (recordOwn key u, Completed).
Proof.
  intros (Hsid & Htool & Hop). unfold recordStagehandCall, recordOwn.
  rewrite bumpIn_own by done. unfold sessionObject. rewrite Hsid.
  destruct (perSessionUsage u !! sessionId key) as [su|]; simpl;
    rewrite bumpIn_own by done; [done|].
  by rewrite insert_insert_eq.
Qed.

Lemma recordAll_snoc calls key u :
  recordAll (calls ++ [key]) u
  = fst (recordStagehandCall key (recordAll calls u)).
Proof. unfold recordAll. by rewrite foldl_app. Qed.

Lemma recordAllOwn_snoc calls key u :
  recordAllOwn (calls ++ [key]) u = recordOwn key (recordAllOwn calls u).
Proof. unfold recordAllOwn. by rewrite foldl_app. Qed.

Lemma prototypeCallCount_recordAllOwn calls u :
  prototypeCallCount (recordAllOwn calls u) = prototypeCallCount u.
Proof.
  induction calls as [|key calls IH] using rev_ind; [done|].
  by rewrite recordAllOwn_snoc.
Qed.

(** A sequence of such calls is a sequence of [recordOwn] steps. *)
Lemma recordAll_ordinary calls u :
  Forall (ordinary (prototypeCallCount u)) calls ->
  recordAll calls u = recordAllOwn calls u.
Proof.
  induction calls as [|key calls IH] using rev_ind; intros Hall; [done|].
  apply Forall_app in Hall as [Hcalls Hkey].
  apply Forall_inv in Hkey.
  rewrite recordAll_snoc, recordAllOwn_snoc. rewrite IH by done.
  rewrite recordStagehandCall_ordinary; [done|].
  by rewrite prototypeCallCount_recordAllOwn.
Qed.

(** ** One [recordOwn] step *)

Lemma lookup_bumpInOwn_eq container op tool :
  bumpInOwn container op tool !! op
  = Some (bumpOwn tool (default newStats (container !! op))).
Proof. unfold bumpInOwn. by rewrite lookup_insert_eq. Qed.

Lemma lookup_bumpInOwn_ne container op tool op' :
  op ≠ op' -> bumpInOwn container op tool !! op' = container !! op'.
Proof. intros Hne. unfold bumpInOwn. by rewrite lookup_insert_ne. Qed.

Lemma callCount_bumpOwn tool stats :
  callCount (bumpOwn tool stats) = callCount stats + 1.
Proof. reflexivity. Qed.

Lemma toolCallCounts_bumpOwn_eq tool stats :
  toolCallCounts (bumpOwn tool stats) !! tool
  = Some (plusOne (default (CountNumber 0) (toolCallCounts stats !! tool))).
Proof. simpl. by rewrite lookup_insert_eq. Qed.

Lemma toolCallCounts_bumpOwn_ne tool tool' stats :
  tool ≠ tool' ->
  toolCallCounts (bumpOwn tool stats) !! tool'
  = toolCallCounts stats !! tool'.
Proof. intros Hne. simpl. by rewrite lookup_insert_ne. Qed.

Lemma globalUsage_record key u :
  globalUsage (recordOwn key u)
  = bumpInOwn (globalUsage u) (operation key) (toolName key).
Proof. reflexivity. Qed.

Lemma perSessionUsage_record key u :
  perSessionUsage (recordOwn key u)
  = <[sessionId key :=
        {| operations :=
             bumpInOwn (operations (sessionObject u (sessionId key)))
               (operation key) (toolName key) |}]> (perSessionUsage u).
Proof. reflexivity. Qed.

Lemma sessionStats_sessionObject u sid op :
  sessionStats u sid op = operations (sessionObject u sid) !! op.
Proof.
  unfold sessionStats, sessionObject.
  by destruct (perSessionUsage u !! sid).
Qed.

Lemma sessionStats_record_eq key u :
  sessionStats (recordOwn key u) (sessionId key) (operation key)
  = Some (bumpOwn (toolName key)
            (default newStats
               (sessionStats u (sessionId key) (operation key)))).
Proof.
  unfold sessionStats at 1.
  rewrite perSessionUsage_record, lookup_insert_eq; simpl.
  by rewrite lookup_bumpInOwn_eq, sessionStats_sessionObject.
Qed.

Lemma sessionStats_record_other_op key u op :
  operation key ≠ op ->
  sessionStats (recordOwn key u) (sessionId key) op
  = sessionStats u (sessionId key) op.
Proof.
  intros Hne. unfold sessionStats at 1.
  rewrite perSessionUsage_record, lookup_insert_eq; simpl.
  by rewrite lookup_bumpInOwn_ne, sessionStats_sessionObject.
Qed.

Lemma perSessionUsage_record_other key u sid :
  sessionId key ≠ sid ->
  perSessionUsage (recordOwn key u) !! sid = perSessionUsage u !! sid.
Proof.
  intros Hne. by rewrite perSessionUsage_record, lookup_insert_ne.
Qed.

Lemma sessionStats_record_other_session key u sid op :
  sessionId key ≠ sid ->
  sessionStats (recordOwn key u) sid op = sessionStats u sid op.
Proof.
  intros Hne. unfold sessionStats.
  by rewrite perSessionUsage_record_other.
Qed.

Lemma lookup_globalUsage_record key u op :
  globalUsage (recordOwn key u) !! op
  = if decide (op = operation key)
    then Some (bumpOwn (toolName key) (default newStats (globalUsage u !! op)))
    else globalUsage u !! op.
Proof.
  rewrite globalUsage_record. case_decide as Hop.
  - subst op. apply lookup_bumpInOwn_eq.
  - by apply lookup_bumpInOwn_ne.
Qed.

Lemma sessionStats_record key u sid op :
  sessionStats (recordOwn key u) sid op
  = if decide (sid = sessionId key ∧ op = operation key)
    then Some (bumpOwn (toolName key)
                 (default newStats (sessionStats u sid op)))
    else sessionStats u sid op.
Proof.
  destruct (decide (sid = sessionId key)) as [->|Hsid].
  - destruct (decide (op = operation key)) as [->|Hop].
    + by rewrite decide_True, sessionStats_record_eq.
    + by rewrite decide_False, sessionStats_record_other_op by side.
  - by rewrite decide_False, sessionStats_record_other_session
      by side.
Qed.

Lemma globalCallCount_record key u op :
  globalCallCount (recordOwn key u) op
  = globalCallCount u op + (if decide (op = operation key) then 1 else 0).
Proof.
  unfold globalCallCount. rewrite lookup_globalUsage_record.
  case_decide as Hop.
  - rewrite callCount_bumpOwn. by destruct (globalUsage u !! op).
  - destruct (globalUsage u !! op); lia.
Qed.

Lemma sessionCallCount_record key u sid op :
  sessionCallCount (recordOwn key u) sid op
  = sessionCallCount u sid op
    + (if decide (sid = sessionId key ∧ op = operation key) then 1 else 0).
Proof.
  unfold sessionCallCount. rewrite sessionStats_record.
  case_decide.
  - rewrite callCount_bumpOwn. by destruct (sessionStats u sid op).
  - destruct (sessionStats u sid op); lia.
Qed.

(** ** Per-tool counts that are numbers *)

Lemma numeric_newStats : numeric newStats.
Proof. intros tool value. simpl. by rewrite lookup_empty. Qed.

Lemma numeric_bumpOwn tool stats : numeric stats -> numeric (bumpOwn tool stats).
Proof.
  intros Hn tool' value. simpl.
  destruct (decide (tool = tool')) as [<-|Hne].
  - rewrite lookup_insert_eq. intros [= <-].
    destruct (toolCallCounts stats !! tool) as [old|] eqn:Hold; simpl.
    + destruct (Hn tool old Hold) as [n ->]. by eexists.
    + by eexists.
  - rewrite lookup_insert_ne by done. apply Hn.
Qed.

Lemma countOf_bumpOwn tool tool' stats :
  numeric stats ->
  countOf (toolCallCounts (bumpOwn tool stats) !! tool')
  = countOf (toolCallCounts stats !! tool')
    + (if decide (tool' = tool) then 1 else 0).
Proof.
  intros Hn. case_decide as Htool.
  - subst tool'. rewrite toolCallCounts_bumpOwn_eq.
    destruct (toolCallCounts stats !! tool) as [old|] eqn:Hold; simpl;
      [|done].
    by destruct (Hn tool old Hold) as [n ->].
  - rewrite toolCallCounts_bumpOwn_ne by done. lia.
Qed.

Lemma allNumeric_empty : allNumeric emptyUsage.
Proof.
  split.
  - intros op stats. simpl. by rewrite lookup_empty.
  - intros sid op stats. unfold sessionStats; simpl. by rewrite lookup_empty.
Qed.

Lemma numeric_default (found : option StagehandOperationStats) :
  (∀ stats, found = Some stats -> numeric stats) ->
  numeric (default newStats found).
Proof.
  intros Hn. destruct found as [stats|]; simpl;
    [by apply Hn | apply numeric_newStats].
Qed.

Lemma allNumeric_record key u : allNumeric u -> allNumeric (recordOwn key u).
Proof.
  intros [Hg Hs]. split.
  - intros op stats. rewrite lookup_globalUsage_record. case_decide.
    + intros [= <-]. apply numeric_bumpOwn, numeric_default. apply Hg.
    + apply Hg.
  - intros sid op stats. rewrite sessionStats_record. case_decide.
    + intros [= <-]. apply numeric_bumpOwn, numeric_default. apply Hs.
    + apply Hs.
Qed.

Lemma allNumeric_recordAllOwn calls u :
  allNumeric u -> allNumeric (recordAllOwn calls u).
Proof.
  intros Hu. induction calls as [|key calls IH] using rev_ind; [done|].
  rewrite recordAllOwn_snoc. by apply allNumeric_record.
Qed.

Lemma globalToolCount_record key u op tool :
  allNumeric u ->
  globalToolCount (recordOwn key u) op tool
  = globalToolCount u op tool
    + (if decide (op = operation key ∧ tool = toolName key) then 1 else 0).
Proof.
  intros [Hg _]. unfold globalToolCount. rewrite lookup_globalUsage_record.
  destruct (decide (op = operation key)) as [->|Hop].
  - rewrite countOf_bumpOwn by (apply numeric_default, Hg).
    destruct (decide (tool = toolName key)) as [->|Htool].
    + rewrite decide_True by done.
      destruct (globalUsage u !! operation key); simpl;
        [done | by rewrite lookup_empty].
    + rewrite decide_False by side.
      destruct (globalUsage u !! operation key); simpl;
        [done | by rewrite lookup_empty].
  - rewrite decide_False by side.
    destruct (globalUsage u !! op); lia.
Qed.

Lemma sessionToolCount_record key u sid op tool :
  allNumeric u ->
  sessionToolCount (recordOwn key u) sid op tool
  = sessionToolCount u sid op tool
    + (if decide (sid = sessionId key ∧ op = operation key
                  ∧ tool = toolName key) then 1 else 0).
Proof.
  intros [_ Hs]. unfold sessionToolCount. rewrite sessionStats_record.
  destruct (decide (sid = sessionId key ∧ op = operation key)) as [[-> ->]|Hk].
  - rewrite countOf_bumpOwn by (apply numeric_default, Hs).
    destruct (decide (tool = toolName key)) as [->|Htool].
    + rewrite decide_True by done.
      destruct (sessionStats u _ _); simpl; [done | by rewrite lookup_empty].
    + rewrite decide_False by side.
      destruct (sessionStats u _ _); simpl; [done | by rewrite lookup_empty].
  - rewrite decide_False by side.
    destruct (sessionStats u sid op); lia.
Qed.

(** A state reached from the empty one by calls whose names are not
    inherited: it is reached by [recordOwn] steps, [Object.prototype] is
    untouched, and every per-tool count is a number. *)
Lemma reached_by_ordinary_calls calls :
  Forall (ordinary false) calls ->
  recordAll calls emptyUsage = recordAllOwn calls emptyUsage
  ∧ prototypeCallCount (recordAll calls emptyUsage) = false
  ∧ allNumeric (recordAll calls emptyUsage).
Proof.
  intros Hall. rewrite recordAll_ordinary by done.
  split; [done|]. split.
  - by rewrite prototypeCallCount_recordAllOwn.
  - apply allNumeric_recordAllOwn, allNumeric_empty.
Qed.

(** C9.  Take a state reached from the empty one by calls whose session
    ids, tool names and operations name no member of [Object.prototype],
    and a key of that kind.  One call of [recordStagehandCall] with the key
    completes and adds one to exactly four counters: the call count of the
    global bucket of [operation], that bucket's count for [toolName], the
    call count of the bucket of [operation] in the session object of
    [sessionId], and that bucket's count for [toolName].  Both buckets exist
    afterwards (they are created when absent), every other bucket, session
    object and tool count is what it was before, and no counter is smaller
    after the call than before it.

    For a key that names a member of [Object.prototype] this fails, the
    meter being kept in plain objects.  With [sessionId = "constructor"]
    the read [perSessionUsage[sessionId]] finds the function [Object], no
    session object is created, and the call raises a [TypeError] after it
    has counted in the global bucket only.  With [operation = "constructor"]
    the call raises before it has counted anything.  With
    [toolName = "__proto__"] the call completes and moves the two call
    counts, but stores no count for the tool. *)
Theorem recordStagehandCall_four_counters_unless_inherited :
  (∀ calls key,
     Forall (ordinary false) calls -> ordinary false key ->
     let u := recordAll calls emptyUsage in
     let u' := fst (recordStagehandCall key u) in
     snd (recordStagehandCall key u) = Completed
     (* the four counters, and nothing else, move by one *)
     ∧ (∀ op, globalCallCount u' op
            = globalCallCount u op
              + (if decide (op = operation key) then 1 else 0))
     ∧ (∀ op tool, globalToolCount u' op tool
            = globalToolCount u op tool
              + (if decide (op = operation key ∧ tool = toolName key)
                 then 1 else 0))
     ∧ (∀ sid op, sessionCallCount u' sid op
            = sessionCallCount u sid op
              + (if decide (sid = sessionId key ∧ op = operation key)
                 then 1 else 0))
     ∧ (∀ sid op tool, sessionToolCount u' sid op tool
            = sessionToolCount u sid op tool
              + (if decide (sid = sessionId key ∧ op = operation key
                            ∧ tool = toolName key) then 1 else 0))
     (* the buckets of the key exist afterwards, with a number stored for
        the tool; all others are as before *)
     ∧ (∃ stats,
          globalUsage u' !! operation key = Some stats
          ∧ toolCallCounts stats !! toolName key
            = Some (CountNumber
                      (globalToolCount u (operation key) (toolName key) + 1)))
     ∧ (∃ stats,
          sessionStats u' (sessionId key) (operation key) = Some stats
          ∧ toolCallCounts stats !! toolName key
            = Some (CountNumber
                      (sessionToolCount u (sessionId key) (operation key)
                         (toolName key) + 1)))
     ∧ (∀ op, op ≠ operation key ->
          globalUsage u' !! op = globalUsage u !! op)
     ∧ (∀ sid op, ¬ (sid = sessionId key ∧ op = operation key) ->
          sessionStats u' sid op = sessionStats u sid op)
     ∧ (∀ sid, sid ≠ sessionId key ->
          perSessionUsage u' !! sid = perSessionUsage u !! sid)
     (* no counter decreases *)
     ∧ (∀ op, (globalCallCount u op ≤ globalCallCount u' op)%nat)
     ∧ (∀ op tool,
          (globalToolCount u op tool ≤ globalToolCount u' op tool)%nat)
     ∧ (∀ sid op,
          (sessionCallCount u sid op ≤ sessionCallCount u' sid op)%nat)
     ∧ (∀ sid op tool,
          (sessionToolCount u sid op tool
           ≤ sessionToolCount u' sid op tool)%nat))
  (* session id [constructor]: the global bucket only, and a [TypeError] *)
  ∧ recordStagehandCall constructorSessionCall emptyUsage
    = ({| globalUsage :=
            {[ "nav" := {| callCount := 1;
                           toolCallCounts :=
                             {[ "navigate" := CountNumber 1 ]} |} ]};
          perSessionUsage := ∅;
          prototypeCallCount := false |},
       ThrewTypeError)
  (* operation [constructor]: nothing is counted *)
  ∧ recordStagehandCall constructorOperationCall emptyUsage
    = (emptyUsage, ThrewTypeError)
  (* tool name [__proto__]: no count for the tool *)
  ∧ recordStagehandCall protoToolCall emptyUsage
    = ({| globalUsage :=
            {[ "nav" := {| callCount := 1; toolCallCounts := ∅ |} ]};
          perSessionUsage :=
            {[ "s1" :=
                 {| operations :=
                      {[ "nav" := {| callCount := 1;
                                     toolCallCounts := ∅ |} ]} |} ]};
          prototypeCallCount := false |},
       Completed).
Proof.
  split; [|by repeat split; vm_compute].
  intros calls key Hcalls Hkey u u'.
  destruct (reached_by_ordinary_calls calls Hcalls) as (_ & Hclean & Hnum).
  fold u in Hclean, Hnum.
  assert (recordStagehandCall key u = (recordOwn key u, Completed)) as Hrun.
  { apply recordStagehandCall_ordinary. by rewrite Hclean. }
  subst u'. rewrite Hrun. cbn [fst snd].
  split; [done|]. split; [apply globalCallCount_record|].
  split; [intros; by apply globalToolCount_record|].
  split; [apply sessionCallCount_record|].
  split; [intros; by apply sessionToolCount_record|].
  split.
  { eexists. split; [apply lookup_bumpInOwn_eq|].
    rewrite toolCallCounts_bumpOwn_eq. unfold globalToolCount.
    destruct Hnum as [Hg _].
    destruct (globalUsage u !! operation key) as [stats|] eqn:Hstats; simpl.
    - destruct (toolCallCounts stats !! toolName key) as [old|] eqn:Hold;
        simpl; [|done].
      by destruct (Hg _ _ Hstats _ _ Hold) as [n ->].
    - by rewrite lookup_empty. }
  split.
  { eexists. split; [apply sessionStats_record_eq|].
    rewrite toolCallCounts_bumpOwn_eq. unfold sessionToolCount.
    destruct Hnum as [_ Hs].
    destruct (sessionStats u (sessionId key) (operation key))
      as [stats|] eqn:Hstats; simpl.
    - destruct (toolCallCounts stats !! toolName key) as [old|] eqn:Hold;
        simpl; [|done].
      by destruct (Hs _ _ _ Hstats _ _ Hold) as [n ->].
    - by rewrite lookup_empty. }
  split.
  { intros op Hop. by rewrite lookup_globalUsage_record, decide_False. }
  split.
  { intros sid op Hk. by rewrite sessionStats_record, decide_False. }
  split.
  { intros sid Hsid. by apply perSessionUsage_record_other. }
  split; [intros op; rewrite globalCallCount_record; lia|].
  split; [intros op tool; rewrite globalToolCount_record by done; lia|].
  split; [intros sid op; rewrite sessionCallCount_record; lia|].
  intros sid op tool. rewrite sessionToolCount_record by done. lia.
Qed.

Lemma recordStagehandCall_four_counters_unless_inherited_witness :
  snd (recordStagehandCall extractCall (recordAll [navCall; navCall] emptyUsage))
  = Completed
  ∧ globalCallCount
      (fst (recordStagehandCall extractCall
              (recordAll [navCall; navCall] emptyUsage))) "extract"
    = globalCallCount (recordAll [navCall; navCall] emptyUsage) "extract" + 1.
Proof.
  destruct (proj1 recordStagehandCall_four_counters_unless_inherited
              [navCall; navCall] extractCall)
    as (Hend & Hglobal & _); [repeat constructor | repeat constructor |].
  split; [exact Hend | exact (Hglobal "extract")].
Defined.

(** ** The sum over sessions *)

Lemma addSessionCount_opCount op sid su acc :
  addSessionCount op sid su acc = opCount op su + acc.
Proof.
  unfold addSessionCount, opCount. by destruct (operations su !! op).
Qed.

Lemma addSessionCount_comm op sid1 sid2 su1 su2 acc :
  addSessionCount op sid1 su1 (addSessionCount op sid2 su2 acc)
  = addSessionCount op sid2 su2 (addSessionCount op sid1 su1 acc).
Proof. rewrite !addSessionCount_opCount. lia. Qed.

Lemma sessionCallSum_empty op : sessionCallSum op ∅ = 0.
Proof. unfold sessionCallSum. by rewrite map_fold_empty. Qed.

Lemma sessionCallSum_insert_fresh op sid su
    (ps : gmap string StagehandSessionUsage) :
  ps !! sid = None ->
  sessionCallSum op (<[sid := su]> ps) = opCount op su + sessionCallSum op ps.
Proof.
  intros Hfresh. unfold sessionCallSum.
  rewrite map_fold_insert_L; [apply addSessionCount_opCount | | done].
  intros. apply addSessionCount_comm.
Qed.

Lemma sessionCallSum_delete op sid su
    (ps : gmap string StagehandSessionUsage) :
  ps !! sid = Some su ->
  sessionCallSum op ps = opCount op su + sessionCallSum op (delete sid ps).
Proof.
  intros Hsid.
  rewrite <- (sessionCallSum_insert_fresh op sid su (delete sid ps))
    by apply lookup_delete_eq.
  by rewrite insert_delete_id.
Qed.

(** Replacing (or adding) the session object of [sid] moves the sum by the
    difference of the two objects' counts. *)
Lemma sessionCallSum_insert op sid su
    (ps : gmap string StagehandSessionUsage) :
  sessionCallSum op (<[sid := su]> ps)
    + opCount op (default {| operations := ∅ |} (ps !! sid))
  = opCount op su + sessionCallSum op ps.
Proof.
  destruct (ps !! sid) as [su0|] eqn:Hsid; simpl.
  - rewrite <- (insert_delete_eq ps).
    rewrite sessionCallSum_insert_fresh by apply lookup_delete_eq.
    rewrite (sessionCallSum_delete op sid su0 ps) by done. lia.
  - rewrite sessionCallSum_insert_fresh by done.
    unfold opCount at 2; simpl. rewrite lookup_empty. lia.
Qed.

Lemma opCount_sessionStats u sid op :
  opCount op (sessionObject u sid) = sessionCallCount u sid op.
Proof.
  unfold opCount, sessionCallCount.
  by rewrite sessionStats_sessionObject.
Qed.

Lemma sessionCallSum_record key u op :
  sessionCallSum op (perSessionUsage (recordOwn key u))
  = sessionCallSum op (perSessionUsage u)
    + (if decide (op = operation key) then 1 else 0).
Proof.
  rewrite perSessionUsage_record.
  pose proof (sessionCallSum_insert op (sessionId key)
    {| operations :=
         bumpInOwn (operations (sessionObject u (sessionId key)))
           (operation key) (toolName key) |} (perSessionUsage u)) as Hsum.
  fold (sessionObject u (sessionId key)) in Hsum.
  assert (opCount op
            {| operations :=
                 bumpInOwn (operations (sessionObject u (sessionId key)))
                   (operation key) (toolName key) |}
          = opCount op (sessionObject u (sessionId key))
            + (if decide (op = operation key) then 1 else 0)) as Hcount.
  { unfold opCount; simpl. case_decide as Hop.
    - subst op. rewrite lookup_bumpInOwn_eq, callCount_bumpOwn.
      by destruct (operations _ !! operation key).
    - rewrite lookup_bumpInOwn_ne by side. destruct (operations _ !! op); lia. }
  lia.
Qed.

Lemma consistent_empty : consistent emptyUsage.
Proof.
  intros op. unfold globalCallCount; simpl.
  by rewrite lookup_empty, sessionCallSum_empty.
Qed.

Lemma consistent_record key u :
  consistent u -> consistent (recordOwn key u).
Proof.
  intros Hu op.
  rewrite globalCallCount_record, sessionCallSum_record. by rewrite Hu.
Qed.

Lemma consistent_recordAllOwn calls u :
  consistent u -> consistent (recordAllOwn calls u).
Proof.
  intros Hu. induction calls as [|key calls IH] using rev_ind; [done|].
  rewrite recordAllOwn_snoc. by apply consistent_record.
Qed.

(** A session holds a bucket for [op] exactly when it recorded [op]. *)
Lemma sessionStats_recordAllOwn calls sid op :
  is_Some (sessionStats (recordAllOwn calls emptyUsage) sid op)
  <-> recorded calls sid op.
Proof.
  induction calls as [|key calls IH] using rev_ind.
  - unfold sessionStats; simpl. rewrite lookup_empty. split.
    + by intros [? ?].
    + by intros (? & [] & _).
  - rewrite recordAllOwn_snoc, sessionStats_record. unfold recorded.
    case_decide as Hk.
    + destruct Hk as [-> ->]. split; [intros _|eauto].
      exists key. rewrite in_app_iff; simpl. tauto.
    + rewrite IH. split.
      * intros (k & Hin & Hs & Ho). exists k. rewrite in_app_iff. tauto.
      * intros (k & Hin & Hs & Ho). apply in_app_iff in Hin.
        destruct Hin as [Hin|[->|[]]]; [by exists k | by destruct Hk; subst].
Qed.

(** C1.  After a finite sequence of [recordStagehandCall] invocations from
    the empty state whose session ids, tool names and operations name no
    member of [Object.prototype], for every operation present in the global
    map, the global call count is the sum, over the sessions present in
    [perSession], of their call counts for that operation; a session
    contributes a term only when it holds a bucket for the operation, and
    it holds one exactly when it recorded the operation.

    For a session id that names a member of [Object.prototype] the
    invariant is broken.  One call with [sessionId = "__proto__"] from the
    empty state counts in the global bucket of [nav], then finds
    [Object.prototype] under [perSessionUsage[sessionId]], creates no
    session object and raises a [TypeError]: the global call count of [nav]
    is 1, no session is present, and the sum over sessions is 0. *)
Theorem global_callCount_sum_unless_inherited :
  (∀ calls op stats,
     Forall (ordinary false) calls ->
     globalUsage (recordAll calls emptyUsage) !! op = Some stats ->
     callCount stats
     = sessionCallSum op (perSessionUsage (recordAll calls emptyUsage))
     ∧ (∀ sid, is_Some (sessionStats (recordAll calls emptyUsage) sid op)
               <-> recorded calls sid op))
  ∧ (let u := recordAll [protoSessionCall] emptyUsage in
     snd (recordStagehandCall protoSessionCall emptyUsage) = ThrewTypeError
     ∧ globalUsage u !! "nav"
       = Some {| callCount := 1;
                 toolCallCounts := {[ "navigate" := CountNumber 1 ]} |}
     ∧ perSessionUsage u = ∅
     ∧ sessionCallSum "nav" (perSessionUsage u) = 0
     ∧ globalCallCount u "nav" ≠ sessionCallSum "nav" (perSessionUsage u)).
Proof.
  split.
  - intros calls op stats Hcalls.
    destruct (reached_by_ordinary_calls calls Hcalls) as (-> & _ & _).
    intros Hop. split.
    + pose proof (consistent_recordAllOwn calls emptyUsage consistent_empty op)
        as Hsum.
      unfold globalCallCount in Hsum. by rewrite Hop in Hsum.
    + intros sid. apply sessionStats_recordAllOwn.
  - by repeat split; vm_compute.
Qed.

Lemma global_callCount_sum_unless_inherited_witness :
  callCount {| callCount := 3;
               toolCallCounts := {[ "navigate" := CountNumber 3 ]} |}
  = sessionCallSum "nav" (perSessionUsage (recordAll sampleCalls emptyUsage)).
Proof.
  apply (proj1 global_callCount_sum_unless_inherited sampleCalls "nav").
  - repeat constructor.
  - vm_compute; reflexivity.
Defined.

(** The worked example of the specification. *)
Example sampleUsage_global :
  globalUsage sampleUsage
  = {[ "nav" := {| callCount := 3;
                   toolCallCounts := {[ "navigate" := CountNumber 3 ]} |};
       "extract" :=
         {| callCount := 1;
            toolCallCounts := {[ "extract" := CountNumber 1 ]} |} ]}
  ∧ sessionCallCount sampleUsage "s1" "nav" = 3
  ∧ callCount {| callCount := 3;
                 toolCallCounts := {[ "navigate" := CountNumber 3 ]} |}
    = sessionCallSum "nav" (perSessionUsage sampleUsage).
Proof. repeat split; vm_compute; reflexivity. Qed.

(** The same invariant fails for the session id [constructor], and a call
    with operation [__proto__] writes [callCount] on [Object.prototype]:
    after it, a call with tool name [callCount] stores [NaN]. *)
Example inherited_names :
  (let u := recordAll [constructorSessionCall] emptyUsage in
   globalCallCount u "nav" = 1 ∧ sessionCallSum "nav" (perSessionUsage u) = 0)
  ∧ recordStagehandCall protoOperationCall emptyUsage
    = ({| globalUsage := ∅; perSessionUsage := ∅;
          prototypeCallCount := true |}, ThrewTypeError)
  ∧ globalUsage (recordAll [protoOperationCall; callCountToolCall] emptyUsage)
      !! "nav"
    = Some {| callCount := 1;
              toolCallCounts := {[ "callCount" := CountNaN ]} |}
  ∧ globalUsage (recordAll [callCountToolCall; protoOperationCall] emptyUsage)
      !! "nav"
    = Some {| callCount := 1;
              toolCallCounts := {[ "callCount" := CountNumber 1 ]} |}
  ∧ globalUsage (recordAll [constructorToolCall] emptyUsage) !! "nav"
    = Some {| callCount := 1;
              toolCallCounts :=
                {[ "constructor"
                   := CountText "function Object() { [native code] }1" ]} |}.
Proof. repeat split; vm_compute; reflexivity. Qed.

(** ** Resetting *)

Lemma lookup_foldl_delete {A} (names : list string) (obj : gmap string A)
    (i : string) :
  foldl (fun acc name => delete name acc) obj names !! i
  = if decide (i ∈ names) then None else obj !! i.
Proof.
  revert obj. induction names as [|k names IH]; intros obj.
  - destruct (decide (i ∈ [])) as [Hin|_]; [|done].
    by apply elem_of_nil in Hin.
  - cbn [foldl]. rewrite IH.
    destruct (decide (i ∈ names)) as [Hin|Hout];
      destruct (decide (i ∈ k :: names)) as [Hin'|Hout']; try done.
    + destruct Hout'. by apply elem_of_cons; right.
    + apply elem_of_cons in Hin' as [->|Hin']; [|done].
      apply lookup_delete_eq.
    + apply lookup_delete_ne. intros ->. destruct Hout'.
      by apply elem_of_cons; left.
Qed.

Lemma deleteAllKeys_empty {A} (obj : gmap string A) : deleteAllKeys obj = ∅.
Proof.
  apply map_eq; intros i. unfold deleteAllKeys.
  rewrite lookup_foldl_delete, lookup_empty.
  case_decide as Hin; [done|].
  destruct (obj !! i) as [x|] eqn:Hi; [|done].
  destruct Hin. apply (list_elem_of_fmap_2 fst _ (i, x)).
  by apply elem_of_map_to_list.
Qed.

(** [resetUsage] empties the two objects; it does not undo a write on
    [Object.prototype]. *)
Lemma resetUsage_empty u :
  resetUsage u
  = {| globalUsage := ∅; perSessionUsage := ∅;
       prototypeCallCount := prototypeCallCount u |}.
Proof. unfold resetUsage. by rewrite !deleteAllKeys_empty. Qed.

End UsageMeter.

(* ===================================================================== *)
(** * Properties of the usage tool *)
(* ===================================================================== *)

Section UsageStats.
Import Usage UsageTool.

Implicit Types (u : UsageState) (params : UsageInput).

(** C8.  Whatever the usage state, after [resetUsage()] a snapshot taken
    with scope [all] shows an empty global map and an empty per-session map:
    the two objects [getUsageSnapshot] refers to are empty, and so is what
    the tool writes for scope [all] (given explicitly or by default). *)
Theorem resetUsage_then_snapshot_all_is_empty u :
  readGlobal (resetUsage u) (global getUsageSnapshot) = ∅
  ∧ readPerSession (resetUsage u) (perSession getUsageSnapshot) = ∅
  ∧ snd (handleUsage
           {| sessionId := None; scope := Some ScopeAll; reset := None |}
           (resetUsage u))
    = {| outGlobal := Some ∅; outPerSession := Some ∅ |}
  ∧ snd (handleUsage
           {| sessionId := None; scope := None; reset := None |}
           (resetUsage u))
    = {| outGlobal := Some ∅; outPerSession := Some ∅ |}.
Proof.
  rewrite resetUsage_empty. repeat split; simpl; by rewrite fmap_empty.
Qed.

(** With [reset] set, the two objects are empty afterwards and [result] is
    written out against the emptied store. *)
Lemma handleUsage_reset u params :
  reset params = Some true ->
  handleUsage params u
  = (resetUsage u, stringify (resetUsage u) (buildResult params u)).
Proof. intros Hreset. unfold handleUsage. by rewrite Hreset. Qed.

(** Without [reset] the state is untouched and the text is the view of the
    state. *)
Lemma handleUsage_no_reset u params :
  reset params ≠ Some true ->
  handleUsage params u = (u, viewOf params u).
Proof.
  intros Hreset. unfold handleUsage, viewOf.
  by destruct (reset params) as [[]|].
Qed.

(** C3, on the code.  With the counters of the example recorded, a call with
    scope [all] and [reset = true] leaves the meter empty, and the text it
    returns shows an empty global map and an empty per-session map: the
    counters as they are after the reset.  The counters as they were before
    the reset (three [nav] calls of [s1], one [extract] call of [s2]) are
    not in the text.  [result] holds the two live objects, [resetUsage]
    empties them in place, and [JSON.stringify] runs after that. *)
Theorem handleUsage_reset_shows_cleared_counters :
  let params :=
    {| sessionId := None; scope := Some ScopeAll; reset := Some true |} in
  fst (handleUsage params sampleUsage) = emptyUsage
  ∧ snd (handleUsage params sampleUsage)
    = {| outGlobal := Some ∅; outPerSession := Some ∅ |}
  ∧ viewOf params sampleUsage
    = {| outGlobal := Some (globalUsage sampleUsage);
         outPerSession := Some (TextSession <$> perSessionUsage sampleUsage) |}
  ∧ snd (handleUsage params sampleUsage) ≠ viewOf params sampleUsage.
Proof.
  intros params.
  assert (handleUsage params sampleUsage
          = (emptyUsage, {| outGlobal := Some ∅; outPerSession := Some ∅ |}))
    as Hrun.
  { rewrite handleUsage_reset by done. rewrite resetUsage_empty.
    unfold stringify; simpl. by rewrite fmap_empty. }
  rewrite Hrun; simpl. repeat split.
  intros Heq. apply (f_equal outGlobal) in Heq. simpl in Heq.
  apply (f_equal (fun g => (g : option (gmap string StagehandOperationStats))
                             ≫= (.!! "nav"))) in Heq.
  vm_compute in Heq. discriminate.
Qed.

(** The same on every state: for the scopes that hand out the live objects,
    a call with [reset = true] writes empty maps whatever was recorded; only
    a value picked by a non-empty [sessionId] is written as it was
    fetched. *)
Lemma handleUsage_reset_text u params :
  reset params = Some true ->
  snd (handleUsage params u)
  = match default ScopeAll (scope params) with
    | ScopeGlobal => {| outGlobal := Some ∅; outPerSession := None |}
    | ScopePerSession =>
        {| outGlobal := None;
           outPerSession :=
             if truthy_opt (sessionId params)
             then Some (entryText u (default "" (sessionId params))
                          (sessionOrEmpty u getUsageSnapshot
                             (default "" (sessionId params))))
             else Some ∅ |}
    | ScopeAll =>
        {| outGlobal := Some ∅;
           outPerSession :=
             if truthy_opt (sessionId params)
             then Some (entryText u (default "" (sessionId params))
                          (sessionOrEmpty u getUsageSnapshot
                             (default "" (sessionId params))))
             else Some ∅ |}
    end.
Proof.
  intros Hreset. rewrite handleUsage_reset by done.
  rewrite resetUsage_empty. unfold buildResult, stringify.
  destruct (default ScopeAll (scope params));
    destruct (truthy_opt (sessionId params)); simpl;
    rewrite ?fmap_empty; try reflexivity;
    by destruct (sessionOrEmpty _ _ _) as [su|[name| |]].
Qed.

(** C10, as the code has it.  For a non-empty [sessionId] that is absent
    from [perSession] and names no member of [Object.prototype], the tool
    called with scope [perSession] or [all] (also by default) writes
    [{ operations: {} }] under that session id and nothing else in
    [perSession]; it does not fail, and the meter holds no entry for that
    session id afterwards. *)
Theorem handleUsage_absent_session u params (sid : string) :
  sessionId params = Some sid ->
  truthy sid = true ->
  inherited (prototypeCallCount u) sid = None ->
  scope params ≠ Some ScopeGlobal ->
  perSessionUsage u !! sid = None ->
  outPerSession (snd (handleUsage params u))
  = Some {[ sid := TextSession {| operations := ∅ |} ]}
  ∧ perSessionUsage (fst (handleUsage params u)) !! sid = None.
Proof.
  intros Hsid Htruthy Hown Hscope Habsent. split.
  - unfold handleUsage, buildResult; simpl. rewrite Hsid; simpl.
    rewrite Htruthy. unfold sessionOrEmpty; simpl. rewrite Habsent, Hown.
    by destruct (scope params) as [[]|].
  - unfold handleUsage; simpl.
    destruct (reset params) as [[]|]; try done.
    by rewrite resetUsage_empty.
Qed.

Lemma handleUsage_absent_session_witness :
  outPerSession
    (snd (handleUsage
            {| sessionId := Some "s9"; scope := Some ScopePerSession;
               reset := None |} sampleUsage))
  = Some {[ "s9" := TextSession {| operations := ∅ |} ]}
  ∧ perSessionUsage
      (fst (handleUsage
              {| sessionId := Some "s9"; scope := Some ScopePerSession;
                 reset := None |} sampleUsage)) !! "s9" = None.
Proof.
  apply (handleUsage_absent_session sampleUsage
           {| sessionId := Some "s9"; scope := Some ScopePerSession;
              reset := None |} "s9").
  - reflexivity.
  - reflexivity.
  - reflexivity.
  - discriminate.
  - vm_compute. reflexivity.
Defined.

(** The empty string is a session id the tool accepts; it is absent from
    the example state, and for it the tool writes the whole per-session map
    (sessions [s1] and [s2]), not [{ operations: {} }] under that id. *)
Lemma handleUsage_empty_session_id :
  perSessionUsage sampleUsage !! "" = None
  ∧ outPerSession
      (snd (handleUsage
              {| sessionId := Some ""; scope := Some ScopePerSession;
                 reset := None |} sampleUsage))
    = Some (TextSession <$> perSessionUsage sampleUsage)
  ∧ outPerSession
      (snd (handleUsage
              {| sessionId := Some ""; scope := Some ScopePerSession;
                 reset := None |} sampleUsage))
    ≠ Some {[ "" := TextSession {| operations := ∅ |} ]}.
Proof.
  split; [by vm_compute|]. split; [reflexivity|].
  simpl. intros Heq.
  apply (f_equal (fun g => (g : option (gmap string SessionText))
                             ≫= (.!! "s1"))) in Heq.
  vm_compute in Heq. discriminate.
Qed.

(** For an absent session id that names a member of [Object.prototype] the
    read finds that member: for [constructor] a function, which
    [JSON.stringify] leaves out, so that the per-session part is [{}]; for
    [__proto__] the prototype object, written as [{}]. *)
Example handleUsage_inherited_session_id :
  outPerSession
    (snd (handleUsage
            {| sessionId := Some "constructor";
               scope := Some ScopePerSession; reset := None |} sampleUsage))
  = Some ∅
  ∧ outPerSession
      (snd (handleUsage
              {| sessionId := Some "__proto__";
                 scope := Some ScopePerSession; reset := None |} sampleUsage))
    = Some {[ "__proto__" := TextPrototype false ]}.
Proof. split; reflexivity. Qed.

End UsageStats.

(* ===================================================================== *)
(** * Properties of the meter with metrics logging *)
(* ===================================================================== *)

Section MetricsLogging.
Import Usage UsageLogged.

Implicit Types (u : UsageState) (console : list MetricsLine) (args : Args).

Lemma recordStagehandCall_logged args u console :
  UsageLogged.recordStagehandCall args (u, console)
  = match Usage.recordStagehandCall (argKey args) u with
    | (u1, ThrewTypeError) => (u1, console, ThrewTypeError)
    | (u1, Completed) =>
        (u1, logStagehandMetrics (stagehand args) (argKey args) console,
         Completed)
    end.
Proof. by destruct args as [[sid tool op] sh]. Qed.

Lemma recordStagehandCall_logged_usage args u console :
  fst (fst (UsageLogged.recordStagehandCall args (u, console)))
  = fst (Usage.recordStagehandCall (argKey args) u).
Proof.
  rewrite recordStagehandCall_logged.
  by destruct (Usage.recordStagehandCall (argKey args) u) as [u1 []].
Qed.

(** C4, as the code has it.  Take a state reached from the empty one by
    calls whose session ids, tool names and operations name no member of
    [Object.prototype], and a call with a key of that kind, with or without
    a Stagehand handle and whether or not that handle has metrics.  The call
    completes; the call count and the count of [toolName] go up by one in
    the global bucket and in the session bucket of the operation, and the
    usage state is the one the plain counting call produces, so nothing
    stored is reset.  A metrics object is not added to any bucket: it is
    written to the console as one line that carries the key and the
    metrics; without metrics nothing is written. *)
Theorem recordStagehandCall_counts_and_logs
    (calls : list StagehandUsageKey) args console :
  Forall (ordinary false) calls ->
  ordinary false (argKey args) ->
  let u := recordAll calls emptyUsage in
  let key := argKey args in
  let after := UsageLogged.recordStagehandCall args (u, console) in
  snd after = Completed
  ∧ globalCallCount (fst (fst after)) (operation key)
    = globalCallCount u (operation key) + 1
  ∧ globalToolCount (fst (fst after)) (operation key) (toolName key)
    = globalToolCount u (operation key) (toolName key) + 1
  ∧ sessionCallCount (fst (fst after)) (sessionId key) (operation key)
    = sessionCallCount u (sessionId key) (operation key) + 1
  ∧ sessionToolCount (fst (fst after)) (sessionId key) (operation key)
      (toolName key)
    = sessionToolCount u (sessionId key) (operation key) (toolName key) + 1
  ∧ fst (fst after) = fst (Usage.recordStagehandCall key u)
  ∧ snd (fst after)
    = match stagehand args ≫= metrics with
      | Some m =>
          (console ++ [{| source := "stagehand-mcp";
                          event := "stagehand_metrics";
                          key := key; lineMetrics := m |}])%list
      | None => console
      end.
Proof.
  intros Hcalls Hkey u key after.
  destruct (reached_by_ordinary_calls calls Hcalls) as (_ & Hclean & Hnum).
  fold u in Hclean, Hnum.
  assert (Usage.recordStagehandCall key u = (recordOwn key u, Completed))
    as Hrun.
  { apply recordStagehandCall_ordinary. by rewrite Hclean. }
  subst after. rewrite recordStagehandCall_logged. fold key.
  rewrite Hrun. cbn [fst snd].
  rewrite globalCallCount_record, globalToolCount_record,
    sessionCallCount_record, sessionToolCount_record by done.
  rewrite !decide_True by done.
  repeat split.
  unfold logStagehandMetrics.
  destruct (stagehand args) as [[[m|]]|]; reflexivity.
Qed.

Lemma recordStagehandCall_counts_and_logs_witness :
  let args :=
    {| argKey := navCall;
       stagehand := Some {| metrics := Some [("inputTokens", 12%Z)] |} |} in
  let after := UsageLogged.recordStagehandCall args (sampleUsage, []) in
  snd after = Completed
  ∧ globalCallCount (fst (fst after)) "nav"
    = globalCallCount sampleUsage "nav" + 1
  ∧ globalToolCount (fst (fst after)) "nav" "navigate"
    = globalToolCount sampleUsage "nav" "navigate" + 1
  ∧ sessionCallCount (fst (fst after)) "s1" "nav"
    = sessionCallCount sampleUsage "s1" "nav" + 1
  ∧ sessionToolCount (fst (fst after)) "s1" "nav" "navigate"
    = sessionToolCount sampleUsage "s1" "nav" "navigate" + 1
  ∧ fst (fst after) = fst (Usage.recordStagehandCall navCall sampleUsage)
  ∧ snd (fst after)
    = [{| source := "stagehand-mcp"; event := "stagehand_metrics";
          key := navCall; lineMetrics := [("inputTokens", 12%Z)] |}].
Proof.
  apply (recordStagehandCall_counts_and_logs sampleCalls
           {| argKey := navCall;
              stagehand := Some {| metrics := Some [("inputTokens", 12%Z)] |} |}
           []).
  - repeat constructor.
  - repeat constructor.
Defined.

(** The buckets do not accumulate metrics: two calls that differ only in
    the [inputTokens] they report leave the same usage state. *)
Lemma metrics_are_not_accumulated : ¬ accumulatesMetrics.
Proof.
  intros [tokens Hacc].
  pose proof (Hacc navCall [("inputTokens", 0%Z)] emptyUsage []) as H0.
  pose proof (Hacc navCall [("inputTokens", 1%Z)] emptyUsage []) as H1.
  rewrite recordStagehandCall_logged_usage in H0, H1.
  simpl in H0, H1. lia.
Qed.

(** With [operation = "constructor"] the counting statements raise, and a
    call that carries metrics writes no line. *)
Example inherited_operation_skips_log :
  UsageLogged.recordStagehandCall
    {| argKey := constructorOperationCall;
       stagehand := Some {| metrics := Some [("inputTokens", 12%Z)] |} |}
    (emptyUsage, [])
  = (emptyUsage, [], ThrewTypeError).
Proof. reflexivity. Qed.

End MetricsLogging.

(* ===================================================================== *)
(** * Properties of the screenshot store *)
(* ===================================================================== *)

Section ScreenshotStore.
Import Resources.

Implicit Types (st : Store) (sid name : string).

Lemma index_register sid name base64 st :
  sessionIdToScreenshotNames (registerScreenshot sid name base64 st)
  = <[sid := default ∅ (sessionIdToScreenshotNames st !! sid) ∪ {[ name ]}]>
      (sessionIdToScreenshotNames st).
Proof.
  unfold registerScreenshot; simpl.
  destruct (sessionIdToScreenshotNames st !! sid) as [set|] eqn:Hsid.
  - by rewrite Hsid.
  - by rewrite lookup_insert_eq, insert_insert_eq.
Qed.

Lemma singleOwner_empty : singleOwner emptyStore.
Proof.
  intros s1 s2 set1 set2 name H1. unfold emptyStore in H1; simpl in H1.
  by rewrite lookup_empty in H1.
Qed.

Lemma singleOwner_register sid name base64 st :
  singleOwner st -> nameFreeFor st sid name ->
  singleOwner (registerScreenshot sid name base64 st).
Proof.
  intros Hown Hfree s1 s2 set1 set2 n.
  rewrite index_register, !lookup_insert.
  destruct (decide (sid = s1)) as [<-|H1];
    destruct (decide (sid = s2)) as [<-|H2]; try done.
  - intros [= <-] Hs2 Hn Hn2.
    apply elem_of_union in Hn as [Hn|Hn].
    + destruct (sessionIdToScreenshotNames st !! sid) as [set|] eqn:Hsid;
        [by eapply Hown | by apply not_elem_of_empty in Hn].
    + apply elem_of_singleton in Hn as ->. symmetry. by eapply Hfree.
  - intros Hs1 [= <-] Hn1 Hn.
    apply elem_of_union in Hn as [Hn|Hn].
    + destruct (sessionIdToScreenshotNames st !! sid) as [set|] eqn:Hsid;
        [by eapply Hown | by apply not_elem_of_empty in Hn].
    + apply elem_of_singleton in Hn as ->. by eapply Hfree.
  - intros. by eapply Hown.
Qed.

Lemma singleOwner_sampleStore : singleOwner sampleStore.
Proof.
  unfold sampleStore.
  apply singleOwner_register; [apply singleOwner_register;
    [apply singleOwner_register; [apply singleOwner_empty|] |] |];
    intros s' set; rewrite ?index_register; simpl;
    rewrite ?lookup_insert, ?lookup_empty;
    repeat (match goal with
            | |- context [decide (?a = ?b)] =>
                destruct (decide (a = b)) as [?|?]; subst
            end);
    simpl; try done; intros [= <-];
    rewrite ?elem_of_union, ?elem_of_singleton, ?elem_of_empty;
    intuition discriminate.
Qed.

Lemma lookup_deleteNames (names : list string) (shots : gmap string string)
    name :
  deleteNames names shots !! name
  = if decide (name ∈ names) then None else shots !! name.
Proof. apply lookup_foldl_delete. Qed.

(** The loop runs the first attempt at once when the [try] body cannot
    fail. *)
Lemma retryClearScreenshotsForSession_run fuel sid options st :
  retryClearScreenshotsForSession (Datatypes.S fuel) sid options st
  = Some {| completion := Returns;
            final := clearScreenshotsForSession sid st;
            trace := [EvAttempt None] |}.
Proof. reflexivity. Qed.

(** A run of the loop over a flaky [try] body that returns has cleared the
    session, however many attempts failed before. *)
Lemma retryLoop_flaky_final fails sid fuel retries round attempt delay st
    events run :
  retryLoop (flakyClear fails sid) fuel retries round attempt delay st events
  = Some run ->
  completion run = Returns ->
  final run = clearScreenshotsForSession sid st.
Proof.
  revert round attempt delay st events.
  induction fuel as [|fuel IH]; intros round attempt delay st events; [done|].
  cbn [retryLoop]. unfold flakyClear at 1.
  destruct (fails round) as [err|].
  - destruct (atLeast attempt retries).
    + by intros [= <-].
    + apply IH.
  - by intros [= <-].
Qed.

(** C7.  In a store where every name is filed under at most one session id,
    [clearScreenshotsForSession(sessionId)] leaves no screenshot that was
    registered under [sessionId] in the screenshots map and no entry for
    [sessionId] in the per-session index; the index entries of the other
    sessions and the screenshots registered under them are as before.  The
    retry wrapper ends in the same store: it returns after one attempt, and
    also when earlier attempts fail without touching the store and a later
    one goes through. *)
Theorem clearScreenshotsForSession_purges_session st sid :
  singleOwner st ->
  let st' := clearScreenshotsForSession sid st in
  (∀ name, registeredUnder st sid name -> screenshots st' !! name = None)
  ∧ sessionIdToScreenshotNames st' !! sid = None
  ∧ (∀ sid', sid' ≠ sid ->
       sessionIdToScreenshotNames st' !! sid'
       = sessionIdToScreenshotNames st !! sid')
  ∧ (∀ sid' name, sid' ≠ sid -> registeredUnder st sid' name ->
       screenshots st' !! name = screenshots st !! name)
  ∧ (∀ fuel options,
       retryClearScreenshotsForSession (Datatypes.S fuel) sid options st
       = Some {| completion := Returns; final := st';
                 trace := [EvAttempt None] |})
  ∧ (∀ fuel fails options run,
       retryWith (flakyClear fails sid) fuel options st = Some run ->
       completion run = Returns -> final run = st').
Proof.
  intros Hown st'. subst st'. unfold clearScreenshotsForSession.
  destruct (sessionIdToScreenshotNames st !! sid) as [set|] eqn:Hsid; simpl.
  - repeat split.
    + intros name (set' & Hset' & Hin).
      rewrite Hsid in Hset'. injection Hset' as <-.
      rewrite lookup_deleteNames, decide_True; [done|].
      by apply elem_of_elements.
    + apply lookup_delete_eq.
    + intros sid' Hne. by apply lookup_delete_ne.
    + intros sid' name Hne (set' & Hset' & Hin).
      rewrite lookup_deleteNames, decide_False; [done|].
      intros Hin'. apply elem_of_elements in Hin'.
      apply Hne. by eapply Hown.
    + intros fuel options. rewrite retryClearScreenshotsForSession_run.
      unfold clearScreenshotsForSession. by rewrite Hsid.
    + intros fuel fails options run Hrun Hret.
      rewrite (retryLoop_flaky_final _ _ _ _ _ _ _ _ _ _ Hrun Hret).
      unfold clearScreenshotsForSession. by rewrite Hsid.
  - repeat split; try done.
    + intros name (set' & Hset' & _). by rewrite Hsid in Hset'.
    + intros fuel options. rewrite retryClearScreenshotsForSession_run.
      unfold clearScreenshotsForSession. by rewrite Hsid.
    + intros fuel fails options run Hrun Hret.
      rewrite (retryLoop_flaky_final _ _ _ _ _ _ _ _ _ _ Hrun Hret).
      unfold clearScreenshotsForSession. by rewrite Hsid.
Qed.

Lemma clearScreenshotsForSession_purges_session_witness :
  let st' := clearScreenshotsForSession "s1" sampleStore in
  (∀ name, registeredUnder sampleStore "s1" name ->
       screenshots st' !! name = None)
  ∧ sessionIdToScreenshotNames st' !! "s1" = None
  ∧ (∀ sid', sid' ≠ "s1" ->
       sessionIdToScreenshotNames st' !! sid'
       = sessionIdToScreenshotNames sampleStore !! sid')
  ∧ (∀ sid' name, sid' ≠ "s1" -> registeredUnder sampleStore sid' name ->
       screenshots st' !! name = screenshots sampleStore !! name)
  ∧ (∀ fuel options,
       retryClearScreenshotsForSession (Datatypes.S fuel) "s1" options
         sampleStore
       = Some {| completion := Returns; final := st';
                 trace := [EvAttempt None] |})
  ∧ (∀ fuel fails options run,
       retryWith (flakyClear fails "s1") fuel options sampleStore = Some run ->
       completion run = Returns -> final run = st').
Proof.
  apply (clearScreenshotsForSession_purges_session sampleStore "s1").
  apply singleOwner_sampleStore.
Defined.

(** The example store after the purge of [s1]: only the screenshot of [s2]
    is left. *)
Example clear_sampleStore :
  clearScreenshotsForSession "s1" sampleStore
  = {| screenshots := {[ "c.png" := "Q0ND" ]};
       sessionIdToScreenshotNames := {[ "s2" := {[ "c.png" ]} ]} |}.
Proof. vm_compute. reflexivity. Qed.

End ScreenshotStore.

(* ===================================================================== *)
(** * Properties of the retry wrapper *)
(* ===================================================================== *)

Section RetryPolicy.
Import Resources.

Context {S : Type}.
Variable tryClear : nat -> S -> S * option Thrown.

Lemma attemptsOf_app (xs ys : list Event) :
  attemptsOf (xs ++ ys) = attemptsOf xs + attemptsOf ys.
Proof. unfold attemptsOf. by rewrite List.filter_app, length_app. Qed.

Lemma sleepsOf_app (xs ys : list Event) :
  sleepsOf (xs ++ ys) = (sleepsOf xs ++ sleepsOf ys)%list.
Proof. unfold sleepsOf. apply omap_app. Qed.

Lemma attemptsOf_failedRounds d (s : S) k count :
  attemptsOf (failedRounds tryClear d s k count) = count.
Proof.
  revert k. induction count as [|count IH]; intros k; [done|].
  cbn [failedRounds]. change (attemptsOf (?a :: ?b :: ?l))
    with (Datatypes.S (attemptsOf l)). by rewrite IH.
Qed.

Lemma sleepsOf_failedRounds d (s : S) k count :
  sleepsOf (failedRounds tryClear d s k count)
  = map (delayAfter d) (seq k count).
Proof.
  revert k. induction count as [|count IH]; intros k; [done|].
  cbn [failedRounds length seq map].
  change (sleepsOf (EvAttempt ?f :: EvSleep ?ms :: ?l))
    with (ms :: sleepsOf l). by rewrite IH.
Qed.

Lemma attemptAt_succ k : attemptAt (Datatypes.S k) = plus1 (attemptAt k).
Proof.
  unfold attemptAt, plus1, maxExact.
  destruct (Z.ltb_spec (Z.min (Z.of_nat k) (2 ^ 53)) (2 ^ 53)); lia.
Qed.

Lemma outcome_storeBefore (s : S) k :
  tryClear k (storeBefore tryClear s k)
  = (storeBefore tryClear s (Datatypes.S k), outcomeOf tryClear s k).
Proof. unfold outcomeOf. cbn [storeBefore]. by destruct (tryClear k _). Qed.

(** The loop, entered at attempt [j], stops with the first attempt from [j]
    on that completes or fails when [attempt >= retries]. *)
Lemma retryLoop_stops r d (s : S) count fuel j (events : list Event) :
  (count < fuel)%nat ->
  (∀ k, (j ≤ k < j + count)%nat -> stopsAt tryClear r s k = false) ->
  stopsAt tryClear r s (j + count) = true ->
  retryLoop tryClear fuel r j (attemptAt j) (delayAfter d j)
    (storeBefore tryClear s j) events
  = Some {| completion :=
              match outcomeOf tryClear s (j + count) with
              | None => Returns
              | Some err => Throws (toError err)
              end;
            final := storeBefore tryClear s (Datatypes.S (j + count));
            trace :=
              (events ++ failedRounds tryClear d s j count
                 ++ [EvAttempt (outcomeOf tryClear s (j + count))])%list |}.
Proof.
  revert fuel j events.
  induction count as [|count IH]; intros fuel j events Hfuel Hgo Hstop;
    (destruct fuel as [|fuel]; [lia|]); cbn [retryLoop];
    rewrite outcome_storeBefore.
  - rewrite Nat.add_0_r in *. unfold stopsAt in Hstop.
    destruct (outcomeOf tryClear s j) as [err|]; [|done].
    by rewrite Hstop.
  - pose proof (Hgo j ltac:(lia)) as Hj. unfold stopsAt in Hj.
    destruct (outcomeOf tryClear s j) as [err|] eqn:Hout; [|done].
    rewrite Hj, <- attemptAt_succ.
    change (min1000 (times2 (delayAfter d j)))
      with (delayAfter d (Datatypes.S j)).
    replace (j + Datatypes.S count)%nat with (Datatypes.S j + count)%nat
      in * by lia.
    rewrite (IH fuel (Datatypes.S j)); [| lia | intros k Hk; apply Hgo; lia
                                         | done].
    cbn [failedRounds]. rewrite Hout. by rewrite <- !app_assoc.
Qed.

(** As long as no attempt is one after which the wrapper stops, the loop
    goes on. *)
Lemma retryLoop_goes_on r d (s : S) fuel j (events : list Event) :
  (∀ k, (j ≤ k < j + fuel)%nat -> stopsAt tryClear r s k = false) ->
  retryLoop tryClear fuel r j (attemptAt j) (delayAfter d j)
    (storeBefore tryClear s j) events
  = None.
Proof.
  revert j events. induction fuel as [|fuel IH]; intros j events Hgo;
    [done|].
  cbn [retryLoop]. rewrite outcome_storeBefore.
  pose proof (Hgo j ltac:(lia)) as Hj. unfold stopsAt in Hj.
  destruct (outcomeOf tryClear s j) as [err|] eqn:Hout; [|done].
  rewrite Hj, <- attemptAt_succ.
  change (min1000 (times2 (delayAfter d j)))
    with (delayAfter d (Datatypes.S j)).
  apply IH. intros k Hk. apply Hgo. lia.
Qed.

(** Among the first [fuel] attempts there is a first one after which the
    wrapper stops, or none. *)
Lemma first_stop_or_none r (s : S) fuel :
  (∀ k, (k < fuel)%nat -> stopsAt tryClear r s k = false)
  ∨ (∃ n, (n < fuel)%nat ∧ firstStop tryClear r s n).
Proof.
  induction fuel as [|fuel [Hnone|(n & Hn & Hfirst)]].
  - left. intros k Hk. lia.
  - destruct (stopsAt tryClear r s fuel) eqn:Hstop.
    + right. exists fuel. split; [lia|]. by split.
    + left. intros k Hk. destruct (decide (k = fuel)) as [->|Hne]; [done|].
      apply Hnone. lia.
  - right. exists n. split; [lia | done].
Qed.

Lemma firstStop_unique r (s : S) n m :
  firstStop tryClear r s n -> firstStop tryClear r s m -> n = m.
Proof.
  intros [Hn1 Hn2] [Hm1 Hm2].
  destruct (Nat.lt_trichotomy n m) as [Hlt|[Heq|Hgt]]; [|done|].
  - rewrite (Hm1 n Hlt) in Hn2. discriminate.
  - rewrite (Hn1 m Hgt) in Hm2. discriminate.
Qed.

Lemma retryWith_stops (options : Options) (s : S) fuel n :
  (n < fuel)%nat ->
  firstStop tryClear (default (Finite 3) (retries options)) s n ->
  retryWith tryClear fuel options s
  = Some (runEndingAt tryClear
            (default (Finite 50) (initialDelayMs options)) s n).
Proof.
  intros Hfuel [Hgo Hstop]. unfold retryWith, runEndingAt.
  pose proof (retryLoop_stops (default (Finite 3) (retries options))
                (default (Finite 50) (initialDelayMs options)) s n fuel 0 [])
    as Hrun.
  simpl in Hrun. apply Hrun; [done | intros k Hk; apply Hgo; lia | done].
Qed.

Lemma retryWith_goes_on (options : Options) (s : S) fuel :
  (∀ k, (k < fuel)%nat ->
        stopsAt tryClear (default (Finite 3) (retries options)) s k = false) ->
  retryWith tryClear fuel options s = None.
Proof.
  intros Hgo. unfold retryWith.
  pose proof (retryLoop_goes_on (default (Finite 3) (retries options))
                (default (Finite 50) (initialDelayMs options)) s fuel 0 [])
    as Hrun.
  simpl in Hrun. apply Hrun. intros k Hk. apply Hgo. lia.
Qed.

Lemma retryWith_run (options : Options) (s : S) fuel run :
  retryWith tryClear fuel options s = Some run ->
  ∃ n, (n < fuel)%nat
       ∧ firstStop tryClear (default (Finite 3) (retries options)) s n
       ∧ run = runEndingAt tryClear
                 (default (Finite 50) (initialDelayMs options)) s n.
Proof.
  intros Hrun.
  destruct (first_stop_or_none (default (Finite 3) (retries options)) s fuel)
    as [Hnone|(n & Hn & Hfirst)].
  - rewrite retryWith_goes_on in Hrun by done. discriminate.
  - exists n. split; [done|]. split; [done|].
    rewrite (retryWith_stops options s fuel n Hn Hfirst) in Hrun.
    by injection Hrun.
Qed.

(** ** When the wrapper gives up *)

Lemma Qle_bool_ceiling (q : Q) (a : Z) :
  Qle_bool q (inject_Z a) = true <-> (Qceiling q ≤ a)%Z.
Proof.
  rewrite Qle_bool_iff. split.
  - intros Hle. destruct (Z.le_gt_cases (Qceiling q) a) as [|Hgt]; [done|].
    exfalso. pose proof (Qceiling_lt q) as Hlt.
    assert (inject_Z a <= inject_Z (Qceiling q - 1))%Q as Hmono
      by (rewrite <- Zle_Qle; lia).
    apply (Qlt_irrefl q). eapply Qle_lt_trans; [|exact Hlt].
    eapply Qle_trans; [exact Hle | exact Hmono].
  - intros Hle. eapply Qle_trans; [apply Qle_ceiling|].
    by rewrite <- Zle_Qle.
Qed.

Lemma atLeast_finite (q : Q) k :
  (Qceiling q ≤ maxExact)%Z ->
  atLeast (attemptAt k) (Finite q) = true
  <-> (giveUpAfter q ≤ Z.of_nat k)%Z.
Proof.
  intros Hq. unfold atLeast. rewrite Qle_bool_ceiling.
  unfold attemptAt, giveUpAfter. lia.
Qed.

Lemma atLeast_beyond (q : Q) k :
  (maxExact < Qceiling q)%Z -> atLeast (attemptAt k) (Finite q) = false.
Proof.
  intros Hq. apply not_true_iff_false. unfold atLeast.
  rewrite Qle_bool_ceiling. unfold attemptAt. lia.
Qed.

(** For a finite [retries] the wrapper stops, after attempt
    [giveUpAfter retries] at the latest. *)
Lemma firstStop_finite (q : Q) (s : S) :
  (Qceiling q ≤ maxExact)%Z ->
  ∃ n, (Z.of_nat n ≤ giveUpAfter q)%Z ∧ firstStop tryClear (Finite q) s n.
Proof.
  intros Hq.
  destruct (first_stop_or_none (Finite q) s
              (Datatypes.S (Z.to_nat (giveUpAfter q))))
    as [Hnone|(n & Hn & Hfirst)].
  - specialize (Hnone (Z.to_nat (giveUpAfter q)) ltac:(lia)).
    unfold stopsAt in Hnone.
    destruct (outcomeOf tryClear s _); [|done].
    apply not_true_iff_false in Hnone. destruct Hnone.
    apply atLeast_finite; [done|]. unfold giveUpAfter. lia.
  - exists n. split; [|done]. unfold giveUpAfter in *. lia.
Qed.

(** ** The delays *)

Lemma min1000_capped (x : Number) : x ≠ NaN -> atMost1000 (min1000 x).
Proof.
  intros Hx. destruct x as [| | |q]; simpl; try done.
  destruct (Qle_bool q 1000) eqn:Hle; simpl.
  - by apply Qle_bool_iff.
  - by apply Qle_bool_iff.
Qed.

Lemma times2_NaN (x : Number) : times2 x = NaN -> x = NaN.
Proof.
  destruct x as [| | |q]; simpl; try done.
  by destruct (Qle_bool (q * 2) maxDouble), (Qle_bool (- maxDouble) (q * 2)).
Qed.

Lemma min1000_NaN (x : Number) : min1000 x = NaN -> x = NaN.
Proof.
  destruct x as [| | |q]; simpl; try done.
  by destruct (Qle_bool q 1000).
Qed.

Lemma delayAfter_NaN d k : delayAfter d k = NaN -> d = NaN.
Proof.
  induction k as [|k IH]; [done|]. cbn [delayAfter]. intros Hnan.
  by apply IH, times2_NaN, min1000_NaN.
Qed.

(** From the second sleep on, the delay is at most 1000 ms. *)
Lemma delayAfter_capped d k :
  d ≠ NaN -> atMost1000 (delayAfter d (Datatypes.S k)).
Proof.
  intros Hd. cbn [delayAfter]. apply min1000_capped.
  intros Hnan. apply Hd. by apply (delayAfter_NaN d k), times2_NaN.
Qed.

Lemma attemptsOf_runEndingAt d (s : S) n :
  attemptsOf (trace (runEndingAt tryClear d s n)) = (n + 1)%nat.
Proof.
  unfold runEndingAt; cbn [trace].
  by rewrite attemptsOf_app, attemptsOf_failedRounds.
Qed.

Lemma sleepsOf_runEndingAt d (s : S) n :
  sleepsOf (trace (runEndingAt tryClear d s n))
  = map (delayAfter d) (seq 0 n).
Proof.
  unfold runEndingAt; cbn [trace].
  rewrite sleepsOf_app, sleepsOf_failedRounds. apply app_nil_r.
Qed.

(** Before the attempt after which the wrapper stops, every attempt
    failed. *)
Lemma firstStop_failed r (s : S) n k :
  firstStop tryClear r s n -> (k < n)%nat ->
  is_Some (outcomeOf tryClear s k).
Proof.
  intros [Hgo _] Hk. specialize (Hgo k Hk). unfold stopsAt in Hgo.
  by destruct (outcomeOf tryClear s k).
Qed.

(** With a finite [retries], the wrapper throws only after attempt
    [giveUpAfter retries]. *)
Lemma firstStop_throws (q : Q) (s : S) n err :
  (Qceiling q ≤ maxExact)%Z ->
  firstStop tryClear (Finite q) s n ->
  outcomeOf tryClear s n = Some err ->
  n = Z.to_nat (giveUpAfter q).
Proof.
  intros Hq [Hgo Hstop] Herr.
  unfold stopsAt in Hstop. rewrite Herr in Hstop.
  apply atLeast_finite in Hstop; [|done].
  destruct (decide (n = Z.to_nat (giveUpAfter q))) as [|Hne]; [done|].
  exfalso. specialize (Hgo (Z.to_nat (giveUpAfter q))).
  unfold stopsAt in Hgo.
  assert (atLeast (attemptAt (Z.to_nat (giveUpAfter q))) (Finite q) = true)
    as Hge by (apply atLeast_finite; [done | unfold giveUpAfter; lia]).
  destruct (outcomeOf tryClear s (Z.to_nat (giveUpAfter q)));
    [rewrite Hge in Hgo | ]; (unshelve epose proof (Hgo _) as Hno;
                               [unfold giveUpAfter in *; lia | done]).
Qed.

(** C5, as the code has it.  For every [try] body, store and options, with
    [retries] defaulting to 3 and [initialDelayMs] to 50.

    The wrapper runs the attempts one after the other and stops after the
    first attempt that completes, or that fails when [attempt >= retries]:
    a run of the wrapper is the run that ends with that attempt, and as
    long as there is no such attempt the wrapper goes on.  A run makes at
    least one attempt; every attempt but the last failed and was followed
    by a sleep, the first sleep being [initialDelayMs] as given and each
    later one [Math.min(2 * previous, 1000)], hence at most 1000 ms unless
    [initialDelayMs] is [NaN].  The wrapper returns when its last attempt
    completed, and otherwise throws the error of its last attempt (wrapped
    in an [Error] when it was not one).

    For a finite [retries] (up to [2^53]), with
    [limit = max(ceil(retries), 0)], the test [attempt >= retries] holds
    from attempt [limit] on: the wrapper ends within [limit + 1] attempts,
    and it throws exactly when every one of the attempts [0 .. limit]
    fails.  For [retries] [NaN], [+Infinity] or above [2^53] the test never
    holds: the wrapper never throws, and goes on as long as the attempts
    fail.  For [-Infinity] it makes one attempt. *)
Theorem retryClearScreenshots_policy (options : Options) (s : S) :
  let r := default (Finite 3) (retries options) in
  let d := default (Finite 50) (initialDelayMs options) in
  (* the runs of the wrapper *)
  (∀ fuel run,
     retryWith tryClear fuel options s = Some run ->
     ∃ n, (n < fuel)%nat ∧ firstStop tryClear r s n
          ∧ run = runEndingAt tryClear d s n)
  ∧ (∀ fuel n,
       (n < fuel)%nat -> firstStop tryClear r s n ->
       retryWith tryClear fuel options s = Some (runEndingAt tryClear d s n))
  ∧ (∀ fuel,
       (∀ k, (k < fuel)%nat -> stopsAt tryClear r s k = false) ->
       retryWith tryClear fuel options s = None)
  (* attempts, sleeps and completion of a run *)
  ∧ (∀ n,
       attemptsOf (trace (runEndingAt tryClear d s n)) = (n + 1)%nat
       ∧ sleepsOf (trace (runEndingAt tryClear d s n))
         = map (delayAfter d) (seq 0 n)
       ∧ completion (runEndingAt tryClear d s n)
         = match outcomeOf tryClear s n with
           | None => Returns
           | Some err => Throws (toError err)
           end
       ∧ final (runEndingAt tryClear d s n)
         = storeBefore tryClear s (Datatypes.S n))
  ∧ (∀ n k, firstStop tryClear r s n -> (k < n)%nat ->
       is_Some (outcomeOf tryClear s k))
  ∧ (∀ k, stopsAt tryClear r s k = true
          <-> outcomeOf tryClear s k = None
              ∨ atLeast (attemptAt k) r = true)
  (* the delays *)
  ∧ delayAfter d 0 = d
  ∧ (∀ k, delayAfter d (Datatypes.S k) = min1000 (times2 (delayAfter d k)))
  ∧ (d ≠ NaN -> ∀ k, atMost1000 (delayAfter d (Datatypes.S k)))
  (* a finite [retries] *)
  ∧ (∀ q, r = Finite q -> (Qceiling q ≤ maxExact)%Z ->
       let limit := Z.to_nat (giveUpAfter q) in
       (∀ k, atLeast (attemptAt k) r = true <-> (limit ≤ k)%nat)
       ∧ (∀ fuel, (limit < fuel)%nat ->
            is_Some (retryWith tryClear fuel options s))
       ∧ (∀ fuel run,
            retryWith tryClear fuel options s = Some run ->
            (1 ≤ attemptsOf (trace run) ≤ limit + 1)%nat
            ∧ (∀ err,
                 completion run = Throws err ->
                 attemptsOf (trace run) = (limit + 1)%nat
                 ∧ (∀ k, (k ≤ limit)%nat -> is_Some (outcomeOf tryClear s k))
                 ∧ ∃ last, outcomeOf tryClear s limit = Some last
                           ∧ err = toError last))
       ∧ (∀ fuel,
            (limit < fuel)%nat ->
            (∀ k, (k ≤ limit)%nat -> is_Some (outcomeOf tryClear s k)) ->
            ∃ last,
              outcomeOf tryClear s limit = Some last
              ∧ retryWith tryClear fuel options s
                = Some (runEndingAt tryClear d s limit)
              ∧ completion (runEndingAt tryClear d s limit)
                = Throws (toError last)))
  (* no giving up *)
  ∧ (r = NaN ∨ r = PlusInfinity
     ∨ (∃ q, r = Finite q ∧ (maxExact < Qceiling q)%Z) ->
     (∀ k, atLeast (attemptAt k) r = false)
     ∧ (∀ fuel run,
          retryWith tryClear fuel options s = Some run ->
          completion run = Returns)
     ∧ (∀ fuel,
          (∀ k, (k < fuel)%nat -> is_Some (outcomeOf tryClear s k)) ->
          retryWith tryClear fuel options s = None))
  ∧ (r = MinusInfinity ->
     ∀ fuel run,
       retryWith tryClear fuel options s = Some run ->
       attemptsOf (trace run) = 1%nat).
Proof.
  intros r d.
  split; [intros fuel run; apply retryWith_run|].
  split; [intros fuel n; apply retryWith_stops|].
  split; [intros fuel; apply retryWith_goes_on|].
  split.
  { intros n. split; [apply attemptsOf_runEndingAt|].
    split; [apply sleepsOf_runEndingAt | done]. }
  split; [intros n k; apply firstStop_failed|].
  split.
  { intros k. unfold stopsAt.
    destruct (outcomeOf tryClear s k); split; try done; try tauto.
    by intros [Hnone|Hge]. }
  split; [done|]. split; [done|].
  split; [intros Hd k; by apply delayAfter_capped|].
  split.
  { intros q Hr Hq limit.
    assert (∀ k, atLeast (attemptAt k) r = true <-> (limit ≤ k)%nat) as Hge.
    { intros k. rewrite Hr, atLeast_finite by done.
      subst limit. unfold giveUpAfter. lia. }
    destruct (firstStop_finite q s Hq) as (n0 & Hn0 & Hfirst0).
    rewrite <- Hr in Hfirst0.
    assert (n0 ≤ limit)%nat as Hle by (subst limit; lia).
    split; [done|]. split; [|split].
    - intros fuel Hfuel.
      rewrite (retryWith_stops options s fuel n0); [by eexists | lia | done].
    - intros fuel run Hrun.
      destruct (retryWith_run options s fuel run Hrun)
        as (n & Hn & Hfirst & ->).
      fold r in Hfirst.
      rewrite (firstStop_unique r s n n0 Hfirst Hfirst0) in *.
      rewrite attemptsOf_runEndingAt. split; [lia|].
      intros err. unfold runEndingAt; cbn [completion].
      destruct (outcomeOf tryClear s n0) as [last|] eqn:Hlast; [|done].
      intros [= <-].
      assert (n0 = limit) as ->.
      { rewrite Hr in Hfirst0.
        by apply (firstStop_throws q s n0 last Hq Hfirst0). }
      split; [done|]. split; [|by exists last].
      intros k Hk. destruct (decide (k = limit)) as [->|Hne]; [by eexists|].
      apply (firstStop_failed r s limit k Hfirst0). lia.
    - intros fuel Hfuel Hfail.
      destruct (Hfail limit ltac:(lia)) as [last Hlast].
      exists last. split; [done|].
      assert (firstStop tryClear r s limit) as Hfirst.
      { split.
        - intros k Hk. unfold stopsAt.
          destruct (Hfail k ltac:(lia)) as [err ->].
          apply not_true_iff_false. rewrite Hge. lia.
        - unfold stopsAt. rewrite Hlast. by apply Hge. }
      split; [by apply retryWith_stops|].
      unfold runEndingAt; cbn [completion]. by rewrite Hlast. }
  split.
  { intros Hr.
    assert (∀ k, atLeast (attemptAt k) r = false) as Hnever.
    { intros k. destruct Hr as [Hr|[Hr|(q & Hr & Hq)]]; rewrite Hr; try done.
      by apply atLeast_beyond. }
    split; [done|]. split.
    - intros fuel run Hrun.
      destruct (retryWith_run options s fuel run Hrun)
        as (n & _ & [_ Hstop] & ->).
      fold r in Hstop. unfold stopsAt in Hstop.
      unfold runEndingAt; cbn [completion].
      destruct (outcomeOf tryClear s n); [|done].
      rewrite Hnever in Hstop. discriminate.
    - intros fuel Hfail. apply retryWith_goes_on. intros k Hk. fold r.
      unfold stopsAt. destruct (Hfail k Hk) as [err ->]. apply Hnever. }
  intros Hr fuel run Hrun.
  destruct (retryWith_run options s fuel run Hrun) as (n & _ & [Hgo _] & ->).
  fold r in Hgo. rewrite attemptsOf_runEndingAt.
  destruct n as [|n]; [done|].
  specialize (Hgo 0%nat ltac:(lia)). unfold stopsAt in Hgo. rewrite Hr in Hgo.
  by destruct (outcomeOf tryClear s 0).
Qed.

End RetryPolicy.

(** With [retries = -1] the wrapper still makes one attempt, which is more
    than [retries + 1 = 0]; with [retries = 1.5] it makes three attempts,
    which is more than [retries + 1 = 2.5]; with [initialDelayMs = 5000] the
    first sleep is 5000 ms, above the cap of 1000 ms that the later sleeps
    obey; with [retries = NaN] it is still retrying after any number of
    failed attempts. *)
Lemma retry_attempts_and_first_delay_exceed_bounds :
  (∃ run,
     Resources.retryWith Resources.alwaysFails 10
       {| Resources.retries := Some (Resources.Finite (-1));
          Resources.initialDelayMs := None |} tt = Some run
     ∧ Resources.attemptsOf (Resources.trace run) = 1
     ∧ ¬ (Z.of_nat (Resources.attemptsOf (Resources.trace run)) ≤ -1 + 1)%Z)
  ∧ (∃ run,
       Resources.retryWith Resources.alwaysFails 10
         {| Resources.retries := Some (Resources.Finite (3 # 2));
            Resources.initialDelayMs := None |} tt = Some run
       ∧ Resources.attemptsOf (Resources.trace run) = 3
       ∧ ¬ (inject_Z (Z.of_nat (Resources.attemptsOf (Resources.trace run)))
            <= (3 # 2) + 1)%Q)
  ∧ (∃ run,
       Resources.retryWith Resources.alwaysFails 10
         {| Resources.retries := None;
            Resources.initialDelayMs := Some (Resources.Finite 5000) |} tt
       = Some run
       ∧ Resources.sleepsOf (Resources.trace run)
         = [Resources.Finite 5000; Resources.Finite 1000;
            Resources.Finite 1000]
       ∧ ¬ Forall Resources.atMost1000
             (Resources.sleepsOf (Resources.trace run)))
  ∧ (∀ fuel,
       Resources.retryWith Resources.alwaysFails fuel
         {| Resources.retries := Some Resources.NaN;
            Resources.initialDelayMs := None |} tt = None).
Proof.
  split; [|split; [|split]].
  - eexists. split; [vm_compute; reflexivity|].
    split; [reflexivity|]. cbn. lia.
  - eexists. split; [vm_compute; reflexivity|].
    split; [reflexivity|]. cbn. intros Hle. by vm_compute in Hle.
  - eexists. split; [vm_compute; reflexivity|].
    split; [reflexivity|].
    cbn. intros Hall. apply Forall_cons in Hall as [Hfirst _].
    by vm_compute in Hfirst.
  - intros fuel. by apply retryWith_goes_on.
Qed.


(* ===================================================================== *)
(** * Properties of the replay fetcher and of the close tool *)
(* ===================================================================== *)

Section SessionClose.
Import SessionTool.

Implicit Types (context : Context) (env : ProcessEnv).
Implicit Types (network : string -> FetchResult).
Implicit Types (totals : StagehandReplayTokenUsageTotals).

Lemma addRecords_app input output time (xs ys : list UsageRecord) :
  addRecords input output time (xs ++ ys)
  = match addRecords input output time xs with
    | {| totalInputTokens := TotalNumber i;
         totalOutputTokens := TotalNumber o;
         totalTimeMs := t |} => addRecords i o t ys
    | other => other
    end.
Proof.
  unfold addRecords, numericTotals.
  by rewrite !fmap_app, omap_app, !foldl_app.
Qed.

(** One action of the expected shape adds its record, if it has one. *)
Lemma addAction_typed input output time action (found : option UsageRecord) :
  typedAction action = Some found ->
  addAction (numericTotals input output time) action
  = Ok (addRecords input output time (option_list found)).
Proof.
  unfold typedAction, addAction.
  destruct action as [| | | | |members]; try done. cbn [getProperty andThen].
  destruct (getMember "tokenUsage" members) as [usage|]; [|by intros [= <-]].
  destruct usage as [| | | | |usageMembers];
    try done; [by intros [= <-]|].
  unfold typedUsage. cbn [truthyJson getProperty andThen].
  destruct (getMember "inputTokens" usageMembers) as [[| |x| | |]|];
    try done.
  destruct (getMember "outputTokens" usageMembers) as [[| |y| | |]|];
    try done.
  intros [= <-]. cbn [plus andThen numericTotals totalInputTokens
    totalOutputTokens totalTimeMs].
  unfold addRecords, numericTotals.
  by destruct (getMember "timeMs" usageMembers) as [[| |ms| | |]|].
Qed.

Lemma addActions_typed actions input output time
    (found : list (option UsageRecord)) :
  readAll typedAction actions = Some found ->
  addActions actions (numericTotals input output time)
  = Ok (addRecords input output time (omap (fun usage => usage) found)).
Proof.
  revert input output time found.
  induction actions as [|action actions IH];
    intros input output time found; cbn [readAll addActions].
  - by intros [= <-].
  - destruct (typedAction action) as [first|] eqn:Haction; [|done].
    destruct (readAll typedAction actions) as [others|] eqn:Hothers; [|done].
    intros [= <-]. rewrite (addAction_typed _ _ _ _ first) by done.
    cbn [andThen]. unfold addRecords at 1.
    rewrite (IH _ _ _ others) by done.
    replace (omap (fun usage : option UsageRecord => usage) (first :: others))
      with (option_list first
              ++ omap (fun usage : option UsageRecord => usage) others)%list
      by (by destruct first).
    by rewrite addRecords_app.
Qed.

Lemma addPages_typed pages input output time
    (found : list (list UsageRecord)) :
  readAll typedPage pages = Some found ->
  addPages pages (numericTotals input output time)
  = Ok (addRecords input output time (concat found)).
Proof.
  revert input output time found.
  induction pages as [|page pages IH];
    intros input output time found; cbn [readAll addPages].
  - by intros [= <-].
  - destruct (typedPage page) as [first|] eqn:Hpage; [|done].
    destruct (readAll typedPage pages) as [others|] eqn:Hothers; [|done].
    intros [= <-]. unfold typedPage in Hpage.
    destruct page as [| | | | |members]; try done.
    cbn [getProperty andThen].
    destruct (getMember "actions" members) as [[| | | |actions|]|];
      try done.
    destruct (readAll typedAction actions) as [records|] eqn:Hactions;
      [|done].
    injection Hpage as <-. cbn [iterate andThen].
    rewrite (addActions_typed _ _ _ _ records) by done.
    cbn [andThen]. unfold addRecords at 1.
    rewrite (IH _ _ _ others) by done.
    cbn [concat]. by rewrite addRecords_app.
Qed.

(** On a payload of the expected shape the [try] block ends with the sums
    of the records. *)
Lemma aggregate_typed replayJson (records : list UsageRecord) :
  typedReplay replayJson = Some records ->
  aggregate (BodyJson replayJson)
  = Ok {| totalInputTokens := TotalNumber (sumOf (inputTokens <$> records));
          totalOutputTokens := TotalNumber (sumOf (outputTokens <$> records));
          totalTimeMs := sumOf (omap timeMs records) |}.
Proof.
  unfold typedReplay, aggregate.
  destruct replayJson as [| | | | |members]; try done.
  cbn [getProperty andThen].
  destruct (getMember "data" members) as [[| | | | |dataMembers]|]; try done.
  cbn [getProperty andThen].
  destruct (getMember "pages" dataMembers) as [[| | | |pages|]|]; try done.
  destruct (readAll typedPage pages) as [found|] eqn:Hpages; [|done].
  intros [= <-]. cbn [iterate andThen].
  apply (addPages_typed pages 0%float 0%float 0%float found Hpages).
Qed.

(** When the session is found and closed, the [try] block records the
    success before the replay is fetched, whatever the fetch does next. *)
Lemma tryCleanup_closed context env network session :
  getSession (getSessionManager context) (currentSessionId context)
  = Returned (Some session) ->
  stagehand session = true ->
  cleanupSession (getSessionManager context) (currentSessionId context)
  = Returned tt ->
  cleanupSuccessful (tryCleanup context env network) = true
  ∧ browserbaseSessionId (tryCleanup context env network)
    = Some (sessionId session).
Proof.
  intros Hget Hstagehand Hclean. unfold tryCleanup.
  rewrite Hget, Hstagehand, Hclean.
  destruct (truthy (sessionId session)); [|done].
  by destruct (fetchStagehandTokenUsageSummary _ _ _ _)
    as [lines [[totals|]|message]].
Qed.

Lemma fetchStagehandTokenUsageSummary_ends config env network
    (browserbaseSessionId : string) :
  snd (fetchStagehandTokenUsageSummary config env network
         browserbaseSessionId)
  = (if keysPresent config env then
       match network browserbaseSessionId with
       | FetchRejected message => Raised message
       | FetchResolved body =>
           match aggregate body with
           | Ok totals => Returned (Some totals)
           | Failed _ => Returned None
           end
       end
     else Returned None).
Proof.
  unfold fetchStagehandTokenUsageSummary, keysPresent.
  destruct (truthy_opt (browserbaseApiKey config)); simpl; [|done].
  destruct (truthy_opt (browserbaseProjectId config)); simpl; [|done].
  destruct (truthy_opt (or_opt _ _)); simpl; [|done].
  destruct (network browserbaseSessionId) as [message|body]; [done|].
  by destruct (aggregate body).
Qed.

(** C6, as the code has it.  The fetcher returns [null] without a request
    when a key is missing.  Otherwise, when the request is answered with a
    payload of the shape the interfaces of the source describe (an object
    with [data.pages], an array of page objects, each with an array
    [actions] of action objects, whose [tokenUsage], when present, has
    numbers as [inputTokens] and [outputTokens]), it returns totals in which
    [totalInputTokens] and [totalOutputTokens] are the sums of [inputTokens]
    and [outputTokens] over every action of every page that carries a
    [tokenUsage] record, and [totalTimeMs] is the sum of [timeMs] over the
    records where it is a number; the sums are taken in the order of the
    payload, in double arithmetic.  A body that is not JSON, or a payload
    on which a property read, a [for ... of] or an addition raises, gives
    [null].  A rejected request is not caught by the fetcher: it raises out
    of it.  In [handleCloseSession] the fetch runs after the session was
    closed, and whatever the network does, a rejection included, the action
    reports the session closed. *)
Theorem fetchStagehandTokenUsageSummary_totals config env network
    (browserbaseSessionId : string) :
  (keysPresent config env = false ->
   fetchStagehandTokenUsageSummary config env network browserbaseSessionId
   = ([SkippingReplay], Returned None))
  ∧ (∀ replayJson records,
       keysPresent config env = true ->
       network browserbaseSessionId = FetchResolved (BodyJson replayJson) ->
       typedReplay replayJson = Some records ->
       snd (fetchStagehandTokenUsageSummary config env network
              browserbaseSessionId)
       = Returned
           (Some {| totalInputTokens :=
                      TotalNumber (sumOf (inputTokens <$> records));
                    totalOutputTokens :=
                      TotalNumber (sumOf (outputTokens <$> records));
                    totalTimeMs := sumOf (omap timeMs records) |}))
  ∧ (∀ body cause,
       keysPresent config env = true ->
       network browserbaseSessionId = FetchResolved body ->
       aggregate body = Failed cause ->
       fetchStagehandTokenUsageSummary config env network browserbaseSessionId
       = ([ParseFailed cause], Returned None))
  ∧ (∀ message, aggregate (BodyNotJson message) = Failed (NotJson message))
  ∧ (∀ message,
       keysPresent config env = true ->
       network browserbaseSessionId = FetchRejected message ->
       snd (fetchStagehandTokenUsageSummary config env network
              browserbaseSessionId)
       = Raised message)
  ∧ (∀ context session,
       getSession (getSessionManager context) (currentSessionId context)
       = Returned (Some session) ->
       stagehand session = true ->
       cleanupSession (getSessionManager context) (currentSessionId context)
       = Returned tt ->
       snd (handleCloseSession context env network)
       = Returned
           (textResult
              (successMessage (currentSessionId context)
                 (getDefaultSessionId (getSessionManager context))
                 (Some (sessionId session))))).
Proof.
  split; [|split; [|split; [|split; [|split]]]].
  - unfold fetchStagehandTokenUsageSummary, keysPresent.
    destruct (truthy_opt (browserbaseApiKey config)); simpl; [|done].
    destruct (truthy_opt (browserbaseProjectId config)); simpl; [|done].
    by destruct (truthy_opt (or_opt _ _)).
  - intros replayJson records Hkeys Hnet Htyped.
    rewrite fetchStagehandTokenUsageSummary_ends, Hkeys, Hnet.
    by rewrite (aggregate_typed _ _ Htyped).
  - intros body cause Hkeys Hnet Hfail.
    unfold fetchStagehandTokenUsageSummary, keysPresent in *.
    destruct (truthy_opt (browserbaseApiKey config)); simpl in *; [|done].
    destruct (truthy_opt (browserbaseProjectId config)); simpl in *; [|done].
    destruct (truthy_opt (or_opt _ _)); simpl in *; [|done].
    by rewrite Hnet, Hfail.
  - done.
  - intros message Hkeys Hnet.
    by rewrite fetchStagehandTokenUsageSummary_ends, Hkeys, Hnet.
  - intros context session Hget Hstagehand Hclean.
    destruct (tryCleanup_closed context env network session
                Hget Hstagehand Hclean) as [Hok Hid].
    unfold handleCloseSession. rewrite Hok, Hid. simpl.
    by rewrite andb_false_r.
Qed.

(** On the sample payload: 130 input tokens, 25 output tokens, 700 ms; and
    the close tool reports success with the network down. *)
Lemma fetchStagehandTokenUsageSummary_totals_witness :
  snd (fetchStagehandTokenUsageSummary sampleConfig noEnv online "bb-123")
  = Returned (Some {| totalInputTokens := TotalNumber 130;
                      totalOutputTokens := TotalNumber 25;
                      totalTimeMs := 700 |})
  ∧ snd (handleCloseSession closingContext noEnv offline)
    = Returned
        (textResult
           (successMessage "s1" "default" (Some "bb-123"))).
Proof.
  split.
  - apply (proj1 (proj2 (fetchStagehandTokenUsageSummary_totals
                           sampleConfig noEnv online "bb-123"))
             sampleReplay
             [ {| inputTokens := 100; outputTokens := 20;
                  timeMs := Some 700%float |};
               {| inputTokens := 30; outputTokens := 5; timeMs := None |} ]);
      reflexivity.
  - apply (proj2 (proj2 (proj2 (proj2 (proj2
             (fetchStagehandTokenUsageSummary_totals
                sampleConfig noEnv offline "bb-123")))))
             closingContext liveSession);
      reflexivity.
Defined.

(** With the keys present and the request rejected, the fetcher raises
    instead of returning [null]. *)
Lemma fetch_rejection_is_raised :
  snd (fetchStagehandTokenUsageSummary sampleConfig noEnv offline "bb-123")
  = Raised "fetch failed"
  ∧ snd (fetchStagehandTokenUsageSummary sampleConfig noEnv offline "bb-123")
    ≠ Returned None.
Proof. split; [reflexivity | discriminate]. Qed.

(** Payloads that are not of the expected shape.  A [null] action makes the
    read of [action.tokenUsage] raise, and the fetcher returns [null]; a
    record without [inputTokens] gives the total [NaN]; a record whose
    [inputTokens] is a string turns the total into a string; an empty
    string in the place of [pages] is iterated as no pages at all; and the
    sum of [2^53] and [1] is [2^53]. *)
Example untyped_payloads :
  fetchStagehandTokenUsageSummary sampleConfig noEnv
    (answering
       (replayOf [ JObject [("actions", JArray [JNull])] ])) "bb-123"
  = ([ParseFailed (PropertyOfNullish "tokenUsage")], Returned None)
  ∧ snd (fetchStagehandTokenUsageSummary sampleConfig noEnv
           (answering
              (replayOf
                 [ JObject
                     [("actions",
                       JArray [actionWith [("outputTokens", JNumber 5)]])] ]))
           "bb-123")
    = Returned (Some {| totalInputTokens := TotalNumber PrimFloat.nan;
                        totalOutputTokens := TotalNumber 5;
                        totalTimeMs := 0 |})
  ∧ snd (fetchStagehandTokenUsageSummary sampleConfig noEnv
           (answering
              (replayOf
                 [ JObject
                     [("actions",
                       JArray [actionWith [("inputTokens", JString "12");
                                           ("outputTokens", JNumber 5)]])] ]))
           "bb-123")
    = Returned
        (Some {| totalInputTokens :=
                   TotalText [PieceNumber 0; PieceJson (JString "12")];
                 totalOutputTokens := TotalNumber 5;
                 totalTimeMs := 0 |})
  ∧ snd (fetchStagehandTokenUsageSummary sampleConfig noEnv
           (answering
              (JObject [("data", JObject [("pages", JString "")])]))
           "bb-123")
    = Returned (Some zeroTotals)
  ∧ snd (fetchStagehandTokenUsageSummary sampleConfig noEnv
           (answering
              (replayOf
                 [ JObject
                     [("actions",
                       JArray
                         [ actionWith
                             [("inputTokens", JNumber 9007199254740992);
                              ("outputTokens", JNumber 0)];
                           actionWith
                             [("inputTokens", JNumber 1);
                              ("outputTokens", JNumber 0)] ])] ]))
           "bb-123")
    = Returned (Some {| totalInputTokens := TotalNumber 9007199254740992;
                        totalOutputTokens := TotalNumber 0;
                        totalTimeMs := 0 |}).
Proof. repeat split; vm_compute; reflexivity. Qed.

(** C2, as the code has it.  The action of the close tool
    - returns the success message when the session is found and
      [cleanupSession] returns, whatever the replay fetch does;
    - returns an informational message when no session (or no Stagehand
      handle) is found;
    - throws [Failed to cleanup session ... Session context has been reset
      to default.] when [getSession] or [cleanupSession] raises an error
      with a non-empty message: the cleanup failure is logged and then
      surfaced to the caller (with an empty message it falls through to the
      informational message).
    In every case the last line written says that the session context was
    reset to default. *)
Theorem handleCloseSession_outcome context env network :
  let manager := getSessionManager context in
  let previous := currentSessionId context in
  let info :=
    Returned (textResult (infoMessage previous (getDefaultSessionId manager)))
  in
  snd (handleCloseSession context env network)
  = match getSession manager previous with
    | Raised message =>
        if truthy message then Raised (failureMessage previous message)
        else info
    | Returned None => info
    | Returned (Some session) =>
        if stagehand session then
          match cleanupSession manager previous with
          | Raised message =>
              if truthy message then Raised (failureMessage previous message)
              else info
          | Returned _ =>
              Returned
                (textResult
                   (successMessage previous (getDefaultSessionId manager)
                      (Some (sessionId session))))
          end
        else info
    end
  ∧ last (fst (handleCloseSession context env network))
    = Some (ContextReset (or_else previous "default/unknown"))
  ∧ (∀ message,
       snd (handleCloseSession context env network) = Raised message ->
       In (CleanupError (or_else previous "default/unknown")
             (cleanupErrorMessage (tryCleanup context env network)))
          (fst (handleCloseSession context env network))).
Proof.
  intros manager previous info. subst manager previous info.
  split; [|split].
  - unfold handleCloseSession, tryCleanup.
    destruct (getSession _ _) as [[session|]|message]; simpl.
    + destruct (stagehand session); simpl; [|done].
      destruct (cleanupSession _ _) as [[]|message]; simpl.
      * destruct (truthy (sessionId session)); simpl; [|done].
        destruct (fetchStagehandTokenUsageSummary _ _ _ _)
          as [lines [[totals|]|message]]; simpl;
          by rewrite ?andb_false_r.
      * rewrite andb_true_r. by destruct (truthy message).
    + done.
    + rewrite andb_true_r. by destruct (truthy message).
  - unfold handleCloseSession.
    destruct (_ && _); [|destruct (cleanupSuccessful _)]; simpl;
      apply last_snoc.
  - intros message. unfold handleCloseSession, tryCleanup.
    destruct (getSession _ _) as [[session|]|msg]; simpl.
    + destruct (stagehand session); simpl; [|done].
      destruct (cleanupSession _ _) as [[]|msg]; simpl.
      * destruct (truthy (sessionId session)); simpl; [|done].
        destruct (fetchStagehandTokenUsageSummary _ _ _ _)
          as [lines [[totals|]|msg]]; simpl;
          by rewrite ?andb_false_r.
      * intros _. destruct (truthy msg && true); by left.
    + done.
    + intros _. destruct (truthy msg && true); by left.
Qed.

(** With the session found and [cleanupSession] raising, the action throws:
    the caller gets a tool failure, not a success or informational
    result. *)
Lemma handleCloseSession_surfaces_cleanup_failure :
  snd (handleCloseSession failingContext noEnv offline)
  = Raised "Failed to cleanup session (session ID was s1). Error: close failed. Session context has been reset to default."
  ∧ ¬ (∃ result,
         snd (handleCloseSession failingContext noEnv offline)
         = Returned result).
Proof.
  split; [reflexivity|]. intros [result Hresult]. discriminate Hresult.
Qed.

End SessionClose.


(* ===================================================================== *)
(** * Further properties of the usage meter *)
(* ===================================================================== *)

Section UsageMeterMore.
Import Usage.

Implicit Types (u : UsageState) (key : StagehandUsageKey).
Implicit Types (stats : StagehandOperationStats).
Implicit Types (calls : list StagehandUsageKey).

(** *** Per-tool counts add up to the call count *)

Lemma toolSum_insert_fresh (tool : string) (value : Count)
    (m : gmap string Count) :
  m !! tool = None ->
  map_fold (fun (_ : string) (v : Count) (acc : nat) =>
              countOf (Some v) + acc) 0 (<[tool := value]> m)
  = countOf (Some value)
    + map_fold (fun (_ : string) (v : Count) (acc : nat) =>
                  countOf (Some v) + acc) 0 m.
Proof.
  intros Hnone. rewrite map_fold_insert_L; [done | | done].
  intros; lia.
Qed.

Lemma toolSum_insert (tool : string) (value : Count) (m : gmap string Count) :
  map_fold (fun (_ : string) (v : Count) (acc : nat) =>
              countOf (Some v) + acc) 0 (<[tool := value]> m)
    + countOf (m !! tool)
  = countOf (Some value)
    + map_fold (fun (_ : string) (v : Count) (acc : nat) =>
                  countOf (Some v) + acc) 0 m.
Proof.
  destruct (m !! tool) as [old|] eqn:Hold.
  - rewrite <- (insert_delete_eq m).
    rewrite toolSum_insert_fresh by apply lookup_delete_eq.
    rewrite <- (insert_delete_id m tool old) at 2 by done.
    rewrite toolSum_insert_fresh by apply lookup_delete_eq. lia.
  - rewrite toolSum_insert_fresh by done. simpl. lia.
Qed.

Lemma balanced_newStats : balanced newStats.
Proof.
  split; [apply numeric_newStats|].
  unfold toolCountSum; simpl. by rewrite map_fold_empty.
Qed.

Lemma balanced_bumpOwn tool stats :
  balanced stats -> balanced (bumpOwn tool stats).
Proof.
  intros [Hn Hb]. split; [by apply numeric_bumpOwn|].
  unfold toolCountSum in *. cbn [bumpOwn toolCallCounts callCount].
  pose proof (toolSum_insert tool
                (plusOne (default (CountNumber 0)
                            (toolCallCounts stats !! tool)))
                (toolCallCounts stats)) as Hsum.
  assert (countOf (Some (plusOne (default (CountNumber 0)
                                    (toolCallCounts stats !! tool))))
          = countOf (toolCallCounts stats !! tool) + 1) as Hone.
  { destruct (toolCallCounts stats !! tool) as [old|] eqn:Hold; simpl;
      [|done].
    by destruct (Hn tool old Hold) as [n ->]. }
  lia.
Qed.

Lemma allBalanced_empty : allBalanced emptyUsage.
Proof.
  split.
  - intros op stats. simpl. by rewrite lookup_empty.
  - intros sid op stats. unfold sessionStats; simpl. by rewrite lookup_empty.
Qed.

Lemma allBalanced_record key u :
  allBalanced u -> allBalanced (recordOwn key u).
Proof.
  intros [Hg Hs]. split.
  - intros op stats. rewrite lookup_globalUsage_record. case_decide.
    + intros [= <-]. apply balanced_bumpOwn.
      destruct (globalUsage u !! op) as [old|] eqn:Hold; simpl;
        [by eapply Hg | apply balanced_newStats].
    + apply Hg.
  - intros sid op stats. rewrite sessionStats_record.
    case_decide as Hk.
    + intros [= <-]. apply balanced_bumpOwn.
      destruct (sessionStats u sid op) as [old|] eqn:Hold; simpl;
        [by eapply Hs | apply balanced_newStats].
    + apply Hs.
Qed.

(** X1.  In every state reached from the empty one by calls of
    [recordStagehandCall] whose session ids, tool names and operations name
    no member of [Object.prototype], every bucket, global or of a session,
    holds numbers as per-tool counts, and its call count is their sum. *)
Theorem reachable_buckets_balanced calls :
  Forall (ordinary false) calls ->
  allBalanced (recordAll calls emptyUsage).
Proof.
  intros Hcalls.
  destruct (reached_by_ordinary_calls calls Hcalls) as (-> & _ & _).
  clear Hcalls. induction calls as [|key calls IH] using rev_ind.
  - apply allBalanced_empty.
  - rewrite recordAllOwn_snoc. by apply allBalanced_record.
Qed.

Lemma reachable_buckets_balanced_witness :
  allBalanced (recordAll sampleCalls emptyUsage).
Proof.
  apply (reachable_buckets_balanced sampleCalls).
  repeat constructor.
Defined.

(** *** Counters count calls *)

Lemma countCalls_snoc (p : StagehandUsageKey -> bool) calls key :
  countCalls p (calls ++ [key])
  = countCalls p calls + (if p key then 1 else 0).
Proof.
  unfold countCalls. rewrite List.filter_app, length_app. simpl.
  by destruct (p key).
Qed.

Lemma bool_decide_indicator (P : Prop) `{Decision P} :
  (if bool_decide P then 1 else 0) = (if decide P then 1 else 0).
Proof. by destruct (decide P); [rewrite bool_decide_true|rewrite bool_decide_false]. Qed.

Lemma counters_recordAllOwn calls (sid op tool : string) :
  let u := recordAllOwn calls emptyUsage in
  globalCallCount u op
  = countCalls (fun key => bool_decide (op = operation key)) calls
  ∧ globalToolCount u op tool
    = countCalls (fun key => bool_decide (op = operation key
                                          ∧ tool = toolName key)) calls
  ∧ sessionCallCount u sid op
    = countCalls (fun key => bool_decide (sid = sessionId key
                                          ∧ op = operation key)) calls
  ∧ sessionToolCount u sid op tool
    = countCalls (fun key => bool_decide (sid = sessionId key
                                          ∧ op = operation key
                                          ∧ tool = toolName key)) calls.
Proof.
  induction calls as [|key calls IH] using rev_ind.
  - cbn. unfold globalCallCount, globalToolCount, sessionCallCount,
      sessionToolCount, sessionStats; simpl. by rewrite !lookup_empty.
  - cbn zeta in *. destruct IH as (IH1 & IH2 & IH3 & IH4).
    rewrite recordAllOwn_snoc, !countCalls_snoc, !bool_decide_indicator.
    rewrite globalCallCount_record, globalToolCount_record,
      sessionCallCount_record, sessionToolCount_record
      by apply allNumeric_recordAllOwn, allNumeric_empty.
    by rewrite IH1, IH2, IH3, IH4.
Qed.

(** X2.  After a sequence of calls from the empty state whose session ids,
    tool names and operations name no member of [Object.prototype], each
    counter is the number of calls it stands for: the global call count of
    [op] is the number of calls with that operation, the global count of
    [tool] under [op] the number of calls with that operation and tool, and
    likewise for the two counters of the bucket of [op] in session [sid]. *)
Theorem counters_count_calls calls (sid op tool : string) :
  Forall (ordinary false) calls ->
  let u := recordAll calls emptyUsage in
  globalCallCount u op
  = countCalls (fun key => bool_decide (op = operation key)) calls
  ∧ globalToolCount u op tool
    = countCalls (fun key => bool_decide (op = operation key
                                          ∧ tool = toolName key)) calls
  ∧ sessionCallCount u sid op
    = countCalls (fun key => bool_decide (sid = sessionId key
                                          ∧ op = operation key)) calls
  ∧ sessionToolCount u sid op tool
    = countCalls (fun key => bool_decide (sid = sessionId key
                                          ∧ op = operation key
                                          ∧ tool = toolName key)) calls.
Proof.
  intros Hcalls u. subst u.
  destruct (reached_by_ordinary_calls calls Hcalls) as (-> & _ & _).
  apply counters_recordAllOwn.
Qed.

Lemma counters_count_calls_witness :
  let u := recordAll sampleCalls emptyUsage in
  globalCallCount u "nav" = 3
  ∧ globalToolCount u "nav" "navigate" = 3
  ∧ sessionCallCount u "s1" "nav" = 3
  ∧ sessionToolCount u "s1" "nav" "navigate" = 3.
Proof.
  apply (counters_count_calls sampleCalls "s1" "nav" "navigate").
  repeat constructor.
Defined.

(** *** The order of the calls does not matter *)

Lemma bumpOwn_comm tool1 tool2 stats :
  bumpOwn tool1 (bumpOwn tool2 stats) = bumpOwn tool2 (bumpOwn tool1 stats).
Proof.
  unfold bumpOwn; simpl. f_equal.
  destruct (decide (tool1 = tool2)) as [->|Hne]; [done|].
  rewrite !lookup_insert_ne by done. by apply insert_insert_ne.
Qed.

Lemma lookup_bumpInOwn (container : gmap string StagehandOperationStats)
    op tool i :
  bumpInOwn container op tool !! i
  = if decide (i = op)
    then Some (bumpOwn tool (default newStats (container !! i)))
    else container !! i.
Proof.
  case_decide as Hi.
  - subst i. apply lookup_bumpInOwn_eq.
  - by apply lookup_bumpInOwn_ne.
Qed.

Lemma bumpInOwn_comm (container : gmap string StagehandOperationStats)
    op1 tool1 op2 tool2 :
  bumpInOwn (bumpInOwn container op2 tool2) op1 tool1
  = bumpInOwn (bumpInOwn container op1 tool1) op2 tool2.
Proof.
  apply map_eq; intros i. rewrite !lookup_bumpInOwn.
  destruct (decide (i = op1)) as [H1|H1];
    destruct (decide (i = op2)) as [H2|H2]; simpl; try done.
  by rewrite bumpOwn_comm.
Qed.

Lemma sessionObject_record key u sid :
  sessionObject (recordOwn key u) sid
  = if decide (sid = sessionId key)
    then {| operations :=
              bumpInOwn (operations (sessionObject u sid)) (operation key)
                (toolName key) |}
    else sessionObject u sid.
Proof.
  unfold sessionObject at 1. rewrite perSessionUsage_record.
  case_decide as Hs.
  - subst sid. by rewrite lookup_insert_eq.
  - by rewrite lookup_insert_ne.
Qed.

Lemma perSessionUsage_record_twice key1 key2 u :
  perSessionUsage (recordOwn key1 (recordOwn key2 u))
  = <[sessionId key1 :=
        {| operations :=
             bumpInOwn
               (operations
                  (if decide (sessionId key1 = sessionId key2)
                   then {| operations :=
                             bumpInOwn
                               (operations (sessionObject u (sessionId key1)))
                               (operation key2) (toolName key2) |}
                   else sessionObject u (sessionId key1)))
               (operation key1) (toolName key1) |}]>
      (<[sessionId key2 :=
           {| operations :=
                bumpInOwn (operations (sessionObject u (sessionId key2)))
                  (operation key2) (toolName key2) |}]>
         (perSessionUsage u)).
Proof.
  by rewrite perSessionUsage_record, sessionObject_record,
    perSessionUsage_record.
Qed.

Lemma recordOwn_comm key1 key2 u :
  recordOwn key1 (recordOwn key2 u) = recordOwn key2 (recordOwn key1 u).
Proof.
  assert (∀ a b : UsageState,
            globalUsage a = globalUsage b ->
            perSessionUsage a = perSessionUsage b ->
            prototypeCallCount a = prototypeCallCount b -> a = b) as Hext.
  { intros [] []; simpl; congruence. }
  apply Hext; [| |done].
  - rewrite !globalUsage_record. apply bumpInOwn_comm.
  - rewrite !perSessionUsage_record_twice.
    destruct (decide (sessionId key1 = sessionId key2)) as [Heq|Hne].
    + rewrite decide_True by done. rewrite Heq, !insert_insert_eq.
      simpl. by rewrite bumpInOwn_comm.
    + rewrite decide_False by done. by apply insert_insert_ne.
Qed.

Lemma recordAllOwn_perm calls calls' u :
  Permutation calls calls' -> recordAllOwn calls u = recordAllOwn calls' u.
Proof.
  intros Hperm. revert u.
  induction Hperm as [|key l l' _ IH|key1 key2 l|l1 l2 l3 _ IH1 _ IH2];
    intros u.
  - done.
  - apply IH.
  - unfold recordAllOwn; simpl. by rewrite recordOwn_comm.
  - by rewrite IH1.
Qed.

(** X3.  For calls whose session ids, tool names and operations name no
    inherited member, the state after a sequence of calls depends on which
    calls were made and how often, not on their order: two such sequences
    that are permutations of one another lead from any state to the same
    state.  (It does not hold for all keys: after a call with operation
    [__proto__], a call with tool name [callCount] stores [NaN], and in the
    other order it stores 1.) *)
Theorem recordAll_order_irrelevant calls calls' u :
  Forall (ordinary (prototypeCallCount u)) calls ->
  Permutation calls calls' -> recordAll calls u = recordAll calls' u.
Proof.
  intros Hcalls Hperm.
  rewrite !recordAll_ordinary; [by apply recordAllOwn_perm | | done].
  by rewrite <- Hperm.
Qed.

Lemma recordAll_order_irrelevant_witness :
  recordAll [navCall; extractCall; navCall] emptyUsage
  = recordAll [extractCall; navCall; navCall] emptyUsage.
Proof.
  apply (recordAll_order_irrelevant [navCall; extractCall; navCall]
           [extractCall; navCall; navCall] emptyUsage).
  - repeat constructor.
  - apply perm_swap.
Defined.

(** *** Which buckets exist *)

Lemma dom_bumpInOwn (container : gmap string StagehandOperationStats)
    op tool :
  dom (bumpInOwn container op tool) = {[ op ]} ∪ dom container.
Proof. unfold bumpInOwn. by rewrite dom_insert_L. Qed.

(** X4.  After a sequence of calls from the empty state whose session ids,
    tool names and operations name no member of [Object.prototype], the
    keys of the global map are exactly the operations that were recorded,
    and the keys of the per-session map are exactly the session ids that
    recorded something. *)
Theorem recorded_keys calls :
  Forall (ordinary false) calls ->
  dom (globalUsage (recordAll calls emptyUsage))
  = list_to_set (operation <$> calls)
  ∧ dom (perSessionUsage (recordAll calls emptyUsage))
    = list_to_set (sessionId <$> calls).
Proof.
  intros Hcalls.
  destruct (reached_by_ordinary_calls calls Hcalls) as (-> & _ & _).
  clear Hcalls. induction calls as [|key calls [IHg IHs]] using rev_ind.
  - simpl. by rewrite !dom_empty_L.
  - rewrite recordAllOwn_snoc, !fmap_app, !list_to_set_app_L. split.
    + rewrite globalUsage_record, dom_bumpInOwn, IHg. simpl.
      rewrite union_empty_r_L. apply union_comm_L.
    + rewrite perSessionUsage_record, dom_insert_L, IHs. simpl.
      rewrite union_empty_r_L. apply union_comm_L.
Qed.

Lemma recorded_keys_witness :
  dom (globalUsage (recordAll sampleCalls emptyUsage))
  = list_to_set (operation <$> sampleCalls)
  ∧ dom (perSessionUsage (recordAll sampleCalls emptyUsage))
    = list_to_set (sessionId <$> sampleCalls).
Proof.
  apply (recorded_keys sampleCalls).
  repeat constructor.
Defined.

End UsageMeterMore.

(* ===================================================================== *)
(** * Further properties of the logging revision and of the usage tool *)
(* ===================================================================== *)

Section MetricsLoggingMore.
Import Usage UsageLogged.

Lemma logStagehandMetrics_lineOf args (console : list MetricsLine) :
  logStagehandMetrics (stagehand args) (argKey args) console
  = (console ++ option_list (lineOf args))%list.
Proof.
  unfold logStagehandMetrics, lineOf.
  destruct (stagehand args) as [[[m|]]|]; simpl; by rewrite ?app_nil_r.
Qed.

(** X5.  A sequence of calls of the logging revision whose session ids,
    tool names and operations name no inherited member leaves the usage
    state that the plain revision reaches on the same keys, and appends to
    the console, in call order, one line for each call that carried metrics
    and nothing for the others. *)
Theorem recordAllLogged_usage_and_console (calls : list Args)
    (u : UsageState) (console : list MetricsLine) :
  Forall (ordinary (prototypeCallCount u)) (argKey <$> calls) ->
  recordAllLogged calls (u, console)
  = (recordAll (argKey <$> calls) u, (console ++ omap lineOf calls)%list).
Proof.
  revert u console. induction calls as [|args calls IH];
    intros u console Hcalls.
  - simpl. by rewrite app_nil_r.
  - rewrite fmap_cons in Hcalls. apply Forall_cons in Hcalls as [Hkey Hcalls].
    unfold recordAllLogged in *. cbn [foldl fmap list_fmap].
    rewrite recordStagehandCall_logged.
    unfold recordAll; cbn [foldl].
    rewrite (recordStagehandCall_ordinary _ _ Hkey). cbn [fst].
    rewrite IH by exact Hcalls.
    rewrite logStagehandMetrics_lineOf. unfold recordAll.
    f_equal. rewrite <- app_assoc. f_equal.
    cbn [omap list_omap]. by destruct (lineOf args).
Qed.

Lemma recordAllLogged_usage_and_console_witness :
  recordAllLogged
    [ {| argKey := navCall;
         stagehand := Some {| metrics := Some [("inputTokens", 12%Z)] |} |};
      {| argKey := extractCall; stagehand := None |} ]
    (emptyUsage, [])
  = (recordAll [navCall; extractCall] emptyUsage,
     [ {| source := "stagehand-mcp"; event := "stagehand_metrics";
          key := navCall; lineMetrics := [("inputTokens", 12%Z)] |} ]).
Proof.
  apply (recordAllLogged_usage_and_console
           [ {| argKey := navCall;
                stagehand :=
                  Some {| metrics := Some [("inputTokens", 12%Z)] |} |};
             {| argKey := extractCall; stagehand := None |} ]
           emptyUsage []).
  repeat constructor.
Defined.

End MetricsLoggingMore.

Section UsageStatsMore.
Import Usage UsageTool.

(** X6.  With a non-empty [sessionId] that names no inherited member, and
    scope [perSession] or [all], the per-session part of the text has
    exactly one entry, the one of that session id, holding the counters that
    session had when the tool was called: no other session is shown, and,
    unlike the parts that refer to the live objects, this entry is the same
    with and without [reset]. *)
Theorem handleUsage_shows_only_requested_session
    (u : UsageState) (params : UsageInput) (sid : string) :
  sessionId params = Some sid ->
  truthy sid = true ->
  inherited (prototypeCallCount u) sid = None ->
  scope params ≠ Some ScopeGlobal ->
  outPerSession (snd (handleUsage params u))
  = Some {[ sid := TextSession (sessionObject u sid) ]}
  ∧ outPerSession (snd (handleUsage params u))
    = outPerSession (viewOf params u).
Proof.
  intros Hsid Htruthy Hown Hscope.
  unfold handleUsage, viewOf, buildResult, sessionOrEmpty, sessionObject;
    simpl.
  rewrite Hsid; simpl. rewrite Htruthy, Hown.
  destruct (scope params) as [[]|]; try done;
    by destruct (perSessionUsage u !! sid).
Qed.

Lemma handleUsage_shows_only_requested_session_witness :
  outPerSession
    (snd (handleUsage
            {| sessionId := Some "s1"; scope := Some ScopeAll;
               reset := Some true |} sampleUsage))
  = Some {[ "s1" := TextSession (sessionObject sampleUsage "s1") ]}
  ∧ outPerSession
      (snd (handleUsage
              {| sessionId := Some "s1"; scope := Some ScopeAll;
                 reset := Some true |} sampleUsage))
    = outPerSession
        (viewOf {| sessionId := Some "s1"; scope := Some ScopeAll;
                   reset := Some true |} sampleUsage).
Proof.
  apply (handleUsage_shows_only_requested_session sampleUsage
           {| sessionId := Some "s1"; scope := Some ScopeAll;
              reset := Some true |} "s1").
  - reflexivity.
  - reflexivity.
  - reflexivity.
  - discriminate.
Defined.

End UsageStatsMore.

(* ===================================================================== *)
(** * Further properties of the screenshot store *)
(* ===================================================================== *)

Section ScreenshotStoreMore.
Import Resources.

Implicit Types (st : Store) (sid : string).

(** *** Invariants of every sequence of calls *)

Lemma registeredUnder_register sid name base64 st sid' name' :
  registeredUnder (registerScreenshot sid name base64 st) sid' name'
  <-> (sid' = sid ∧ name' = name) ∨ registeredUnder st sid' name'.
Proof.
  unfold registeredUnder. rewrite index_register. split.
  - intros (set & Hset & Hin). rewrite lookup_insert in Hset.
    destruct (decide (sid = sid')) as [<-|Hne].
    + injection Hset as <-. apply elem_of_union in Hin as [Hin|Hin].
      * right. destruct (sessionIdToScreenshotNames st !! sid) as [old|];
          [by exists old | by apply not_elem_of_empty in Hin].
      * left. by apply elem_of_singleton in Hin.
    + right. by exists set.
  - intros [[-> ->]|(set & Hset & Hin)].
    + eexists. rewrite lookup_insert_eq. split; [done|].
      apply elem_of_union; right. by apply elem_of_singleton.
    + destruct (decide (sid = sid')) as [<-|Hne].
      * eexists. rewrite lookup_insert_eq. split; [done|].
        rewrite Hset. simpl. by apply elem_of_union; left.
      * exists set. by rewrite lookup_insert_ne.
Qed.

Lemma registeredUnder_clear sid st sid' name' :
  registeredUnder (clearScreenshotsForSession sid st) sid' name'
  <-> sid' ≠ sid ∧ registeredUnder st sid' name'.
Proof.
  unfold registeredUnder, clearScreenshotsForSession.
  destruct (sessionIdToScreenshotNames st !! sid) as [set0|] eqn:Hsid; simpl.
  - split.
    + intros (set & Hset & Hin). apply lookup_delete_Some in Hset as [Hne Hset].
      split; [done | by exists set].
    + intros (Hne & set & Hset & Hin). exists set.
      by rewrite lookup_delete_ne.
  - split.
    + intros (set & Hset & Hin). split; [|by exists set].
      intros ->. by rewrite Hsid in Hset.
    + by intros [_ H].
Qed.

Lemma screenshots_clear sid st name' :
  screenshots (clearScreenshotsForSession sid st) !! name'
  = if decide (registeredUnder st sid name') then None
    else screenshots st !! name'.
Proof.
  destruct (decide (registeredUnder st sid name')) as [Hreg|Hreg];
    unfold clearScreenshotsForSession.
  - destruct Hreg as (set & Hset & Hin). rewrite Hset. simpl.
    rewrite lookup_deleteNames, decide_True; [done|].
    by apply elem_of_elements.
  - destruct (sessionIdToScreenshotNames st !! sid) as [set|] eqn:Hsid;
      [|done].
    simpl. rewrite lookup_deleteNames, decide_False; [done|].
    intros Hin. apply Hreg. exists set. split; [done|].
    by apply elem_of_elements.
Qed.

Lemma allOwned_runCall call st : allOwned st -> allOwned (runCall call st).
Proof.
  intros Hown name'. destruct call as [sid name base64|sid|]; simpl.
  - intros Hstored. rewrite lookup_insert in Hstored.
    destruct (decide (name = name')) as [<-|Hne].
    + exists sid. apply registeredUnder_register. by left.
    + destruct (Hown name' Hstored) as [sid' Hreg].
      exists sid'. apply registeredUnder_register. by right.
  - rewrite screenshots_clear. case_decide as Hreg.
    + by intros [? ?].
    + intros Hstored. destruct (Hown name' Hstored) as [sid' Hreg'].
      exists sid'. apply registeredUnder_clear. split; [|done].
      by intros ->.
  - rewrite lookup_empty. by intros [? ?].
Qed.

Lemma noEmptySets_runCall call st :
  noEmptySets st -> noEmptySets (runCall call st).
Proof.
  intros Hne sid' set. destruct call as [sid name base64|sid|]; cbn [runCall].
  - rewrite index_register, lookup_insert.
    destruct (decide (sid = sid')) as [<-|Hsid]; [|apply Hne].
    intros [= <-] Hempty.
    assert (name ∈ (∅ : gset string)) as Hin
      by (rewrite <- Hempty; apply elem_of_union; right;
          by apply elem_of_singleton).
    by apply not_elem_of_empty in Hin.
  - unfold clearScreenshotsForSession.
    destruct (sessionIdToScreenshotNames st !! sid) as [set0|] eqn:Hsid;
      simpl; [|apply Hne].
    intros Hset. apply lookup_delete_Some in Hset as [_ Hset].
    by eapply Hne.
  - simpl. by rewrite lookup_empty.
Qed.

(** X7.  After any sequence of [registerScreenshot],
    [clearScreenshotsForSession] and [clearAllScreenshots] calls on the
    empty store, every stored screenshot is on file under some session, so
    that purging the sessions can reach it, and no session has an empty set
    of names on file. *)
Theorem every_screenshot_has_an_owner (calls : list StoreCall) :
  allOwned (runCalls calls emptyStore)
  ∧ noEmptySets (runCalls calls emptyStore).
Proof.
  induction calls as [|call calls [IHo IHn]] using rev_ind.
  - split.
    + intros name'. simpl. rewrite lookup_empty. by intros [? ?].
    + intros sid' set. simpl. by rewrite lookup_empty.
  - unfold runCalls in *. rewrite foldl_app. simpl. split.
    + by apply allOwned_runCall.
    + by apply noEmptySets_runCall.
Qed.

(** *** Stores in which names are not shared *)

Lemma singleOwner_clear sid st :
  singleOwner st -> singleOwner (clearScreenshotsForSession sid st).
Proof.
  intros Hown s1 s2 set1 set2 name' H1 H2 Hin1 Hin2.
  assert (registeredUnder (clearScreenshotsForSession sid st) s1 name')
    as Hr1 by (by exists set1).
  assert (registeredUnder (clearScreenshotsForSession sid st) s2 name')
    as Hr2 by (by exists set2).
  apply registeredUnder_clear in Hr1 as [_ (a & Ha & Hina)].
  apply registeredUnder_clear in Hr2 as [_ (b & Hb & Hinb)].
  by eapply Hown.
Qed.

Lemma allStored_register sid name base64 st :
  allStored st -> allStored (registerScreenshot sid name base64 st).
Proof.
  intros Hst sid' name' Hreg. simpl. rewrite lookup_insert.
  destruct (decide (name = name')) as [<-|Hne]; [done|].
  apply registeredUnder_register in Hreg as [[_ ->]|Hreg]; [done|].
  by eapply Hst.
Qed.

Lemma allStored_clear sid st :
  singleOwner st -> allStored st ->
  allStored (clearScreenshotsForSession sid st).
Proof.
  intros Hown Hst sid' name' Hreg.
  apply registeredUnder_clear in Hreg as [Hne Hreg].
  rewrite screenshots_clear. case_decide as Hreg'.
  - destruct Hne.
    destruct Hreg as (a & Ha & Hina), Hreg' as (b & Hb & Hinb).
    by eapply Hown.
  - by eapply Hst.
Qed.

(** X8.  In a store built by calls that register a screenshot only under a
    name no other session has on file, every name belongs to at most one
    session and the screenshots map and the per-session index agree: a name
    is stored exactly when some session has it on file. *)
Theorem own_names_keep_store_and_index_in_step st :
  builtWithOwnNames st ->
  singleOwner st
  ∧ (∀ name', is_Some (screenshots st !! name')
              <-> ∃ sid, registeredUnder st sid name').
Proof.
  intros Hbuilt.
  assert (singleOwner st ∧ allStored st ∧ allOwned st) as (H1 & H2 & H3).
  { induction Hbuilt as [|sid name base64 st _ (I1 & I2 & I3) Hfree
                         |sid st _ (I1 & I2 & I3)|st _ _].
    - split; [apply singleOwner_empty|]. split.
      + intros sid' name' (set & Hset & _). simpl in Hset.
        by rewrite lookup_empty in Hset.
      + intros name'. simpl. rewrite lookup_empty. by intros [? ?].
    - split; [by apply singleOwner_register|].
      split; [by apply allStored_register|].
      apply (allOwned_runCall (CallRegister sid name base64)), I3.
    - split; [by apply singleOwner_clear|].
      split; [by apply allStored_clear|].
      apply (allOwned_runCall (CallClear sid)), I3.
    - split; [apply singleOwner_empty|]. split.
      + intros sid' name' (set & Hset & _). simpl in Hset.
        by rewrite lookup_empty in Hset.
      + intros name'. simpl. rewrite lookup_empty. by intros [? ?]. }
  split; [done|]. intros name'. split; [apply H3|].
  intros [sid Hreg]. by eapply H2.
Qed.

Lemma builtWithOwnNames_sampleStore : builtWithOwnNames sampleStore.
Proof.
  unfold sampleStore.
  repeat (apply built_register; [|]); [apply built_empty| | |];
    intros s' set; rewrite ?index_register; simpl;
    rewrite ?lookup_insert, ?lookup_empty;
    repeat (match goal with
            | |- context [decide (?a = ?b)] =>
                destruct (decide (a = b)) as [?|?]; subst
            end);
    simpl; try done; intros [= <-];
    rewrite ?elem_of_union, ?elem_of_singleton, ?elem_of_empty;
    intuition discriminate.
Qed.

Lemma own_names_keep_store_and_index_in_step_witness :
  singleOwner sampleStore
  ∧ (∀ name', is_Some (screenshots sampleStore !! name')
              <-> ∃ sid, registeredUnder sampleStore sid name').
Proof.
  apply (own_names_keep_store_and_index_in_step sampleStore).
  apply builtWithOwnNames_sampleStore.
Defined.

(** X9.  When two different sessions register a screenshot under the same
    name, the second payload replaces the first, and purging the first
    session removes the screenshot although the second session still has
    the name on file. *)
Theorem shared_name_is_purged_with_first_session
    st (s1 s2 name' base1 base2 : string) :
  s1 ≠ s2 ->
  let shared :=
    registerScreenshot s2 name' base2
      (registerScreenshot s1 name' base1 st) in
  screenshots shared !! name' = Some base2
  ∧ screenshots (clearScreenshotsForSession s1 shared) !! name' = None
  ∧ registeredUnder (clearScreenshotsForSession s1 shared) s2 name'.
Proof.
  intros Hne shared.
  assert (registeredUnder shared s1 name') as Hr1.
  { apply registeredUnder_register. right.
    apply registeredUnder_register. by left. }
  assert (registeredUnder shared s2 name') as Hr2.
  { apply registeredUnder_register. by left. }
  split; [|split].
  - subst shared. simpl. apply lookup_insert_eq.
  - rewrite screenshots_clear. by rewrite decide_True.
  - apply registeredUnder_clear. split; [by intros ->|done].
Qed.

Lemma shared_name_is_purged_with_first_session_witness :
  let shared :=
    registerScreenshot "s2" "a.png" "Qg=="
      (registerScreenshot "s1" "a.png" "QQ==" emptyStore) in
  screenshots shared !! "a.png" = Some "Qg=="
  ∧ screenshots (clearScreenshotsForSession "s1" shared) !! "a.png" = None
  ∧ registeredUnder (clearScreenshotsForSession "s1" shared) "s2" "a.png".
Proof.
  apply (shared_name_is_purged_with_first_session emptyStore "s1" "s2"
           "a.png" "QQ==" "Qg==").
  discriminate.
Defined.

(** *** Reading resources *)

Lemma string_app_cons c (s t : string) : String c s ++ t = String c (s ++ t).
Proof. reflexivity. Qed.

Lemma string_app_nil_r (s : string) : s ++ "" = s.
Proof.
  induction s as [|c s IH]; [done|]. by rewrite string_app_cons, IH.
Qed.

Lemma string_app_assoc (a b c : string) : (a ++ b) ++ c = a ++ (b ++ c).
Proof.
  induction a as [|x a IH]; [done|]. by rewrite !string_app_cons, IH.
Qed.

(** A string without the separator is a single piece. *)
Lemma splitFrom_no_separator (piece s : string) :
  occursIn "://" s = false -> splitFrom "://" 0 piece s = [piece ++ s].
Proof.
  revert piece. induction s as [|c s IH]; intros piece Hno.
  - cbn [splitFrom]. by rewrite string_app_nil_r.
  - cbn [occursIn] in Hno. apply orb_false_elim in Hno as [Hhere Hlater].
    cbn [splitFrom]. rewrite Hhere, IH by done.
    by rewrite string_app_assoc.
Qed.

(** The separator does not start inside a string that does not contain it,
    even when the separator follows that string. *)
Lemma string_app_nil_l (s : string) : "" ++ s = s.
Proof. reflexivity. Qed.

Lemma no_separator_across (x y : string) :
  occursIn "://" x = false ->
  x ≠ "" ->
  String.prefix "://" (x ++ "://" ++ y) = false.
Proof.
  intros Hno Hx.
  rewrite (string_app_cons _ _ y), (string_app_cons _ _ y),
    (string_app_cons _ _ y), string_app_nil_l.
  destruct x as [|c1 x]; [done|].
  rewrite string_app_cons. cbn [String.prefix].
  match goal with
  | |- context [Ascii.ascii_dec ?a c1] =>
      destruct (Ascii.ascii_dec a c1) as [<-|]; [|done]
  end.
  destruct x as [|c2 x]; [done|].
  rewrite string_app_cons. cbn [String.prefix].
  match goal with
  | |- context [Ascii.ascii_dec ?a c2] =>
      destruct (Ascii.ascii_dec a c2) as [<-|]; [|done]
  end.
  destruct x as [|c3 x]; [done|].
  rewrite string_app_cons. cbn [String.prefix].
  match goal with
  | |- context [Ascii.ascii_dec ?a c3] =>
      destruct (Ascii.ascii_dec a c3) as [<-|]; [|done]
  end.
  cbn in Hno. by destruct x.
Qed.

Lemma occursIn_tail c (x : string) :
  occursIn "://" (String c x) = false -> occursIn "://" x = false.
Proof. cbn [occursIn]. intros H. by apply orb_false_elim in H as [_ H]. Qed.

Lemma splitFrom_at_separator (piece y : string) :
  splitFrom "://" 0 piece ("://" ++ y) = piece :: splitFrom "://" 0 "" y.
Proof. by destruct y. Qed.

(** The first piece ends at the first separator. *)
Lemma splitFrom_first_separator (piece x y : string) :
  occursIn "://" x = false ->
  splitFrom "://" 0 piece (x ++ "://" ++ y)
  = (piece ++ x) :: splitFrom "://" 0 "" y.
Proof.
  revert piece. induction x as [|c x IH]; intros piece Hno.
  - by rewrite string_app_nil_l, splitFrom_at_separator, string_app_nil_r.
  - pose proof (no_separator_across (String c x) y Hno) as Hacross.
    change (String c x ++ "://" ++ y) with (String c (x ++ "://" ++ y))
      in *.
    cbn [splitFrom]. rewrite Hacross by done.
    rewrite IH by (by eapply occursIn_tail).
    by rewrite string_app_assoc.
Qed.

(** The name [readResource] looks up for the uri of a separator-free name
    is that name. *)
Lemma split_screenshot_uri (name' : string) :
  occursIn "://" name' = false ->
  split "://" ("screenshot://" ++ name') !! 1 = Some name'.
Proof.
  intros Hno. unfold split.
  change ("screenshot://" ++ name') with ("screenshot" ++ "://" ++ name').
  rewrite splitFrom_first_separator by done.
  by rewrite splitFrom_no_separator.
Qed.

Lemma split_screenshot_uri_nested (x y : string) :
  occursIn "://" x = false ->
  split "://" ("screenshot://" ++ x ++ "://" ++ y) !! 1 = Some x.
Proof.
  intros Hno. unfold split.
  change ("screenshot://" ++ x ++ "://" ++ y)
    with ("screenshot" ++ "://" ++ (x ++ "://" ++ y)).
  rewrite splitFrom_first_separator by done.
  by rewrite splitFrom_first_separator.
Qed.

Lemma prefix_screenshot_uri (rest : string) :
  String.prefix "screenshot://" ("screenshot://" ++ rest) = true.
Proof. by destruct rest. Qed.

(** X10.  A screenshot registered with a non-empty payload under a name
    without [://] is read back by [readResource] under its uri
    [screenshot://name]: the contents are one PNG entry with that uri and
    the payload of the latest registration. *)
Theorem readResource_after_register st sid (name' base64 : string) :
  occursIn "://" name' = false ->
  truthy base64 = true ->
  readResource ("screenshot://" ++ name')
    (registerScreenshot sid name' base64 st)
  = Contents [ {| contentUri := "screenshot://" ++ name';
                  contentMimeType := "image/png"; blob := base64 |} ].
Proof.
  intros Hno Htruthy. unfold readResource.
  rewrite prefix_screenshot_uri, split_screenshot_uri by done.
  cbn [screenshots registerScreenshot].
  by rewrite lookup_insert_eq, Htruthy.
Qed.

Lemma readResource_after_register_witness :
  readResource ("screenshot://" ++ "shot-1")
    (registerScreenshot "s1" "shot-1" "QUJD" sampleStore)
  = Contents [ {| contentUri := "screenshot://" ++ "shot-1";
                  contentMimeType := "image/png"; blob := "QUJD" |} ].
Proof.
  apply (readResource_after_register sampleStore "s1" "shot-1" "QUJD");
    reflexivity.
Defined.

(** X11.  For a name without [://], [readResource] throws [Resource not
    found] under the uri of that name when the screenshot was registered
    with an empty payload, when the session it was registered under has
    been purged, and after [clearAllScreenshots]. *)
Theorem readResource_not_found (name' : string) :
  occursIn "://" name' = false ->
  let uri' := "screenshot://" ++ name' in
  (∀ st sid,
      readResource uri' (registerScreenshot sid name' "" st)
      = NotFound ("Resource not found: " ++ uri'))
  ∧ (∀ st sid, registeredUnder st sid name' ->
       readResource uri' (clearScreenshotsForSession sid st)
       = NotFound ("Resource not found: " ++ uri'))
  ∧ (∀ st,
       readResource uri' (clearAllScreenshots st)
       = NotFound ("Resource not found: " ++ uri')).
Proof.
  intros Hno uri'. subst uri'. unfold readResource.
  rewrite prefix_screenshot_uri, split_screenshot_uri by done.
  split; [|split].
  - intros st sid. cbn [screenshots registerScreenshot].
    by rewrite lookup_insert_eq.
  - intros st sid Hreg. rewrite screenshots_clear.
    by rewrite decide_True.
  - intros st. simpl. by rewrite lookup_empty.
Qed.

Lemma readResource_not_found_witness :
  let uri' := "screenshot://" ++ "a.png" in
  (∀ st sid,
      readResource uri' (registerScreenshot sid "a.png" "" st)
      = NotFound ("Resource not found: " ++ uri'))
  ∧ (∀ st sid, registeredUnder st sid "a.png" ->
       readResource uri' (clearScreenshotsForSession sid st)
       = NotFound ("Resource not found: " ++ uri'))
  ∧ (∀ st,
       readResource uri' (clearAllScreenshots st)
       = NotFound ("Resource not found: " ++ uri')).
Proof.
  apply (readResource_not_found "a.png"). reflexivity.
Defined.

(** X12.  For a uri [screenshot://x://y] in which [x] has no [://],
    [readResource] looks up the name [x], not the name [x://y]: the outcome
    is the screenshot stored under [x] if there is one with a non-empty
    payload, and [Resource not found] otherwise, whatever is stored under
    [x://y]. *)
Theorem readResource_uses_name_up_to_separator st (x y : string) :
  occursIn "://" x = false ->
  let uri' := "screenshot://" ++ x ++ "://" ++ y in
  readResource uri' st
  = match screenshots st !! x with
    | Some screenshot =>
        if truthy screenshot then
          Contents [ {| contentUri := uri'; contentMimeType := "image/png";
                        blob := screenshot |} ]
        else NotFound ("Resource not found: " ++ uri')
    | None => NotFound ("Resource not found: " ++ uri')
    end.
Proof.
  intros Hno uri'. subst uri'. unfold readResource.
  by rewrite prefix_screenshot_uri, split_screenshot_uri_nested.
Qed.

Lemma readResource_uses_name_up_to_separator_witness :
  let uri' := "screenshot://" ++ "a.png" ++ "://" ++ "zoom" in
  readResource uri' sampleStore
  = match screenshots sampleStore !! "a.png" with
    | Some screenshot =>
        if truthy screenshot then
          Contents [ {| contentUri := uri'; contentMimeType := "image/png";
                        blob := screenshot |} ]
        else NotFound ("Resource not found: " ++ uri')
    | None => NotFound ("Resource not found: " ++ uri')
    end.
Proof.
  apply (readResource_uses_name_up_to_separator sampleStore "a.png" "zoom").
  reflexivity.
Defined.

(** *** Listing resources *)

Lemma screenshot_uri_inj (a b : string) :
  "screenshot://" ++ a = "screenshot://" ++ b -> a = b.
Proof. intros H. cbv in H. by injection H. Qed.

Lemma listResources_uri st (name' : string) :
  (∃ r, r ∈ listResources st ∧ uri r = "screenshot://" ++ name')
  <-> is_Some (screenshots st !! name').
Proof.
  unfold listResources. split.
  - intros (r & Hin & Huri).
    apply list_elem_of_fmap in Hin as (n & -> & Hn).
    apply list_elem_of_fmap in Hn as ([n' shot] & -> & Hn).
    apply screenshot_uri_inj in Huri. simpl in Huri. subst name'.
    apply elem_of_map_to_list in Hn. by exists shot.
  - intros [shot Hshot]. eexists. split.
    + apply list_elem_of_fmap_2.
      apply (list_elem_of_fmap_2 fst _ (name', shot)).
      by apply elem_of_map_to_list.
    + done.
Qed.

(** X13.  [listResources] has one entry for each stored screenshot and no
    other: as many entries as the screenshots map has keys, each a PNG
    resource with uri [screenshot://name] and name [Screenshot: name] for a
    stored [name], and every stored name has its entry.  After
    [clearAllScreenshots] the list is empty. *)
Theorem listResources_lists_stored_screenshots st :
  length (listResources st) = size (screenshots st)
  ∧ (∀ r, r ∈ listResources st ->
       ∃ name', is_Some (screenshots st !! name')
                ∧ r = {| uri := "screenshot://" ++ name';
                         mimeType := "image/png";
                         name := "Screenshot: " ++ name' |})
  ∧ (∀ name', is_Some (screenshots st !! name') <->
       ∃ r, r ∈ listResources st ∧ uri r = "screenshot://" ++ name')
  ∧ listResources (clearAllScreenshots st) = [].
Proof.
  split; [|split; [|split]].
  - unfold listResources. by rewrite !length_fmap, length_map_to_list.
  - intros r Hin. unfold listResources in Hin.
    apply list_elem_of_fmap in Hin as (n & -> & Hn).
    apply list_elem_of_fmap in Hn as ([n' shot] & -> & Hn).
    apply elem_of_map_to_list in Hn. exists n'. split; [by exists shot|done].
  - intros name'. symmetry. apply listResources_uri.
  - unfold listResources. simpl. by rewrite map_to_list_empty.
Qed.

End ScreenshotStoreMore.


(* ===================================================================== *)
(** * Further properties of the retry wrapper *)
(* ===================================================================== *)

Section RetryPolicyMore.
Import Resources.

Context {S : Type}.

(** [initialDelayMs * 2^k]. *)
Lemma doubled_succ (q : Q) (k : nat) :
  (q * inject_Z (2 ^ Z.of_nat (Datatypes.S k))
   == 2 * (q * inject_Z (2 ^ Z.of_nat k)))%Q.
Proof.
  rewrite Nat2Z.inj_succ, Z.pow_succ_r by lia.
  rewrite inject_Z_mult. ring.
Qed.

Lemma maxDouble_above_1000 : (1000 <= maxDouble)%Q.
Proof. apply Qle_bool_iff. by vm_compute. Qed.

Lemma Qle_bool_false (a b : Q) : Qle_bool a b = false -> (b < a)%Q.
Proof.
  intros Hle. apply Qnot_le_lt. intros Hab.
  apply Qle_bool_iff in Hab. congruence.
Qed.

(** The delay after the [k]-th failure, for a finite non-negative
    [initialDelayMs]: the doubled value as long as it stays within 1000,
    and 1000 from then on. *)
Lemma delayAfter_doubles (q : Q) (k : nat) :
  (0 <= q)%Q ->
  ∃ p : Q,
    delayAfter (Finite q) k = Finite p
    ∧ (0 <= p)%Q
    ∧ ((p == q * inject_Z (2 ^ Z.of_nat k)
        ∧ ((1 ≤ k)%nat -> p <= 1000))%Q
       ∨ (p == 1000 ∧ 1000 <= q * inject_Z (2 ^ Z.of_nat k)
          ∧ (1 ≤ k)%nat)%Q).
Proof.
  intros Hq. induction k as [|k (p & Hp & Hpos & Hval)].
  - exists q. split; [done|]. split; [done|]. left. split; [|lia].
    change (inject_Z (2 ^ Z.of_nat 0)) with 1%Q. ring.
  - cbn [delayAfter]. rewrite Hp. unfold times2.
    pose proof (doubled_succ q k) as Hnext.
    pose proof maxDouble_above_1000 as Hmax.
    set (y := (q * inject_Z (2 ^ Z.of_nat k))%Q) in *.
    set (y' := (q * inject_Z (2 ^ Z.of_nat (Datatypes.S k)))%Q) in *.
    assert (p <= y)%Q as Hle by (destruct Hval as [[He _]|(He & Hy & _)]; lra).
    destruct (Qle_bool (p * 2) maxDouble) eqn:Hup.
    + apply Qle_bool_iff in Hup.
      assert (Qle_bool (- maxDouble) (p * 2) = true) as ->
        by (apply Qle_bool_iff; lra).
      unfold min1000. destruct (Qle_bool (p * 2) 1000) eqn:Hcap.
      * apply Qle_bool_iff in Hcap. exists (p * 2)%Q.
        split; [done|]. split; [lra|]. left. split; [|intros _; lra].
        destruct Hval as [[He _]|(He & Hy & _)]; lra.
      * apply Qle_bool_false in Hcap. exists 1000%Q.
        split; [done|]. split; [lra|]. right.
        split; [reflexivity|]. split; [lra | lia].
    + apply Qle_bool_false in Hup. unfold min1000. exists 1000%Q.
      split; [done|]. split; [lra|]. right.
      split; [reflexivity|]. split; [lra | lia].
Qed.

Lemma delayAfter_closed_form (q : Q) (k : nat) :
  (0 <= q)%Q ->
  sameNumber (delayAfter (Finite q) k)
    (Finite match k with
            | O => q
            | Datatypes.S _ => Qmin (q * inject_Z (2 ^ Z.of_nat k)) 1000
            end).
Proof.
  intros Hq. destruct (delayAfter_doubles q k Hq) as (p & -> & _ & Hval).
  unfold sameNumber. destruct k as [|k].
  - destruct Hval as [[He _]|(_ & _ & Hk)]; [|lia].
    rewrite He. change (inject_Z (2 ^ Z.of_nat 0)) with 1%Q. ring.
  - destruct Hval as [[He Hcap]|(He & Hy & _)].
    + rewrite Q.min_l; [done|]. rewrite <- He. apply Hcap. lia.
    + rewrite Q.min_r; done.
Qed.

(** X14.  The delays of the wrapper are an exponential backoff with a cap.
    For a finite [initialDelayMs >= 0], the sleeps of a run are, in order,
    [initialDelayMs] and then [min(initialDelayMs * 2^k, 1000)] milliseconds
    for [k = 1, 2, ...]: every sleep after the first is at most 1000 ms.  A
    run sleeps once after each attempt but the last, and not at all when
    [0 >= retries]. *)
Theorem retry_backoff_is_exponential_and_bounded
    (tryClear : nat -> S -> S * option Thrown) (options : Options) (s : S)
    (q : Q) (fuel : nat) (run : Run S) :
  default (Finite 50) (initialDelayMs options) = Finite q ->
  (0 <= q)%Q ->
  retryWith tryClear fuel options s = Some run ->
  (∀ k ms,
     sleepsOf (trace run) !! k = Some ms ->
     sameNumber ms
       (Finite match k with
               | O => q
               | Datatypes.S _ => Qmin (q * inject_Z (2 ^ Z.of_nat k)) 1000
               end))
  ∧ (∀ k ms, sleepsOf (trace run) !! Datatypes.S k = Some ms -> atMost1000 ms)
  ∧ (length (sleepsOf (trace run)) + 1)%nat = attemptsOf (trace run)
  ∧ (atLeast 0 (default (Finite 3) (retries options)) = true ->
     sleepsOf (trace run) = []).
Proof.
  intros Hd Hq Hrun.
  destruct (retryWith_run tryClear options s fuel run Hrun)
    as (n & _ & [Hgo Hstop] & ->).
  rewrite Hd. unfold runEndingAt; cbn [trace].
  rewrite sleepsOf_app, attemptsOf_app, sleepsOf_failedRounds,
    attemptsOf_failedRounds.
  change (sleepsOf [EvAttempt _]) with (@nil Number). rewrite app_nil_r.
  assert (∀ k ms, map (delayAfter (Finite q)) (seq 0 n) !! k = Some ms ->
            ms = delayAfter (Finite q) k) as Hlookup.
  { intros k ms Hk. change map with (@fmap list _) in Hk.
    rewrite list_lookup_fmap in Hk.
    destruct (seq 0 n !! k) as [j|] eqn:Hj; [|done].
    apply lookup_seq in Hj as [-> _]. by injection Hk as <-. }
  split; [|split; [|split]].
  - intros k ms Hk. rewrite (Hlookup k ms Hk).
    by apply delayAfter_closed_form.
  - intros k ms Hk. rewrite (Hlookup _ ms Hk).
    by apply delayAfter_capped.
  - by rewrite length_map, length_seq.
  - intros Hzero. destruct n as [|n]; [done|].
    specialize (Hgo 0%nat ltac:(lia)). unfold stopsAt in Hgo.
    destruct (outcomeOf tryClear s 0); [|done].
    change (attemptAt 0) with 0%Z in Hgo. congruence.
Qed.

Lemma storeBefore_scheduled (fails : nat -> option Thrown) (s : S) k :
  storeBefore (scheduled fails) s k = s.
Proof. induction k as [|k IH]; [done|]. cbn [storeBefore]. by rewrite IH. Qed.

Lemma outcomeOf_scheduled (fails : nat -> option Thrown) (s : S) k :
  outcomeOf (scheduled fails) s k = fails k.
Proof. reflexivity. Qed.

(** The wrapper over a schedule, when attempt [n] is the first after which
    it stops. *)
Lemma retryWith_scheduled (fails : nat -> option Thrown) (options : Options)
    (s : S) fuel n :
  (n < fuel)%nat ->
  firstStop (scheduled fails) (default (Finite 3) (retries options)) s n ->
  ∃ run,
    retryWith (scheduled fails) fuel options s = Some run
    ∧ completion run
      = match fails n with
        | None => Returns
        | Some err => Throws (toError err)
        end
    ∧ final run = s
    ∧ attemptsOf (trace run) = (n + 1)%nat.
Proof.
  intros Hfuel Hfirst. eexists. split; [by apply retryWith_stops|].
  unfold runEndingAt; cbn [completion final trace].
  rewrite outcomeOf_scheduled, storeBefore_scheduled, attemptsOf_app,
    attemptsOf_failedRounds.
  done.
Qed.

(** X15.  Over a failure schedule for the attempts, the outcome of the
    wrapper is decided by the first attempt the schedule lets through.

    For a finite [retries] (up to [2^53]), with
    [limit = max(ceil(retries), 0)]: if the first attempt to go through is
    attempt [k] and [k <= limit], the wrapper returns after exactly [k + 1]
    attempts; if the schedule lets none of the attempts [0 .. limit]
    through, the wrapper throws the error of attempt [limit] after exactly
    [limit + 1] attempts, even if a later attempt would have gone through.

    For [retries] [NaN] or [+Infinity], the wrapper returns after [k + 1]
    attempts whichever attempt [k] is the first to go through, and it never
    throws. *)
Theorem retry_outcome_follows_schedule (fails : nat -> option Thrown)
    (options : Options) (s : S) :
  let r := default (Finite 3) (retries options) in
  (∀ q, r = Finite q -> (Qceiling q ≤ maxExact)%Z ->
     let limit := Z.to_nat (giveUpAfter q) in
     (∀ fuel k,
        (k < fuel)%nat -> (k ≤ limit)%nat ->
        (∀ i, (i < k)%nat -> is_Some (fails i)) ->
        fails k = None ->
        ∃ run,
          retryWith (scheduled fails) fuel options s = Some run
          ∧ completion run = Returns
          ∧ final run = s
          ∧ attemptsOf (trace run) = (k + 1)%nat)
     ∧ (∀ fuel last,
          (limit < fuel)%nat ->
          (∀ i, (i < limit)%nat -> is_Some (fails i)) ->
          fails limit = Some last ->
          ∃ run,
            retryWith (scheduled fails) fuel options s = Some run
            ∧ completion run = Throws (toError last)
            ∧ final run = s
            ∧ attemptsOf (trace run) = (limit + 1)%nat))
  ∧ (r = NaN ∨ r = PlusInfinity ->
     (∀ fuel k,
        (k < fuel)%nat ->
        (∀ i, (i < k)%nat -> is_Some (fails i)) ->
        fails k = None ->
        ∃ run,
          retryWith (scheduled fails) fuel options s = Some run
          ∧ completion run = Returns
          ∧ final run = s
          ∧ attemptsOf (trace run) = (k + 1)%nat)
     ∧ (∀ fuel run,
          retryWith (scheduled fails) fuel options s = Some run ->
          completion run = Returns)).
Proof.
  intros r. split.
  - intros q Hr Hq limit. split.
    + intros fuel k Hfuel Hk Hfail Hok.
      destruct (retryWith_scheduled fails options s fuel k Hfuel)
        as (run & Hrun & Hdone & Hfinal & Hattempts).
      { fold r. split.
        - intros i Hi. unfold stopsAt. rewrite outcomeOf_scheduled.
          destruct (Hfail i Hi) as [err ->]. rewrite Hr.
          apply not_true_iff_false. rewrite atLeast_finite by done.
          subst limit. unfold giveUpAfter in *. lia.
        - unfold stopsAt. by rewrite outcomeOf_scheduled, Hok. }
      exists run. rewrite Hok in Hdone. done.
    + intros fuel last Hfuel Hfail Hlast.
      destruct (retryWith_scheduled fails options s fuel limit Hfuel)
        as (run & Hrun & Hdone & Hfinal & Hattempts).
      { fold r. split.
        - intros i Hi. unfold stopsAt. rewrite outcomeOf_scheduled.
          destruct (Hfail i Hi) as [err ->]. rewrite Hr.
          apply not_true_iff_false. rewrite atLeast_finite by done.
          subst limit. unfold giveUpAfter in *. lia.
        - unfold stopsAt. rewrite outcomeOf_scheduled, Hlast, Hr.
          apply atLeast_finite; [done|].
          subst limit. unfold giveUpAfter. lia. }
      exists run. rewrite Hlast in Hdone. done.
  - intros Hr.
    assert (∀ k, atLeast (attemptAt k) r = false) as Hnever
      by (intros k; destruct Hr as [-> | ->]; done).
    split.
    + intros fuel k Hfuel Hfail Hok.
      destruct (retryWith_scheduled fails options s fuel k Hfuel)
        as (run & Hrun & Hdone & Hfinal & Hattempts).
      { fold r. split.
        - intros i Hi. unfold stopsAt. rewrite outcomeOf_scheduled.
          destruct (Hfail i Hi) as [err ->]. apply Hnever.
        - unfold stopsAt. by rewrite outcomeOf_scheduled, Hok. }
      exists run. rewrite Hok in Hdone. done.
    + intros fuel run Hrun.
      destruct (retryWith_run (scheduled fails) options s fuel run Hrun)
        as (n & _ & [_ Hstop] & ->).
      fold r in Hstop. unfold stopsAt in Hstop.
      unfold runEndingAt; cbn [completion].
      destruct (outcomeOf (scheduled fails) s n); [|done].
      rewrite Hnever in Hstop. discriminate.
Qed.

End RetryPolicyMore.

(** With [initialDelayMs = 300] and a [try] body that always fails, the
    default three retries sleep 300, 600 and 1000 ms. *)
Lemma retry_backoff_is_exponential_and_bounded_witness :
  ∃ run,
    Resources.retryWith Resources.alwaysFails 10
      {| Resources.retries := None;
         Resources.initialDelayMs := Some (Resources.Finite 300) |} tt
    = Some run
    ∧ Resources.sleepsOf (Resources.trace run)
      = [Resources.Finite 300; Resources.Finite 600; Resources.Finite 1000]
    ∧ (∀ k ms,
         Resources.sleepsOf (Resources.trace run) !! k = Some ms ->
         Resources.sameNumber ms
           (Resources.Finite
              match k with
              | O => 300
              | Datatypes.S _ => Qmin (300 * inject_Z (2 ^ Z.of_nat k)) 1000
              end))
    ∧ (∀ k ms,
         Resources.sleepsOf (Resources.trace run) !! Datatypes.S k = Some ms ->
         Resources.atMost1000 ms)
    ∧ (length (Resources.sleepsOf (Resources.trace run)) + 1)%nat
      = Resources.attemptsOf (Resources.trace run).
Proof.
  eexists. split; [vm_compute; reflexivity|]. split; [reflexivity|].
  pose proof (retry_backoff_is_exponential_and_bounded Resources.alwaysFails
                {| Resources.retries := None;
                   Resources.initialDelayMs := Some (Resources.Finite 300) |}
                tt 300 10 _ eq_refl ltac:(done) eq_refl)
    as (Hform & Hcap & Hlen & _).
  done.
Defined.

(** On the schedule whose first two attempts fail: with the default options
    three attempts and a normal return; with [retries = 1.5] the same, the
    third attempt being made because [1 >= 1.5] does not hold; with
    [retries = 1] the error of the second attempt. *)
Lemma retry_outcome_follows_schedule_witness :
  (∃ run,
     Resources.retryWith (Resources.scheduled Resources.failsTwice) 10
       {| Resources.retries := None; Resources.initialDelayMs := None |} tt
     = Some run
     ∧ Resources.completion run = Resources.Returns
     ∧ Resources.final run = tt
     ∧ Resources.attemptsOf (Resources.trace run) = 3)
  ∧ (∃ run,
       Resources.retryWith (Resources.scheduled Resources.failsTwice) 10
         {| Resources.retries := Some (Resources.Finite (3 # 2));
            Resources.initialDelayMs := None |} tt
       = Some run
       ∧ Resources.completion run = Resources.Returns
       ∧ Resources.final run = tt
       ∧ Resources.attemptsOf (Resources.trace run) = 3)
  ∧ (∃ run,
       Resources.retryWith (Resources.scheduled Resources.failsTwice) 10
         {| Resources.retries := Some (Resources.Finite 1);
            Resources.initialDelayMs := None |} tt
       = Some run
       ∧ Resources.completion run
         = Resources.Throws (Resources.ThrownError "busy")
       ∧ Resources.final run = tt
       ∧ Resources.attemptsOf (Resources.trace run) = 2).
Proof.
  split; [|split].
  - apply (proj1 (proj1 (retry_outcome_follows_schedule Resources.failsTwice
                    {| Resources.retries := None;
                       Resources.initialDelayMs := None |} tt)
                   3%Q eq_refl ltac:(by vm_compute)) 10 2).
    + lia.
    + vm_compute. lia.
    + intros i Hi. destruct i as [|[|i]]; [by eexists | by eexists | lia].
    + reflexivity.
  - apply (proj1 (proj1 (retry_outcome_follows_schedule Resources.failsTwice
                    {| Resources.retries := Some (Resources.Finite (3 # 2));
                       Resources.initialDelayMs := None |} tt)
                   (3 # 2)%Q eq_refl ltac:(by vm_compute)) 10 2).
    + lia.
    + vm_compute. lia.
    + intros i Hi. destruct i as [|[|i]]; [by eexists | by eexists | lia].
    + reflexivity.
  - apply (proj2 (proj1 (retry_outcome_follows_schedule Resources.failsTwice
                    {| Resources.retries := Some (Resources.Finite 1);
                       Resources.initialDelayMs := None |} tt)
                   1%Q eq_refl ltac:(by vm_compute)) 10
             (Resources.ThrownOther "busy")).
    + vm_compute. lia.
    + intros i Hi. destruct i as [|i]; [by eexists|]. vm_compute in Hi. lia.
    + reflexivity.
Defined.

(* ===================================================================== *)
(** * Properties of the create tool *)
(* ===================================================================== *)

Section SessionCreation.
Import SessionTool SessionCreate.

Implicit Types (manager : SessionManager).
Implicit Types (client : Outcome (string -> Outcome string)).
Implicit Types (params : CreateSessionInput).

(** X16.  The create action has two kinds of outcome.  It returns only
    when the manager handed out a session with a page, a session id and a
    Stagehand instance that reports a non-empty Browserbase session id, and
    the debug call went through; the content is then the live view url of
    that Browserbase session id, the debugger url and the UI resource of
    that debugger url.  In every other case it throws an error whose
    message starts with [Failed to create Browserbase session: ]; no other
    error leaves the action. *)
Theorem handleCreateSession_outcomes manager client params :
  (∃ session sh bbId debug debugUrl,
      (ensureDefaultSessionInternal manager = Returned (Some session)
       ∨ ∃ id resume,
           createNewBrowserSession manager id resume
           = Returned (Some session))
      ∧ page session = true
      ∧ truthy (actualSessionId session) = true
      ∧ stagehand session = Some sh
      ∧ browserbaseSessionId sh = Some bbId
      ∧ truthy bbId = true
      ∧ client = Returned debug
      ∧ debug bbId = Returned debugUrl
      ∧ handleCreateSession manager client params
        = Returned
            [ TextItem
                ("Browserbase Live Session View URL: https://www.browserbase.com/sessions/"
                 ++ bbId);
              TextItem ("Browserbase Live Debugger URL: " ++ debugUrl);
              UIResource "ui://analytics-dashboard/main" debugUrl ])
  ∨ (∃ errorMessage,
       handleCreateSession manager client params
       = Raised ("Failed to create Browserbase session: " ++ errorMessage)).
Proof.
  unfold handleCreateSession, createSession.
  set (target := if truthy_opt (sessionId params)
                 then default "" (sessionId params)
                 else getDefaultSessionId manager).
  set (found := if String.eqb target (getDefaultSessionId manager)
                then ensureDefaultSessionInternal manager
                else createNewBrowserSession manager target
                       (default "" (sessionId params))).
  assert (∀ session, found = Returned (Some session) ->
            ensureDefaultSessionInternal manager = Returned (Some session)
            ∨ ∃ id resume,
                createNewBrowserSession manager id resume
                = Returned (Some session)) as Hfound.
  { intros session. subst found.
    destruct (String.eqb target _); [by left | right; eauto]. }
  destruct found as [[session|]|message] eqn:Hf; [| right; eexists; reflexivity..].
  destruct (stagehand session) as [sh|] eqn:Hsh; [| right; eexists; reflexivity].
  destruct (page session) eqn:Hpage; simpl; [| right; eexists; reflexivity].
  destruct (truthy (actualSessionId session)) eqn:Hid; simpl;
    [| right; eexists; reflexivity].
  destruct client as [debug|message]; [| right; eexists; reflexivity].
  destruct (browserbaseSessionId sh) as [bbId|] eqn:Hbb; simpl;
    [| right; eexists; reflexivity].
  destruct (truthy bbId) eqn:Htruthy; [| right; eexists; reflexivity].
  destruct (debug bbId) as [debugUrl|message] eqn:Hdebug; [| right; eexists; reflexivity].
  left. exists session, sh, bbId, debug, debugUrl.
  repeat split; try done. by apply Hfound.
Qed.

(** X17.  When no session id is given, or the empty string, or the id of
    the default session, the create action goes through
    [ensureDefaultSessionInternal]: an error raised by that call is the one
    the action reports, a valid session handed out by it is the one whose
    urls the action returns, and the outcome is the one of a call without
    session id whatever [createNewBrowserSession] would do, so the default
    id never resumes a Browserbase session.  With any other id the action
    goes through [createNewBrowserSession], called with that id both as
    internal id and as the session to resume: an error raised by that call
    is the one the action reports, a valid session handed out by it is the
    one whose urls the action returns, and the outcome depends on no other
    call of the manager, the default session included. *)
Theorem handleCreateSession_routing manager client params :
  (truthy_opt (sessionId params) = false
   ∨ sessionId params = Some (getDefaultSessionId manager) ->
   (∀ resume,
      handleCreateSession (withResume manager resume) client params
      = handleCreateSession manager client {| sessionId := None |})
   ∧ (∀ message,
        ensureDefaultSessionInternal manager = Raised message ->
        handleCreateSession manager client params
        = Raised ("Failed to create Browserbase session: " ++ message))
   ∧ (∀ session sh bbId debug debugUrl,
        ensureDefaultSessionInternal manager = Returned (Some session) ->
        page session = true ->
        truthy (actualSessionId session) = true ->
        stagehand session = Some sh ->
        browserbaseSessionId sh = Some bbId ->
        truthy bbId = true ->
        client = Returned debug ->
        debug bbId = Returned debugUrl ->
        handleCreateSession manager client params
        = Returned
            [ TextItem
                ("Browserbase Live Session View URL: https://www.browserbase.com/sessions/"
                 ++ bbId);
              TextItem ("Browserbase Live Debugger URL: " ++ debugUrl);
              UIResource "ui://analytics-dashboard/main" debugUrl ]))
  ∧ (∀ sid, sessionId params = Some sid -> truthy sid = true ->
       sid ≠ getDefaultSessionId manager ->
       (∀ ensure resume,
          resume sid sid = createNewBrowserSession manager sid sid ->
          handleCreateSession (withDefault (withResume manager resume) ensure)
            client params
          = handleCreateSession manager client params)
       ∧ (∀ message,
            createNewBrowserSession manager sid sid = Raised message ->
            handleCreateSession manager client params
            = Raised ("Failed to create Browserbase session: " ++ message))
       ∧ (∀ session sh bbId debug debugUrl,
            createNewBrowserSession manager sid sid
            = Returned (Some session) ->
            page session = true ->
            truthy (actualSessionId session) = true ->
            stagehand session = Some sh ->
            browserbaseSessionId sh = Some bbId ->
            truthy bbId = true ->
            client = Returned debug ->
            debug bbId = Returned debugUrl ->
            handleCreateSession manager client params
            = Returned
                [ TextItem
                    ("Browserbase Live Session View URL: https://www.browserbase.com/sessions/"
                     ++ bbId);
                  TextItem ("Browserbase Live Debugger URL: " ++ debugUrl);
                  UIResource "ui://analytics-dashboard/main" debugUrl ])).
Proof.
  split.
  - intros Hdefault.
    assert ((if truthy_opt (sessionId params)
             then default "" (sessionId params)
             else getDefaultSessionId manager)
            = getDefaultSessionId manager) as Htarget.
    { destruct Hdefault as [Hfalsy|Hsame]; [by rewrite Hfalsy|].
      rewrite Hsame. simpl. by destruct (truthy (getDefaultSessionId manager)). }
    split; [|split].
    + intros resume. unfold handleCreateSession, createSession. simpl.
      by rewrite Htarget, String.eqb_refl.
    + intros message Hensure. unfold handleCreateSession, createSession.
      by rewrite Htarget, String.eqb_refl, Hensure.
    + intros session sh bbId debug debugUrl Hensure Hpage Hid Hsh Hbb Htruthy
        Hclient Hdebug.
      unfold handleCreateSession, createSession.
      rewrite Htarget, String.eqb_refl, Hensure, Hsh, Hpage, Hid, Hclient, Hbb.
      simpl. by rewrite Htruthy, Hdebug.
  - intros sid Hsid Htruthy Hne.
    apply String.eqb_neq in Hne.
    split; [|split].
    + intros ensure resume Hresume.
      unfold handleCreateSession, createSession. simpl.
      rewrite Hsid. simpl. by rewrite Htruthy, Hne, Hresume.
    + intros message Hcreate. unfold handleCreateSession, createSession.
      rewrite Hsid. simpl. by rewrite Htruthy, Hne, Hcreate.
    + intros session sh bbId debug debugUrl Hcreate Hpage Hid Hsh Hbb Htruthy'
        Hclient Hdebug.
      unfold handleCreateSession, createSession.
      rewrite Hsid. simpl.
      rewrite Htruthy, Hne, Hcreate, Hsh, Hpage, Hid, Hclient, Hbb.
      simpl. by rewrite Htruthy', Hdebug.
Qed.

Lemma handleCreateSession_routing_witness :
  (∀ resume,
     handleCreateSession (withResume defaultOnlyManager resume) debugClient
       {| sessionId := Some "" |}
     = handleCreateSession defaultOnlyManager debugClient
         {| sessionId := None |})
  ∧ handleCreateSession defaultOnlyManager debugClient
      {| sessionId := Some "" |}
    = Returned
        [ TextItem
            "Browserbase Live Session View URL: https://www.browserbase.com/sessions/bb-1";
          TextItem
            "Browserbase Live Debugger URL: https://debug.example/bb-1";
          UIResource "ui://analytics-dashboard/main"
            "https://debug.example/bb-1" ]
  ∧ (∀ ensure,
       handleCreateSession
         (withDefault
            (withResume defaultOnlyManager
               (fun _ _ => Raised "cannot resume")) ensure)
         debugClient {| sessionId := Some "bb-9" |}
       = handleCreateSession defaultOnlyManager debugClient
           {| sessionId := Some "bb-9" |})
  ∧ handleCreateSession defaultOnlyManager debugClient
      {| sessionId := Some "bb-9" |}
    = Raised "Failed to create Browserbase session: cannot resume".
Proof.
  pose proof (proj1 (handleCreateSession_routing defaultOnlyManager
                       debugClient {| sessionId := Some "" |})
                (or_introl eq_refl)) as (Hsame & _ & Hvalid).
  pose proof (proj2 (handleCreateSession_routing defaultOnlyManager
                       debugClient {| sessionId := Some "bb-9" |})
                "bb-9" eq_refl eq_refl ltac:(discriminate))
    as (Hother & Hraised & _).
  split; [exact Hsame|]. split.
  - apply (Hvalid
             {| page := true; actualSessionId := "bb-1";
                stagehand := Some {| browserbaseSessionId := Some "bb-1" |} |}
             {| browserbaseSessionId := Some "bb-1" |} "bb-1"
             (fun bbId => Returned ("https://debug.example/" ++ bbId))
             "https://debug.example/bb-1");
      reflexivity.
  - split.
    + intros ensure. by apply Hother.
    + by apply Hraised.
Defined.

End SessionCreation.

(* ===================================================================== *)
(** * Properties of the configuration code *)
(* ===================================================================== *)

Section CommandLine.
Import ConfigArgs.

Lemma indexOfFrom_absent (x : string) (args : list string) (i : Z) :
  x ∉ args -> indexOfFrom x args i = (-1)%Z.
Proof.
  revert i. induction args as [|arg args IH]; intros i Hout; [done|].
  apply not_elem_of_cons in Hout as [Hne Hout]. cbn [indexOfFrom].
  destruct (String.eqb_spec arg x) as [->|_]; [done|]. by apply IH.
Qed.

Lemma indexOfFrom_first (x : string) (pre rest : list string) (i : Z) :
  x ∉ pre ->
  indexOfFrom x (pre ++ x :: rest) i = (i + Z.of_nat (length pre))%Z.
Proof.
  revert i. induction pre as [|arg pre IH]; intros i Hout.
  - simpl. rewrite String.eqb_refl. lia.
  - apply not_elem_of_cons in Hout as [Hne Hout]. cbn [app indexOfFrom].
    destruct (String.eqb_spec arg x) as [->|_]; [done|].
    rewrite IH by done. cbn [length]. lia.
Qed.

(** X18.  [parseArgs] looks at the first [--proxies] argument only.
    Without one, [proxies] is false.  With one, [proxies] is true when the
    flag is the last argument or is followed by an empty argument or by an
    argument that starts with [--]; otherwise it is true exactly when the
    next argument, in lower case, is [true] or [1].  Later occurrences of
    the flag have no effect. *)
Theorem parseArgs_first_flag_decides :
  (∀ args, "--proxies" ∉ args -> parseArgs args = false)
  ∧ (∀ pre rest, "--proxies" ∉ pre ->
       parseArgs (pre ++ "--proxies" :: rest) = flagValue rest)
  ∧ (∀ pre next rest rest', "--proxies" ∉ pre ->
       parseArgs (pre ++ "--proxies" :: next :: rest)
       = parseArgs (pre ++ "--proxies" :: next :: rest')).
Proof.
  assert (∀ pre rest, "--proxies" ∉ pre ->
            parseArgs (pre ++ "--proxies" :: rest) = flagValue rest) as Hflag.
  { intros pre rest Hout. unfold parseArgs, indexOf.
    rewrite indexOfFrom_first by done.
    replace (0 + Z.of_nat (length pre) =? -1)%Z with false
      by (symmetry; apply Z.eqb_neq; lia).
    unfold at_.
    replace (0 + Z.of_nat (length pre) + 1 <? 0)%Z with false
      by (symmetry; apply Z.ltb_ge; lia).
    replace (Z.to_nat (0 + Z.of_nat (length pre) + 1))
      with (length pre + 1)%nat by lia.
    rewrite lookup_app_r by lia.
    replace (length pre + 1 - length pre)%nat with 1%nat by lia.
    by destruct rest. }
  split; [|split].
  - intros args Hout. unfold parseArgs, indexOf.
    by rewrite indexOfFrom_absent.
  - apply Hflag.
  - intros pre next rest rest' Hout. by rewrite !Hflag.
Qed.

(** Some command lines. *)
Example parseArgs_examples :
  parseArgs [] = false
  ∧ parseArgs ["--proxies"] = true
  ∧ parseArgs ["--proxies"; "TRUE"] = true
  ∧ parseArgs ["--proxies"; "1"] = true
  ∧ parseArgs ["--proxies"; "yes"] = false
  ∧ parseArgs ["--proxies"; "--port"; "8080"] = true
  ∧ parseArgs ["--proxies"; "false"; "--proxies"; "true"] = false.
Proof. by vm_compute. Qed.

End CommandLine.

Section ConfigResolution.
Import ConfigMerge.

Implicit Types (base overrides obj : gmap string Value).

Lemma lookup_pickDefined obj (k : string) :
  pickDefined obj !! k
  = match obj !! k with
    | Some VUndefined => None
    | other => other
    end.
Proof.
  unfold pickDefined. rewrite map_lookup_filter.
  destruct (obj !! k) as [v|]; simpl; [|done].
  destruct v; simpl; by rewrite ?option_guard_True, ?option_guard_False
    by (by intros []).
Qed.

Lemma lookup_mergeConfig base overrides (k : string) :
  mergeConfig base overrides !! k
  = match pickDefined overrides !! k with
    | Some v => Some v
    | None => pickDefined base !! k
    end.
Proof.
  unfold mergeConfig. rewrite lookup_union.
  destruct (pickDefined overrides !! k), (pickDefined base !! k); done.
Qed.

(** X19.  [mergeConfig] lays the defined properties of [overrides] over the
    defined properties of [base]: a property that [overrides] defines wins;
    a property that [overrides] lacks or holds as [undefined] is taken from
    [base] if defined there; the result never holds [undefined].  Merging an
    object with itself only drops its undefined properties. *)
Theorem mergeConfig_overrides_defined base overrides :
  (∀ k v, overrides !! k = Some v -> v ≠ VUndefined ->
     mergeConfig base overrides !! k = Some v)
  ∧ (∀ k, overrides !! k = None ∨ overrides !! k = Some VUndefined ->
       mergeConfig base overrides !! k = pickDefined base !! k)
  ∧ (∀ k, mergeConfig base overrides !! k ≠ Some VUndefined)
  ∧ mergeConfig base base = pickDefined base.
Proof.
  split; [|split; [|split]].
  - intros k v Hk Hv. rewrite lookup_mergeConfig, lookup_pickDefined, Hk.
    by destruct v.
  - intros k [Hk|Hk]; by rewrite lookup_mergeConfig, lookup_pickDefined, Hk.
  - intros k. rewrite lookup_mergeConfig, !lookup_pickDefined.
    destruct (overrides !! k) as [[]|]; try done;
      by destruct (base !! k) as [[]|].
  - apply map_eq; intros k. rewrite lookup_mergeConfig.
    by destruct (pickDefined base !! k).
Qed.

(** X20.  The resolved configuration has exactly two properties.
    [proxies] is the command-line value, and [false] when none was given.
    [server] is always there, as an object holding the port and host of the
    command line, each possibly undefined.  There is no [context]
    property, nor any other. *)
Theorem resolveConfig_properties (cliOptions : CLIOptions) :
  resolveConfig cliOptions !! "proxies"
  = Some (VBool (default false (proxies cliOptions)))
  ∧ resolveConfig cliOptions !! "server"
    = Some (VServer (server cliOptions ≫= port) (server cliOptions ≫= host))
  ∧ resolveConfig cliOptions !! "context" = None
  ∧ dom (resolveConfig cliOptions) = {[ "proxies"; "server" ]}.
Proof.
  assert (resolveConfig cliOptions
          = {[ "server" := VServer (server cliOptions ≫= port)
                             (server cliOptions ≫= host);
               "proxies" := VBool (default false (proxies cliOptions)) ]})
    as ->.
  { apply map_eq; intros k. unfold resolveConfig, configFromCLIOptions,
      defaultConfig.
    rewrite lookup_mergeConfig, !lookup_pickDefined.
    destruct (decide (k = "server")) as [->|Hs].
    { by rewrite !lookup_insert_eq. }
    rewrite !(lookup_insert_ne _ "server") by done.
    destruct (decide (k = "proxies")) as [->|Hp].
    { rewrite !lookup_singleton_eq. by destruct (proxies cliOptions). }
    by rewrite !lookup_singleton_ne by done. }
  split; [|split; [|split]].
  - by rewrite lookup_insert_ne, lookup_singleton_eq.
  - by rewrite lookup_insert_eq.
  - by rewrite lookup_insert_ne, lookup_singleton_ne.
  - rewrite dom_insert_L, dom_singleton_L. apply union_comm_L.
Qed.

End ConfigResolution.

